(** * uhd::time_spec_t  (host/include/uhd/types/time_spec.hpp)

    A shallow embedding of the header-only class [time_spec_t] and of the
    properties its specification states about it.

    - [int64_t] values are integers of [Z] inside [INT64_MIN, INT64_MAX];
      signed overflow and division by zero are undefined behaviour in C++
      and are made explicit through the [outcome] monad.
    - [double] values are IEEE-754 binary64 numbers, modelled by the
      Standard Library's executable specification [spec_float] with
      [prec = 53] and [emax = 1024] (round to nearest, ties to even). *)

From Stdlib Require Import ZArith Bool List Lia.
From Stdlib Require Import QArith Qround Qpower Lqa.
From Stdlib Require Import Floats.SpecFloat.
From Stdlib Require Import Ascii String DecimalString.

Local Open Scope Z_scope.

(** ** Outcomes of an evaluation *)

(** The ways in which an expression used by the class has no defined value. *)
Variant undefined_behaviour :=
  | Signed_overflow          (* int64_t arithmetic left its range *)
  | Division_by_zero         (* int64_t division with a zero divisor *)
  | Float_to_int_overflow.   (* static_cast<int64_t> of NaN, inf or a value out of range *)

Variant outcome (A : Type) :=
  | Value (a : A)
  | Undefined (why : undefined_behaviour).

Arguments Value {A} a.
Arguments Undefined {A} why.

Definition bind {A B} (c : outcome A) (k : A -> outcome B) : outcome B :=
  match c with
  | Value a => k a
  | Undefined why => Undefined why
  end.

Notation "x <- c ;; k" := (bind c (fun x => k))
  (at level 61, c at next level, right associativity).

Definition is_value {A} (c : outcome A) : bool :=
  match c with Value _ => true | Undefined _ => false end.

(** ** int64_t *)

Module Int64.

Definition min_signed : Z := - 2 ^ 63.
Definition max_signed : Z := 2 ^ 63 - 1.

Definition in_range (z : Z) : bool :=
  (min_signed <=? z) && (z <=? max_signed).

Definition checked (z : Z) : outcome Z :=
  if in_range z then Value z else Undefined Signed_overflow.

Definition add (a b : Z) : outcome Z := checked (a + b).
Definition sub (a b : Z) : outcome Z := checked (a - b).
Definition mul (a b : Z) : outcome Z := checked (a * b).

(** [a / b] of C++: truncation toward zero. *)
Definition div (a b : Z) : outcome Z :=
  if b =? 0 then Undefined Division_by_zero else checked (Z.quot a b).

End Int64.

(** ** double *)

Module Double.

Definition prec : Z := 53.
Definition emax : Z := 1024.

Definition double := spec_float.

Definition add : double -> double -> double := SFadd prec emax.
Definition sub : double -> double -> double := SFsub prec emax.
Definition mul : double -> double -> double := SFmul prec emax.
Definition div : double -> double -> double := SFdiv prec emax.

Definition eqb : double -> double -> bool := SFeqb.
Definition ltb : double -> double -> bool := SFltb.
Definition leb : double -> double -> bool := SFleb.
Definition neqb (x y : double) : bool := negb (eqb x y).
Definition gtb (x y : double) : bool := ltb y x.
Definition geb (x y : double) : bool := leb y x.

Definition valid (x : double) : bool := valid_binary prec emax x.

(** Implicit conversion [int64_t -> double]: the nearest double. *)
Definition of_int (z : Z) : double := binary_normalize prec emax z 0 false.

Definition zero : double := S754_zero false.
Definition one : double := of_int 1.
Definition half : double := S754_finite false 4503599627370496 (-53).

(** The integer obtained from a finite double by discarding its
    fractional digits (rounding toward zero). *)
Definition truncate (x : double) : option Z :=
  match x with
  | S754_zero _ => Some 0
  | S754_finite s m e =>
      let a := match e with
               | Z0 => Zpos m
               | Zpos _ => Z.shiftl (Zpos m) e
               | Zneg _ => Z.shiftr (Zpos m) (- e)
               end in
      Some (if s then - a else a)
  | _ => None
  end.

(** [static_cast<int64_t>(x)] *)
Definition to_int (x : double) : outcome Z :=
  match truncate x with
  | Some z => if Int64.in_range z then Value z
              else Undefined Float_to_int_overflow
  | None => Undefined Float_to_int_overflow
  end.

(** [std::trunc(x)]: infinities, NaN and zeros are returned unchanged,
    the sign of a negative argument is kept when the result is zero. *)
Definition trunc (x : double) : double :=
  match x with
  | S754_finite s m e =>
      match truncate x with
      | Some z => binary_normalize prec emax z 0 s
      | None => x
      end
  | _ => x
  end.

End Double.

Notation double := Double.double.

(** ** class time_spec_t *)

Record time_spec_t := mk_time_spec
  { _full_secs : Z;          (* int64_t _full_secs{} *)
    _frac_secs : double }.   (* double  _frac_secs{} *)

Definition get_full_secs (t : time_spec_t) : Z := _full_secs t.
Definition get_frac_secs (t : time_spec_t) : double := _frac_secs t.

(** [static constexpr int64_t fast_llround(double x)] *)
Definition fast_llround (x : double) : outcome Z :=
  Double.to_int (Double.add x Double.half).

(** [static constexpr double ASAP = 0.0] *)
Definition ASAP : double := Double.zero.

(** [time_spec_t()] *)
Definition time_spec_default : time_spec_t := mk_time_spec 0 Double.zero.

(** [time_spec_t(int64_t full_secs)] *)
Definition time_spec_of_full (full_secs : Z) : time_spec_t :=
  mk_time_spec full_secs Double.zero.

(** [void set_from(int64_t full_secs, double frac_secs)]: the new value of
    the receiver (the previous one is not read). *)
Definition set_from (full_secs : Z) (frac_secs : double) : outcome time_spec_t :=
  _frac_int <- Double.to_int frac_secs ;;
  full <- Int64.add full_secs _frac_int ;;
  let frac := Double.sub frac_secs (Double.of_int _frac_int) in
  if Double.ltb frac Double.zero then
    full' <- Int64.sub full 1 ;;
    Value (mk_time_spec full' (Double.add frac Double.one))
  else
    Value (mk_time_spec full frac).

(** [time_spec_t(int64_t full_secs, double frac_secs)] *)
Definition time_spec (full_secs : Z) (frac_secs : double) : outcome time_spec_t :=
  set_from full_secs frac_secs.

(** [time_spec_t(double secs)] *)
Definition time_spec_of_secs (secs : double) : outcome time_spec_t :=
  time_spec 0 secs.

(** [time_spec_t(int64_t full_secs, int64_t tick_count, double tick_rate)] *)
Definition time_spec_of_tick_count
    (full_secs tick_count : Z) (tick_rate : double) : outcome time_spec_t :=
  time_spec full_secs (Double.div (Double.of_int tick_count) tick_rate).

(** [static time_spec_t from_ticks(int64_t ticks, double tick_rate)] *)
Definition from_ticks (ticks : Z) (tick_rate : double) : outcome time_spec_t :=
  rate_i <- Double.to_int tick_rate ;;
  let rate_f := Double.sub tick_rate (Double.of_int rate_i) in
  secs_full <- Int64.div ticks rate_i ;;
  prod <- Int64.mul secs_full rate_i ;;
  ticks_error <- Int64.sub ticks prod ;;
  let ticks_frac :=
    Double.sub (Double.of_int ticks_error)
               (Double.mul (Double.of_int secs_full) rate_f) in
  time_spec secs_full (Double.div ticks_frac tick_rate).

(** [int64_t get_tick_count(double tick_rate) const] *)
Definition get_tick_count (t : time_spec_t) (tick_rate : double) : outcome Z :=
  fast_llround (Double.mul (get_frac_secs t) tick_rate).

(** [int64_t to_ticks(const double tick_rate) const] *)
Definition to_ticks (t : time_spec_t) (tick_rate : double) : outcome Z :=
  rate_i <- Double.to_int tick_rate ;;
  let rate_f := Double.sub tick_rate (Double.of_int rate_i) in
  ticks_full <- Int64.mul (get_full_secs t) rate_i ;;
  let ticks_error := Double.mul (Double.of_int (get_full_secs t)) rate_f in
  let ticks_frac := Double.mul (get_frac_secs t) tick_rate in
  r <- fast_llround (Double.add ticks_error ticks_frac) ;;
  Int64.add ticks_full r.

(** [double get_real_secs() const] *)
Definition get_real_secs (t : time_spec_t) : double :=
  Double.add (Double.of_int (get_full_secs t)) (get_frac_secs t).

(** *** Arithmetic operators

    The in-place operators return the new value of the receiver. *)

(** [friend time_spec_t operator+(const time_spec_t& l, const time_spec_t& r)] *)
Definition op_add (l r : time_spec_t) : outcome time_spec_t :=
  full <- Int64.add (get_full_secs l) (get_full_secs r) ;;
  time_spec full (Double.add (get_frac_secs l) (get_frac_secs r)).

(** [time_spec_t& operator+=(const time_spec_t& rhs)] *)
Definition op_add_assign (self rhs : time_spec_t) : outcome time_spec_t :=
  full <- Int64.add (get_full_secs self) (get_full_secs rhs) ;;
  set_from full (Double.add (get_frac_secs self) (get_frac_secs rhs)).

(** [friend time_spec_t operator+(const time_spec_t& l, const double& r)] *)
Definition op_add_double (l : time_spec_t) (r : double) : outcome time_spec_t :=
  let full_secs := Double.trunc r in
  i <- Double.to_int full_secs ;;
  full <- Int64.add (get_full_secs l) i ;;
  time_spec full (Double.add (get_frac_secs l) (Double.sub r full_secs)).

(** [time_spec_t& operator+=(const double& rhs)] *)
Definition op_add_assign_double (self : time_spec_t) (rhs : double)
  : outcome time_spec_t :=
  let full_secs := Double.trunc rhs in
  i <- Double.to_int full_secs ;;
  full <- Int64.add (get_full_secs self) i ;;
  set_from full (Double.add (get_frac_secs self) (Double.sub rhs full_secs)).

(** [friend time_spec_t operator-(const time_spec_t& l, const time_spec_t& r)] *)
Definition op_sub (l r : time_spec_t) : outcome time_spec_t :=
  full <- Int64.sub (get_full_secs l) (get_full_secs r) ;;
  time_spec full (Double.sub (get_frac_secs l) (get_frac_secs r)).

(** [time_spec_t& operator-=(const time_spec_t& rhs)] *)
Definition op_sub_assign (self rhs : time_spec_t) : outcome time_spec_t :=
  full <- Int64.sub (get_full_secs self) (get_full_secs rhs) ;;
  set_from full (Double.sub (get_frac_secs self) (get_frac_secs rhs)).

(** [friend time_spec_t operator-(const time_spec_t& l, const double& r)] *)
Definition op_sub_double (l : time_spec_t) (r : double) : outcome time_spec_t :=
  let full_secs := Double.trunc r in
  i <- Double.to_int full_secs ;;
  full <- Int64.sub (get_full_secs l) i ;;
  time_spec full (Double.sub (get_frac_secs l) (Double.sub r full_secs)).

(** [time_spec_t& operator-=(const double& rhs)] *)
Definition op_sub_assign_double (self : time_spec_t) (rhs : double)
  : outcome time_spec_t :=
  let full_secs := Double.trunc rhs in
  i <- Double.to_int full_secs ;;
  full <- Int64.sub (get_full_secs self) i ;;
  set_from full (Double.sub (get_frac_secs self) (Double.sub rhs full_secs)).

(** *** Comparison operators *)

(** [operator==] *)
Definition op_eq (l r : time_spec_t) : bool :=
  (get_full_secs l =? get_full_secs r)
  && Double.eqb (get_frac_secs l) (get_frac_secs r).

(** [operator!=] *)
Definition op_ne (l r : time_spec_t) : bool :=
  negb (get_full_secs l =? get_full_secs r)
  || Double.neqb (get_frac_secs l) (get_frac_secs r).

(** [operator<] *)
Definition op_lt (l r : time_spec_t) : bool :=
  (get_full_secs l <? get_full_secs r)
  || ((get_full_secs l =? get_full_secs r)
      && Double.ltb (get_frac_secs l) (get_frac_secs r)).

(** [operator>] *)
Definition op_gt (l r : time_spec_t) : bool :=
  (get_full_secs l >? get_full_secs r)
  || ((get_full_secs l =? get_full_secs r)
      && Double.gtb (get_frac_secs l) (get_frac_secs r)).

(** [operator<=] *)
Definition op_le (l r : time_spec_t) : bool :=
  (get_full_secs l <? get_full_secs r)
  || ((get_full_secs l =? get_full_secs r)
      && Double.leb (get_frac_secs l) (get_frac_secs r)).

(** [operator>=] *)
Definition op_ge (l r : time_spec_t) : bool :=
  (get_full_secs l >? get_full_secs r)
  || ((get_full_secs l =? get_full_secs r)
      && Double.geb (get_frac_secs l) (get_frac_secs r)).

(** *** The normalization invariant

    The fractional seconds lie in the half-open interval [0, 1). *)
Definition normalized (t : time_spec_t) : bool :=
  Double.leb Double.zero (get_frac_secs t)
  && Double.ltb (get_frac_secs t) Double.one.

(** A well-formed object: [_full_secs] is an [int64_t] and [_frac_secs] a
    binary64 value. *)
Definition well_formed (t : time_spec_t) : bool :=
  Int64.in_range (get_full_secs t) && Double.valid (get_frac_secs t).

(** * Properties *)

(** ** Comparison of doubles *)

Section Compare.

Definition is_nan (x : double) : bool :=
  match x with S754_nan => true | _ => false end.

Definition is_zero (x : double) : bool :=
  match x with S754_zero _ => true | _ => false end.

Lemma compare_cont_Eq (a b : positive) :
  Pos.compare_cont Eq a b = (Zpos a ?= Zpos b).
Proof. reflexivity. Qed.

Lemma SFcompare_defined (x y : double) :
  is_nan x = false -> is_nan y = false ->
  exists c, SFcompare x y = Some c.
Proof.
  destruct x, y; simpl; intros Hx Hy; try discriminate; eauto.
Qed.

Lemma SFcompare_swap (x y : double) (c : comparison) :
  SFcompare x y = Some c -> SFcompare y x = Some (CompOpp c).
Proof.
  destruct x as [sx|sx| |sx mx ex], y as [sy|sy| |sy my ey]; simpl;
    try discriminate;
    try (destruct sx; intros [= <-]; reflexivity);
    try (destruct sy; intros [= <-]; reflexivity);
    try (destruct sx, sy; intros [= <-]; reflexivity).
  intros [= <-]. f_equal.
  change (Pos.compare_cont Eq my mx) with (my ?= mx)%positive.
  change (Pos.compare_cont Eq mx my) with (mx ?= my)%positive.
  rewrite (Z.compare_antisym ex ey), (Pos.compare_antisym mx my).
  destruct sx, sy; simpl; try reflexivity;
    destruct (ex ?= ey); simpl; try reflexivity;
    destruct (mx ?= my)%positive; reflexivity.
Qed.

Lemma leb_not_nan_r (x y : double) : Double.leb x y = true -> is_nan y = false.
Proof.
  unfold Double.leb, SFleb. destruct x, y; simpl; congruence.
Qed.

Lemma ltb_not_nan_l (x y : double) : Double.ltb x y = true -> is_nan x = false.
Proof.
  unfold Double.ltb, SFltb. destruct x, y; simpl; congruence.
Qed.

(** [==] on doubles holds only between identical values, the two zeros
    apart. *)
Lemma eqb_exact (x y : double) :
  Double.eqb x y = true -> x = y \/ (is_zero x = true /\ is_zero y = true).
Proof.
  unfold Double.eqb, SFeqb.
  destruct x as [sx|sx| |sx mx ex], y as [sy|sy| |sy my ey]; simpl;
    try discriminate; try (destruct sx; discriminate);
    try (destruct sy; discriminate); auto.
  - destruct sx, sy; try discriminate; auto.
  - change (Pos.compare_cont Eq mx my) with (mx ?= my)%positive.
    destruct sx, sy; try discriminate;
      destruct (Z.compare_spec ex ey); try discriminate; subst;
      destruct (Pos.compare_spec mx my); try discriminate; subst; auto.
Qed.

End Compare.

Lemma normalized_not_nan (t : time_spec_t) :
  normalized t = true -> is_nan (get_frac_secs t) = false.
Proof.
  unfold normalized. intros H. apply andb_prop in H as [H _].
  now apply leb_not_nan_r in H.
Qed.

(** ** Ordering (C6) *)

Definition exactly_one (p q r : bool) : bool :=
  (p && negb q && negb r) || (negb p && q && negb r) || (negb p && negb q && r).

(** C6. For normalized operands exactly one of [a < b], [a == b], [a > b]
    holds; [<=] is the disjunction of [<] and [==], [>=] that of [>] and
    [==]; the order is that of the whole seconds, ties being decided by the
    fractional seconds; [==] asks for equal whole seconds and for fractional
    seconds that are the same double (no tolerance), and [!=] is its
    negation. *)
Theorem ordering_total (a b : time_spec_t) :
  normalized a = true -> normalized b = true ->
  exactly_one (op_lt a b) (op_eq a b) (op_gt a b) = true
  /\ op_le a b = op_lt a b || op_eq a b
  /\ op_ge a b = op_gt a b || op_eq a b
  /\ (op_lt a b = true <->
      get_full_secs a < get_full_secs b
      \/ (get_full_secs a = get_full_secs b
          /\ Double.ltb (get_frac_secs a) (get_frac_secs b) = true))
  /\ (op_gt a b = true <->
      get_full_secs a > get_full_secs b
      \/ (get_full_secs a = get_full_secs b
          /\ Double.ltb (get_frac_secs b) (get_frac_secs a) = true))
  /\ (op_eq a b = true <->
      get_full_secs a = get_full_secs b
      /\ Double.eqb (get_frac_secs a) (get_frac_secs b) = true)
  /\ (op_eq a b = true ->
      get_frac_secs a = get_frac_secs b
      \/ (is_zero (get_frac_secs a) = true /\ is_zero (get_frac_secs b) = true))
  /\ op_ne a b = negb (op_eq a b).
Proof.
  intros Ha Hb.
  apply normalized_not_nan in Ha. apply normalized_not_nan in Hb.
  destruct (SFcompare_defined _ _ Ha Hb) as [c Hc].
  pose proof (SFcompare_swap _ _ _ Hc) as Hc'.
  pose proof (eqb_exact (get_frac_secs a) (get_frac_secs b)) as Hex.
  unfold exactly_one, op_lt, op_eq, op_gt, op_le, op_ge, op_ne.
  unfold Double.neqb, Double.gtb, Double.geb in *.
  unfold Double.ltb, Double.leb, Double.eqb, SFltb, SFleb, SFeqb in *.
  rewrite Hc, Hc' in *.
  rewrite Z.gtb_ltb.
  destruct (Z.ltb_spec (get_full_secs a) (get_full_secs b)),
           (Z.ltb_spec (get_full_secs b) (get_full_secs a)),
           (Z.eqb_spec (get_full_secs a) (get_full_secs b));
    try lia; destruct c; simpl;
    repeat split; intros; try reflexivity; try discriminate; try lia;
    auto; try tauto;
    repeat match goal with
           | H : _ \/ _ |- _ => destruct H
           | H : _ /\ _ |- _ => destruct H
           end; try lia; try discriminate.
Qed.

(** At the normalized values 3.25 and 3.5 the order is strict. *)
Lemma ordering_total_witness :
  exactly_one
    (op_lt (mk_time_spec 3 (S754_finite false 4503599627370496 (-54)))
           (mk_time_spec 3 Double.half))
    (op_eq (mk_time_spec 3 (S754_finite false 4503599627370496 (-54)))
           (mk_time_spec 3 Double.half))
    (op_gt (mk_time_spec 3 (S754_finite false 4503599627370496 (-54)))
           (mk_time_spec 3 Double.half)) = true.
Proof.
  apply (ordering_total
           (mk_time_spec 3 (S754_finite false 4503599627370496 (-54)))
           (mk_time_spec 3 Double.half)); reflexivity.
Defined.

(** ** In-place and binary operators (C9) *)

(** C9. Each in-place operator leaves in the receiver the value the
    corresponding binary operator returns, for [time_spec_t] and for
    [double] right-hand sides, undefined cases included. *)
Theorem in_place_agrees_with_binary (a b : time_spec_t) (r : double) :
  op_add_assign a b = op_add a b
  /\ op_sub_assign a b = op_sub a b
  /\ op_add_assign_double a r = op_add_double a r
  /\ op_sub_assign_double a r = op_sub_double a r.
Proof.
  repeat split.
Qed.

(** ** Facts on binary64 values *)

Section Binary64.

Let emin : Z := -1074.

Lemma digits2_pos_spec (p : positive) :
  2 ^ (Zpos (digits2_pos p) - 1) <= Zpos p < 2 ^ Zpos (digits2_pos p).
Proof.
  induction p as [p IH|p IH|]; simpl digits2_pos.
  - rewrite Pos2Z.inj_succ, Z.pow_succ_r by lia.
    replace (Z.succ (Zpos (digits2_pos p)) - 1)
      with (Z.succ (Zpos (digits2_pos p) - 1)) by lia.
    rewrite Z.pow_succ_r by lia. lia.
  - rewrite Pos2Z.inj_succ, Z.pow_succ_r by lia.
    replace (Z.succ (Zpos (digits2_pos p)) - 1)
      with (Z.succ (Zpos (digits2_pos p) - 1)) by lia.
    rewrite Z.pow_succ_r by lia. lia.
  - simpl. lia.
Qed.

(** The number of binary digits is determined by the enclosing powers
    of two. *)
Lemma digits2_pos_unique (p : positive) (d : Z) :
  2 ^ (d - 1) <= Zpos p < 2 ^ d -> Zpos (digits2_pos p) = d.
Proof.
  intros [Hl Hu]. pose proof (digits2_pos_spec p) as [Hl' Hu'].
  assert (0 < d).
  { destruct (Z.ltb_spec 0 d); [assumption|].
    rewrite Z.pow_neg_r in Hl by lia.
    destruct (Z.eq_dec d 0); [subst; simpl in Hu; lia|].
    rewrite Z.pow_neg_r in Hu by lia. lia. }
  destruct (Z.lt_trichotomy (Zpos (digits2_pos p)) d) as [Hlt|[Heq|Hgt]];
    [|assumption|].
  - assert (2 ^ Zpos (digits2_pos p) <= 2 ^ (d - 1))
      by (apply Z.pow_le_mono_r; lia). lia.
  - assert (2 ^ d <= 2 ^ (Zpos (digits2_pos p) - 1))
      by (apply Z.pow_le_mono_r; lia). lia.
Qed.

Lemma digits2_pos_le (p : positive) (d : Z) :
  Zpos p < 2 ^ d -> Zpos (digits2_pos p) <= d.
Proof.
  intros Hu. pose proof (digits2_pos_spec p) as [Hl _].
  destruct (Z.leb_spec (Zpos (digits2_pos p)) d); [assumption|].
  assert (0 <= d).
  { destruct (Z.leb_spec 0 d); [assumption|].
    rewrite Z.pow_neg_r in Hu by lia. lia. }
  assert (2 ^ d <= 2 ^ (Zpos (digits2_pos p) - 1))
    by (apply Z.pow_le_mono_r; lia). lia.
Qed.

Lemma digits2_pos_shift (m d : positive) :
  digits2_pos (Pos.iter xO m d) = (digits2_pos m + d)%positive.
Proof.
  induction d as [|d IH] using Pos.peano_ind.
  - simpl. now rewrite Pos.add_1_r.
  - rewrite Pos.iter_succ. simpl. rewrite IH. lia.
Qed.

Lemma Zpos_shift (m d : positive) :
  Zpos (Pos.iter xO m d) = Zpos m * 2 ^ Zpos d.
Proof.
  induction d as [|d IH] using Pos.peano_ind.
  - simpl. lia.
  - rewrite Pos.iter_succ, Pos2Z.inj_succ, Z.pow_succ_r by lia.
    rewrite Pos2Z.inj_xO, IH. lia.
Qed.

(** What [valid_binary] says of a finite binary64 value. *)
Lemma valid_finite (s : bool) (m : positive) (e : Z) :
  Double.valid (S754_finite s m e) = true ->
  e = Z.max (Zpos (digits2_pos m) + e - 53) emin /\ e <= 971.
Proof.
  unfold Double.valid, valid_binary, bounded, canonical_mantissa, fexp.
  unfold SpecFloat.emin, Double.prec, Double.emax, emin.
  intros H. apply andb_prop in H as [H1 H2].
  apply Z.eqb_eq in H1. apply Z.leb_le in H2. simpl in H2. lia.
Qed.

Lemma valid_finite_bounds (s : bool) (m : positive) (e : Z) :
  Double.valid (S754_finite s m e) = true ->
  Zpos m < 2 ^ 53 /\ emin <= e <= 971 /\ (emin < e -> 2 ^ 52 <= Zpos m).
Proof.
  intros H. apply valid_finite in H as [He Hle].
  pose proof (digits2_pos_spec m) as [Hl Hu].
  assert (Hd : Zpos (digits2_pos m) <= 53) by lia.
  repeat split; try lia.
  - apply Z.lt_le_trans with (1 := Hu). apply Z.pow_le_mono_r; lia.
  - intros Hn. assert (Zpos (digits2_pos m) = 53) as Hd' by lia.
    rewrite Hd' in Hl. exact Hl.
Qed.

End Binary64.

Section Rounding64.

Lemma binary_round_aux_canonical (s : bool) (m : positive) (e : Z) :
  fexp 53 1024 (Zpos (digits2_pos m) + e) = e -> e <= 971 ->
  binary_round_aux 53 1024 s (Zpos m) e loc_Exact = S754_finite s m e.
Proof.
  intros Hc He.
  unfold binary_round_aux, shr_fexp.
  cbn [Zdigits2 shr_record_of_loc].
  rewrite Hc, Z.sub_diag. cbn [shr shr_m loc_of_shr_record round_nearest_even].
  cbn [Zdigits2 shr_record_of_loc].
  rewrite Hc, Z.sub_diag. cbn [shr shr_m].
  replace (e <=? 1024 - 53) with true; [reflexivity|].
  symmetry. apply Z.leb_le. lia.
Qed.

Lemma shl_align_le (m : positive) (e e' : Z) :
  e' <= e ->
  snd (shl_align m e e') = e'
  /\ Zpos (fst (shl_align m e e')) = Zpos m * 2 ^ (e - e')
  /\ Zpos (digits2_pos (fst (shl_align m e e'))) + e'
     = Zpos (digits2_pos m) + e.
Proof.
  intros H. unfold shl_align.
  destruct (e' - e) as [|p|p] eqn:E; try lia.
  - assert (e' = e) by lia. subst. rewrite Z.sub_diag. simpl. lia.
  - cbn [fst snd]. rewrite Zpos_shift, digits2_pos_shift.
    replace (e - e') with (Zpos p) by lia.
    rewrite Pos2Z.inj_add. lia.
Qed.

(** Rounding a number that fits the format returns it unchanged. *)
Lemma binary_round_exact (s : bool) (d : positive) (e : Z) :
  let e' := fexp 53 1024 (Zpos (digits2_pos d) + e) in
  e' <= e -> e' <= 971 ->
  binary_round 53 1024 s d e = S754_finite s (fst (shl_align d e e')) e'.
Proof.
  intros e' Hle He. unfold binary_round. fold e'.
  destruct (shl_align_le d e e' Hle) as (H1 & H2 & H3).
  destruct (shl_align d e e') as [mz ez] eqn:E. cbn [fst snd] in *. subst ez.
  apply binary_round_aux_canonical; [|assumption].
  rewrite H3. reflexivity.
Qed.

End Rounding64.

Section Shifting.

Lemma iter_pos_eq {A : Type} (f : A -> A) (p : positive) (x : A) :
  iter_pos f p x = Pos.iter f x p.
Proof.
  revert x. induction p as [p IH|p IH|]; intros x; simpl.
  - rewrite !IH. now rewrite <- !Pos.iter_swap.
  - now rewrite !IH.
  - reflexivity.
Qed.

(** Shifting out zero digits loses nothing. *)
Lemma shr_trailing_zeros (m p : positive) :
  iter_pos shr_1 p (Build_shr_record (Zpos (Pos.iter xO m p)) false false)
  = Build_shr_record (Zpos m) false false.
Proof.
  rewrite iter_pos_eq. revert m.
  induction p as [|p IH] using Pos.peano_ind; intros m.
  - reflexivity.
  - rewrite Pos.iter_succ, Pos.iter_succ_r. now rewrite IH.
Qed.

Definition shr_nonneg_below (M : Z) (r : shr_record) : Prop :=
  0 <= shr_m r <= M.

Lemma shr_1_below (M : Z) (r : shr_record) :
  shr_nonneg_below M r -> shr_nonneg_below M (shr_1 r).
Proof.
  unfold shr_nonneg_below. destruct r as [m r s]. simpl.
  destruct m as [|[p|p|]|[p|p|]]; simpl; lia.
Qed.

Lemma shr_below (M : Z) (r : shr_record) (e n : Z) :
  shr_nonneg_below M r ->
  shr_nonneg_below M (fst (shr r e n))
  /\ snd (shr r e n) = Z.max e (e + n).
Proof.
  intros H. unfold shr. destruct n as [|p|p]; cbn [fst snd].
  - split; [assumption|lia].
  - split; [|lia]. rewrite iter_pos_eq.
    apply Pos.iter_invariant; [|assumption].
    intros x. apply shr_1_below.
  - split; [assumption|lia].
Qed.

Lemma shr_fexp_below (m e : Z) (l : location) :
  0 <= m ->
  shr_nonneg_below m (fst (shr_fexp 53 1024 m e l))
  /\ snd (shr_fexp 53 1024 m e l)
     = Z.max e (fexp 53 1024 (Zdigits2 m + e)).
Proof.
  intros Hm. unfold shr_fexp.
  destruct (shr_below m (shr_record_of_loc m l) e
              (fexp 53 1024 (Zdigits2 m + e) - e)) as [H1 H2].
  - unfold shr_nonneg_below. destruct l as [|[]]; simpl; lia.
  - split; [assumption|]. rewrite H2. lia.
Qed.

Lemma round_nearest_even_bounds (m : Z) (l : location) :
  m <= round_nearest_even m l <= m + 1.
Proof.
  unfold round_nearest_even. destruct l as [|[]]; try lia.
  destruct (Z.even m); lia.
Qed.

Lemma Zdigits2_le (m : Z) (d : Z) :
  0 <= m < 2 ^ d -> 0 <= Zdigits2 m <= d.
Proof.
  intros [H0 H1]. destruct m as [|p|p]; try lia; simpl.
  - split; [lia|]. destruct (Z.leb_spec 0 d); [assumption|].
    rewrite Z.pow_neg_r in H1 by lia. lia.
  - split; [lia|]. now apply digits2_pos_le.
Qed.

Definition finite_or_zero (x : double) : bool :=
  match x with
  | S754_zero _ | S754_finite _ _ _ => true
  | _ => false
  end.

(** A rounded number of moderate size is zero or finite, with the
    requested sign. *)
Lemma binary_round_aux_finite (s : bool) (m : positive) (e d : Z) (l : location) :
  Zpos m < 2 ^ d -> 0 <= d <= 200 -> e <= 200 ->
  match binary_round_aux 53 1024 s (Zpos m) e l with
  | S754_zero s' | S754_finite s' _ _ => s' = s
  | _ => False
  end.
Proof.
  intros Hm Hd He. unfold binary_round_aux.
  destruct (shr_fexp_below (Zpos m) e l) as [[Ha Hb] Hc]; [lia|].
  destruct (shr_fexp 53 1024 (Zpos m) e l) as [mrs' e']. cbn [fst snd] in *.
  pose proof (round_nearest_even_bounds (shr_m mrs') (loc_of_shr_record mrs'))
    as Hr.
  set (m1 := round_nearest_even (shr_m mrs') (loc_of_shr_record mrs')) in *.
  destruct (shr_fexp_below m1 e' loc_Exact) as [[Ha' Hb'] Hc']; [lia|].
  destruct (shr_fexp 53 1024 m1 e' loc_Exact) as [mrs'' e''].
  cbn [fst snd] in *.
  assert (H2 : 2 ^ d < 2 ^ (d + 1)) by (apply Z.pow_lt_mono_r; lia).
  assert (Hd1 : 0 <= Zdigits2 m1 <= d + 1) by (apply Zdigits2_le; lia).
  assert (Hd0 : 0 <= Zdigits2 (Zpos m) <= d) by (apply Zdigits2_le; lia).
  unfold fexp, SpecFloat.emin in Hc, Hc'.
  destruct (shr_m mrs'') as [|p|p]; try lia; [reflexivity|].
  replace (e'' <=? 1024 - 53) with true; [reflexivity|].
  symmetry. apply Z.leb_le.
  change IntDef.Z.max with Z.max in *. lia.
Qed.

End Shifting.

Section Conversions.

Lemma shl_align_gt (m : positive) (e e' : Z) :
  e <= e' -> shl_align m e e' = (m, e).
Proof.
  intros H. unfold shl_align. destruct (e' - e) eqn:E; try reflexivity. lia.
Qed.

Lemma binary_round_finite (s : bool) (m : positive) (e : Z) :
  Zpos m < 2 ^ 64 -> e <= 100 ->
  match binary_round 53 1024 s m e with
  | S754_zero s' | S754_finite s' _ _ => s' = s
  | _ => False
  end.
Proof.
  intros Hm He. unfold binary_round.
  set (e' := fexp 53 1024 (Zpos (digits2_pos m) + e)).
  destruct (Z.le_gt_cases e e') as [Hle|Hgt].
  - rewrite shl_align_gt by assumption.
    apply binary_round_aux_finite with (d := 64); lia.
  - destruct (shl_align_le m e e') as (H1 & H2 & H3); [lia|].
    destruct (shl_align m e e') as [mz ez]. cbn [fst snd] in *. subst ez.
    apply binary_round_aux_finite with (d := 53); try lia.
    pose proof (digits2_pos_spec mz) as [_ Hu].
    apply Z.lt_le_trans with (1 := Hu). apply Z.pow_le_mono_r; [lia|].
    unfold e', fexp in *. change IntDef.Z.max with Z.max in *. lia.
Qed.

(** The conversion of an [int64_t] is never an infinity or a NaN, and has
    the sign of its argument. *)
Lemma of_int_finite (z : Z) :
  Int64.in_range z = true ->
  match Double.of_int z with
  | S754_zero s | S754_finite s _ _ => s = (z <? 0)
  | _ => False
  end.
Proof.
  unfold Int64.in_range, Int64.min_signed, Int64.max_signed.
  intros H. apply andb_prop in H as [H1 H2].
  apply Z.leb_le in H1. apply Z.leb_le in H2.
  unfold Double.of_int, binary_normalize.
  destruct z as [|p|p].
  - reflexivity.
  - apply (binary_round_finite false p 0); lia.
  - apply (binary_round_finite true p 0); lia.
Qed.

(** The conversion of an integer of at most 53 bits is exact. *)
Lemma of_int_small (p : positive) :
  Zpos p < 2 ^ 53 ->
  let e := Zpos (digits2_pos p) - 53 in
  Double.of_int (Zpos p) = S754_finite false (fst (shl_align p 0 e)) e.
Proof.
  intros Hp e.
  pose proof (digits2_pos_le p 53 Hp) as Hd.
  assert (He : fexp 53 1024 (Zpos (digits2_pos p) + 0) = e).
  { unfold fexp, SpecFloat.emin, e. change IntDef.Z.max with Z.max. lia. }
  unfold Double.of_int, binary_normalize, Double.prec, Double.emax.
  rewrite <- He. apply binary_round_exact; rewrite He; unfold e; lia.
Qed.

End Conversions.

(** ** A zero tick rate (C2) *)

Lemma normalized_finite (t : time_spec_t) :
  normalized t = true -> finite_or_zero (get_frac_secs t) = true.
Proof.
  unfold normalized.
  change Double.one with (S754_finite false 4503599627370496 (-52)).
  unfold Double.leb, Double.ltb, SFleb, SFltb.
  destruct (get_frac_secs t) as [s|[]| |s m e]; cbn [SFcompare finite_or_zero];
    try reflexivity;
    intros H; apply andb_prop in H as [H1 H2]; discriminate.
Qed.

Lemma from_ticks_zero_rate (k : Z) :
  from_ticks k Double.zero = Undefined Division_by_zero.
Proof. reflexivity. Qed.

Lemma to_ticks_zero_rate (t : time_spec_t) :
  Int64.in_range (get_full_secs t) = true -> normalized t = true ->
  to_ticks t Double.zero = Value 0.
Proof.
  intros Hr Hn. apply normalized_finite in Hn.
  pose proof (of_int_finite _ Hr) as Hf.
  unfold to_ticks.
  change (Double.to_int Double.zero) with (Value 0). cbn [bind].
  change (Double.sub Double.zero (Double.of_int 0)) with (S754_zero false).
  unfold Int64.mul. rewrite Z.mul_0_r.
  change (Int64.checked 0) with (Value 0). cbn [bind].
  destruct (Double.of_int (get_full_secs t)) as [s1| | |s1 m1 e1];
    try contradiction;
    destruct (get_frac_secs t) as [s2| | |s2 m2 e2]; try discriminate;
    destruct s1, s2; reflexivity.
Qed.

(** C2, as the code has it. With a tick rate of zero [from_ticks] divides
    the tick count by the integer zero, which is undefined behaviour for
    every tick count: no value is defined and no error is raised; [to_ticks]
    returns 0 for every normalized time. *)
Theorem zero_tick_rate (k : Z) (t : time_spec_t) :
  Int64.in_range (get_full_secs t) = true -> normalized t = true ->
  from_ticks k Double.zero = Undefined Division_by_zero
  /\ to_ticks t Double.zero = Value 0.
Proof.
  intros Hr Hn. split.
  - apply from_ticks_zero_rate.
  - now apply to_ticks_zero_rate.
Qed.

(** The claim of C2 fails for [to_ticks]: at a rate of zero the time 0
    is turned into the tick count 0, a value and not an error. *)
Lemma to_ticks_zero_rate_returns :
  to_ticks time_spec_default Double.zero = Value 0
  /\ is_value (to_ticks time_spec_default Double.zero) = true.
Proof. split; reflexivity. Qed.

Lemma zero_tick_rate_witness :
  from_ticks 5 Double.zero = Undefined Division_by_zero
  /\ to_ticks (mk_time_spec (-7) Double.half) Double.zero = Value 0.
Proof.
  apply (zero_tick_rate 5 (mk_time_spec (-7) Double.half)); reflexivity.
Defined.

(** ** The divisor of [from_ticks] (C10) *)

Section Divisor.

Lemma checked_not_div0 (z : Z) : Int64.checked z <> Undefined Division_by_zero.
Proof. unfold Int64.checked. destruct (Int64.in_range z); discriminate. Qed.

Lemma to_int_not_div0 (x : double) :
  Double.to_int x <> Undefined Division_by_zero.
Proof.
  unfold Double.to_int. destruct (Double.truncate x) as [z|]; [|discriminate].
  destruct (Int64.in_range z); discriminate.
Qed.

Lemma set_from_not_div0 (s : Z) (f : double) :
  set_from s f <> Undefined Division_by_zero.
Proof.
  unfold set_from.
  pose proof (to_int_not_div0 f) as H1.
  destruct (Double.to_int f) as [i|w]; cbn [bind]; [|congruence].
  pose proof (checked_not_div0 (s + i)) as H2. unfold Int64.add.
  destruct (Int64.checked (s + i)) as [full|w]; cbn [bind]; [|congruence].
  destruct (Double.ltb _ _); [|discriminate].
  pose proof (checked_not_div0 (full - 1)) as H3. unfold Int64.sub.
  destruct (Int64.checked (full - 1)); cbn [bind]; [discriminate|congruence].
Qed.

Lemma quot_in_range (k i : Z) :
  Int64.in_range k = true -> 1 <= i -> Int64.in_range (Z.quot k i) = true.
Proof.
  unfold Int64.in_range, Int64.min_signed, Int64.max_signed.
  intros H Hi. apply andb_prop in H as [H1 H2].
  apply Z.leb_le in H1. apply Z.leb_le in H2.
  apply andb_true_intro. rewrite !Z.leb_le.
  destruct (Z.le_gt_cases 0 k) as [Hk|Hk].
  - pose proof (Z.quot_pos k i Hk ltac:(lia)).
    assert (Z.quot k i <= k) by (apply Z.quot_le_upper_bound; nia).
    lia.
  - assert (Hq : Z.quot k i = - Z.quot (- k) i)
      by (rewrite Z.quot_opp_l; lia).
    pose proof (Z.quot_pos (- k) i ltac:(lia) ltac:(lia)).
    assert (Z.quot (- k) i <= - k) by (apply Z.quot_le_upper_bound; nia).
    lia.
Qed.

Lemma truncate_finite_neg_exp (m : positive) (p : positive) :
  Double.truncate (S754_finite false m (Zneg p)) = Some (Zpos m / 2 ^ Zpos p).
Proof.
  unfold Double.truncate. rewrite Z.shiftr_div_pow2 by lia. reflexivity.
Qed.

Lemma truncate_finite_nonneg_exp (m : positive) (e : Z) :
  0 <= e ->
  Double.truncate (S754_finite false m e) = Some (Zpos m * 2 ^ e).
Proof.
  intros He. unfold Double.truncate. destruct e as [|p|p]; try lia.
  - now rewrite Z.mul_1_r.
  - now rewrite Z.shiftl_mul_pow2 by lia.
Qed.

(** A double strictly between 0 and 1 is cast to the integer 0. *)
Lemma to_int_below_one (r : double) :
  Double.valid r = true ->
  Double.ltb Double.zero r = true -> Double.ltb r Double.one = true ->
  Double.to_int r = Value 0.
Proof.
  intros Hv H0 H1.
  change Double.one with (S754_finite false 4503599627370496 (-52)) in H1.
  unfold Double.ltb, SFltb in *.
  destruct r as [s|s| |s m e]; cbn [SFcompare] in H0; try discriminate;
    try (destruct s; discriminate).
  destruct s; [discriminate|]. cbn [SFcompare] in H1.
  apply valid_finite_bounds in Hv as (Hm & He & Hn).
  rewrite compare_cont_Eq in H1.
  assert (Hlt : e < -52).
  { destruct (Z.compare_spec e (-52)) as [->|?|?]; try discriminate; [|lia].
    destruct (Z.compare_spec (Zpos m) 4503599627370496); try discriminate.
    assert (2 ^ 52 <= Zpos m) by (apply Hn; lia). lia. }
  destruct e as [|p|p]; try lia.
  unfold Double.to_int. rewrite truncate_finite_neg_exp.
  rewrite Z.div_small; [reflexivity|]. split; [lia|].
  apply Z.lt_le_trans with (1 := Hm). apply Z.pow_le_mono_r; lia.
Qed.

(** A double in [1, 2^63) is cast to an integer that is at least 1. *)
Lemma to_int_at_least_one (r : double) :
  Double.valid r = true ->
  Double.leb Double.one r = true ->
  Double.ltb r (Double.of_int (2 ^ 63)) = true ->
  exists i, Double.to_int r = Value i /\ 1 <= i.
Proof.
  intros Hv H1 H2.
  change Double.one with (S754_finite false 4503599627370496 (-52)) in H1.
  change (Double.of_int (2 ^ 63))
    with (S754_finite false 4503599627370496 11) in H2.
  unfold Double.ltb, Double.leb, SFltb, SFleb in *.
  destruct r as [s|s| |s m e]; cbn [SFcompare] in H1, H2; try discriminate;
    try (destruct s; discriminate).
  destruct s; [discriminate|].
  rewrite compare_cont_Eq in H1.
  apply valid_finite_bounds in Hv as (Hm & He & Hn).
  rewrite compare_cont_Eq in H2.
  assert (Hlo : -52 <= e).
  { destruct (Z.compare_spec (-52) e); try discriminate; lia. }
  assert (Hhi : e <= 10).
  { destruct (Z.compare_spec e 11) as [->|?|?]; try discriminate; [|lia].
    destruct (Z.compare_spec (Zpos m) 4503599627370496); try discriminate.
    assert (2 ^ 52 <= Zpos m) by (apply Hn; lia). lia. }
  assert (Hm' : 2 ^ 52 <= Zpos m) by (apply Hn; lia).
  unfold Double.to_int, Int64.in_range, Int64.min_signed, Int64.max_signed.
  destruct e as [|p|p].
  - rewrite truncate_finite_nonneg_exp by lia.
    exists (Zpos m * 2 ^ 0). split; [|lia].
    replace ((- 2 ^ 63 <=? Zpos m * 2 ^ 0) && (Zpos m * 2 ^ 0 <=? 2 ^ 63 - 1))
      with true; [reflexivity|].
    symmetry. apply andb_true_intro. rewrite !Z.leb_le. lia.
  - rewrite truncate_finite_nonneg_exp by lia.
    assert (1 <= 2 ^ Zpos p <= 2 ^ 10).
    { split; [apply Z.pow_le_mono_r with (b := 0); lia
             |apply Z.pow_le_mono_r; lia]. }
    exists (Zpos m * 2 ^ Zpos p). split; [|nia].
    replace ((- 2 ^ 63 <=? Zpos m * 2 ^ Zpos p)
             && (Zpos m * 2 ^ Zpos p <=? 2 ^ 63 - 1))
      with true; [reflexivity|].
    symmetry. apply andb_true_intro. rewrite !Z.leb_le. nia.
  - rewrite truncate_finite_neg_exp.
    assert (1 <= 2 ^ Zpos p <= 2 ^ 52).
    { split; [apply Z.pow_le_mono_r with (b := 0); lia
             |apply Z.pow_le_mono_r; lia]. }
    assert (1 <= Zpos m / 2 ^ Zpos p).
    { apply Z.div_le_lower_bound; lia. }
    assert (Zpos m / 2 ^ Zpos p <= Zpos m).
    { apply Z.div_le_upper_bound; nia. }
    exists (Zpos m / 2 ^ Zpos p). split; [|lia].
    replace ((- 2 ^ 63 <=? Zpos m / 2 ^ Zpos p)
             && (Zpos m / 2 ^ Zpos p <=? 2 ^ 63 - 1))
      with true; [reflexivity|].
    symmetry. apply andb_true_intro. rewrite !Z.leb_le. lia.
Qed.

End Divisor.

Lemma div_by_positive (k i : Z) :
  Int64.in_range k = true -> 1 <= i -> Int64.div k i = Value (Z.quot k i).
Proof.
  intros Hk Hi. unfold Int64.div, Int64.checked.
  destruct (Z.eqb_spec i 0); [lia|].
  now rewrite quot_in_range.
Qed.

Lemma from_ticks_not_div0 (k i : Z) (r : double) :
  Int64.in_range k = true -> Double.to_int r = Value i -> 1 <= i ->
  from_ticks k r <> Undefined Division_by_zero.
Proof.
  intros Hk Hr Hi. unfold from_ticks. rewrite Hr. cbn [bind].
  rewrite div_by_positive by assumption. cbn [bind].
  unfold Int64.mul, Int64.sub.
  pose proof (checked_not_div0 (Z.quot k i * i)) as H1.
  destruct (Int64.checked (Z.quot k i * i)) as [prod|w]; cbn [bind];
    [|congruence].
  pose proof (checked_not_div0 (k - prod)) as H2.
  destruct (Int64.checked (k - prod)) as [ticks_error|w]; cbn [bind];
    [|congruence].
  apply set_from_not_div0.
Qed.

(** C10, as the code has it. When the tick rate is cast to an integer of
    at least 1, which is the case of every rate in [1, 2^63), the division
    [ticks / rate_i] of [from_ticks] has a nonzero divisor and yields the
    truncated quotient, for every [int64_t] tick count.  A positive rate is
    not enough: every rate strictly between 0 and 1 is cast to 0 and the
    division is a division by zero. *)
Theorem from_ticks_divisor (k : Z) (r : double) :
  Int64.in_range k = true -> Double.valid r = true ->
  (forall i, Double.to_int r = Value i -> 1 <= i ->
     i <> 0
     /\ Int64.div k i = Value (Z.quot k i)
     /\ from_ticks k r <> Undefined Division_by_zero)
  /\ (Double.leb Double.one r = true ->
      Double.ltb r (Double.of_int (2 ^ 63)) = true ->
      exists i, Double.to_int r = Value i /\ 1 <= i)
  /\ (Double.ltb Double.zero r = true -> Double.ltb r Double.one = true ->
      Double.to_int r = Value 0
      /\ from_ticks k r = Undefined Division_by_zero).
Proof.
  intros Hk Hv. repeat split.
  - lia.
  - now apply div_by_positive.
  - now apply from_ticks_not_div0 with (i := i).
  - now apply to_int_at_least_one.
  - now apply to_int_below_one.
  - unfold from_ticks. rewrite to_int_below_one by assumption. reflexivity.
Qed.

(** C10 fails on the code as worded: a rate of at least 1 is not enough,
    for the rate 2^63, a double, is cast to no [int64_t] and [from_ticks]
    is undefined before it divides; so it is for the rate infinity. *)
Lemma from_ticks_rate_out_of_range :
  Double.valid (Double.of_int (2 ^ 63)) = true
  /\ Double.leb Double.one (Double.of_int (2 ^ 63)) = true
  /\ Int64.in_range 7 = true
  /\ from_ticks 7 (Double.of_int (2 ^ 63)) = Undefined Float_to_int_overflow
  /\ from_ticks 7 (S754_infinity false) = Undefined Float_to_int_overflow.
Proof. vm_compute. repeat split. Qed.

(** At the rate 0.5 the division of [from_ticks] is a division by zero. *)
Lemma from_ticks_divisor_witness :
  Double.to_int Double.half = Value 0
  /\ from_ticks 7 Double.half = Undefined Division_by_zero.
Proof.
  destruct (from_ticks_divisor 7 Double.half) as (_ & _ & H);
    [reflexivity|reflexivity|].
  apply H; reflexivity.
Defined.

(** ** Scenarios on concrete values *)

(** The double denoted by a decimal literal of value [n / d], for integers
    [n] and [d] that doubles represent exactly: the correctly rounded
    quotient, which is the double nearest to [n / d]. *)
Definition literal (n d : Z) : double :=
  Double.div (Double.of_int n) (Double.of_int d).

(** [from_ticks(k, r).to_ticks(r)] *)
Definition round_trip (k : Z) (r : double) : outcome Z :=
  t <- from_ticks k r ;; to_ticks t r.

(** The rates 200e6 and 61.44e6 / 27. *)
Definition rate_200e6 : double := Double.of_int 200000000.
Definition rate_61_44e6_27 : double :=
  Double.div (Double.of_int 61440000) (Double.of_int 27).

(** C7. [TimeSpec(0,0) + TimeSpec(0,0.9) + TimeSpec(0,0.9)] is the time
    with 1 whole second and the fractional seconds 0.8, the double that the
    literal 0.8 denotes. *)
Theorem carry_scenario :
  (a <- time_spec 0 (Double.of_int 0) ;;
   b <- time_spec 0 (literal 9 10) ;;
   ab <- op_add a b ;;
   op_add ab b)
  = Value (mk_time_spec 1 (literal 8 10)).
Proof. vm_compute. reflexivity. Qed.

(** ** Leaking an out-of-range fraction (C3, C4) *)

(** 1e-20 *)
Definition tiny : double := literal 1 (10 ^ 20).

(** C4 fails on the code: the difference of the normalized times 0 and
    1e-20 has the fractional seconds 1.0, outside [0, 1); so has the sum of
    the time 0 and the double -1e-20. *)
Theorem subtraction_leaks_one :
  normalized (mk_time_spec 0 Double.zero) = true
  /\ normalized (mk_time_spec 0 tiny) = true
  /\ op_sub (mk_time_spec 0 Double.zero) (mk_time_spec 0 tiny)
     = Value (mk_time_spec (-1) Double.one)
  /\ op_sub_assign (mk_time_spec 0 Double.zero) (mk_time_spec 0 tiny)
     = Value (mk_time_spec (-1) Double.one)
  /\ op_add_double (mk_time_spec 0 Double.zero) (SFopp tiny)
     = Value (mk_time_spec (-1) Double.one)
  /\ op_sub_double (mk_time_spec 0 Double.zero) tiny
     = Value (mk_time_spec (-1) Double.one)
  /\ normalized (mk_time_spec (-1) Double.one) = false.
Proof. vm_compute. repeat split. Qed.

(** C3 fails on the code: [TimeSpec(0, -1e-20)] has the fractional seconds
    1.0, and [TimeSpec(0, -0.3)] has fractional seconds that differ from
    [1 - 0.3] by 2^-54 ([0.3] being the double of that literal). *)
Lemma construction_not_normalized :
  time_spec 0 (SFopp tiny) = Value (mk_time_spec (-1) Double.one)
  /\ normalized (mk_time_spec (-1) Double.one) = false.
Proof. vm_compute. split; reflexivity. Qed.

(** ** Round trip through ticks (C1) *)

(** C1 fails on the code. At the rate 1.5, a double whose integer part is
    1, the tick count 2^62 comes back as 2^62 + 256, no [int64_t] operation
    having overflowed: the whole seconds 2^62 and the product 2^62 * 0.5 / 1.5
    have more digits than a double holds. At the rate 1.75 a tick count just
    above 2^52 already comes back one tick higher. At the rate 0.5, which is
    positive, [from_ticks] divides by the integer part 0 of the rate. *)
Lemma round_trip_inexact :
  Double.valid (literal 3 2) = true
  /\ Double.to_int (literal 3 2) = Value 1
  /\ Int64.in_range (2 ^ 62) = true
  /\ round_trip (2 ^ 62) (literal 3 2) = Value (2 ^ 62 + 256)
  /\ Double.to_int (literal 7 4) = Value 1
  /\ round_trip (2 ^ 52 + 222222187) (literal 7 4)
     = Value (2 ^ 52 + 222222188)
  /\ Double.ltb Double.zero (literal 1 2) = true
  /\ round_trip 1 (literal 1 2) = Undefined Division_by_zero.
Proof. vm_compute. repeat split. Qed.

(** A negative tick count at a rate that is not an integer: -5 ticks at
    2.5 ticks per second are exactly -2 s, and [to_ticks] passes the
    negative sum [-2 * 0.5 + 0 * 2.5] to [fast_llround], which assumes an
    argument that is not negative: -4 ticks are returned. *)
Lemma to_ticks_negative_time :
  from_ticks (-5) (literal 5 2) = Value (mk_time_spec (-2) Double.zero)
  /\ Double.add (Double.mul (Double.of_int (-2))
                   (Double.sub (literal 5 2) (Double.of_int 2)))
                (Double.mul Double.zero (literal 5 2))
     = Double.of_int (-1)
  /\ fast_llround (Double.of_int (-1)) = Value 0
  /\ to_ticks (mk_time_spec (-2) Double.zero) (literal 5 2) = Value (-4).
Proof. vm_compute. repeat split. Qed.

(** ** The exact value of a double *)

(** The rational number a finite double stands for (0 for the values that
    are not finite). *)
Definition to_Q (x : double) : Q :=
  match x with
  | S754_finite s m e =>
      let a := match e with
               | Zneg p => Qmake (Zpos m) (2 ^ p)
               | _ => inject_Z (Zpos m * 2 ^ e)
               end in
      if s then Qopp a else a
  | _ => inject_Z 0
  end.

Section Normalization.

Lemma sub_same (m : positive) (e : Z) :
  Double.sub (S754_finite false m e) (S754_finite false m e)
  = S754_zero false.
Proof.
  unfold Double.sub, SFsub. cbn [cond_Zopp]. now rewrite Z.sub_diag.
Qed.

Lemma binary_round_shifted (s : bool) (m p : positive) :
  fexp 53 1024 (Zpos (digits2_pos m) + Zpos p) = Zpos p -> Zpos p <= 971 ->
  binary_round 53 1024 s (Pos.iter xO m p) 0 = S754_finite s m (Zpos p).
Proof.
  intros Hc He. unfold binary_round.
  assert (Hd : Zpos (digits2_pos (Pos.iter xO m p)) + 0
               = Zpos (digits2_pos m) + Zpos p).
  { rewrite digits2_pos_shift, Pos2Z.inj_add. lia. }
  rewrite Hd, Hc. rewrite shl_align_gt by lia.
  unfold binary_round_aux, shr_fexp.
  cbn [Zdigits2 shr_record_of_loc]. rewrite Hd, Hc.
  replace (Zpos p - 0) with (Zpos p) by lia. cbn [shr].
  rewrite shr_trailing_zeros.
  cbn [shr_m loc_of_shr_record round_nearest_even Zdigits2 shr_record_of_loc].
  replace (0 + Zpos p) with (Zpos p) by lia.
  rewrite Hc, Z.sub_diag. cbn [shr shr_m].
  replace (Zpos p <=? 1024 - 53) with true; [reflexivity|].
  symmetry. apply Z.leb_le. lia.
Qed.

(** Converting the integer a double stands for gives the double back. *)
Lemma of_int_integral (m : positive) (e : Z) :
  Double.valid (S754_finite false m e) = true -> 0 <= e ->
  Double.of_int (Zpos m * 2 ^ e) = S754_finite false m e.
Proof.
  intros Hv He. pose proof (valid_finite _ _ _ Hv) as [Hc Hle].
  destruct e as [|p|p]; try lia.
  - rewrite Z.mul_1_r.
    pose proof (valid_finite_bounds _ _ _ Hv) as (Hm & _ & _).
    rewrite (of_int_small m Hm).
    replace (Zpos (digits2_pos m) - 53) with 0 by lia. reflexivity.
  - rewrite <- Zpos_shift. unfold Double.of_int, binary_normalize.
    apply binary_round_shifted; [|lia].
    unfold fexp, SpecFloat.emin. change IntDef.Z.max with Z.max. lia.
Qed.

Lemma canonical_valid (s : bool) (m : positive) (e : Z) :
  fexp 53 1024 (Zpos (digits2_pos m) + e) = e -> e <= 971 ->
  Double.valid (S754_finite s m e) = true.
Proof.
  intros Hc He.
  unfold Double.valid, valid_binary, bounded, canonical_mantissa.
  unfold Double.prec, Double.emax. rewrite Hc, Z.eqb_refl.
  apply Z.leb_le. lia.
Qed.

Lemma ltb_one_small_exp (m : positive) (e : Z) :
  e < -52 -> Double.ltb (S754_finite false m e) Double.one = true.
Proof.
  intros He.
  change Double.one with (S754_finite false 4503599627370496 (-52)).
  unfold Double.ltb, SFltb. cbn [SFcompare].
  destruct (Z.compare_spec e (-52)); [lia|reflexivity|lia].
Qed.

Lemma sub_aligned (m m' : positive) (e : Z) :
  Double.sub (S754_finite false m e) (S754_finite false m' e)
  = binary_normalize 53 1024 (Zpos m - Zpos m') e false.
Proof.
  unfold Double.sub, SFsub. rewrite Z.min_id.
  rewrite !shl_align_gt by lia. reflexivity.
Qed.

(** Rounding a positive number below 1 whose digits fit the format. *)
Lemma binary_round_below_one (d : positive) (e : Z) :
  Zpos (digits2_pos d) + e <= 0 -> Zpos (digits2_pos d) <= 53 ->
  -1074 <= e ->
  exists md e',
    binary_round 53 1024 false d e = S754_finite false md e'
    /\ e' <= e /\ e' <= -53
    /\ Zpos md = Zpos d * 2 ^ (e - e')
    /\ Double.valid (S754_finite false md e') = true.
Proof.
  intros Hd H53 He.
  set (e' := fexp 53 1024 (Zpos (digits2_pos d) + e)).
  assert (He' : e' = Z.max (Zpos (digits2_pos d) + e - 53) (-1074)).
  { unfold e', fexp, SpecFloat.emin. now change IntDef.Z.max with Z.max. }
  assert (Hle : e' <= e) by lia.
  destruct (shl_align_le d e e' Hle) as (H1 & H2 & H3).
  exists (fst (shl_align d e e')), e'.
  split; [apply binary_round_exact; fold e'; lia|].
  split; [lia|]. split; [lia|]. split; [exact H2|].
  apply canonical_valid; [|lia]. rewrite H3. reflexivity.
Qed.

Lemma pow2_pos (p : positive) : Zpos (2 ^ p) = 2 ^ Zpos p.
Proof. now rewrite Pos2Z.inj_pow. Qed.

Lemma to_Q_scaled (md d : positive) (e' : Z) (p : positive) :
  e' <= Zneg p -> Zpos md = Zpos d * 2 ^ (Zneg p - e') ->
  (to_Q (S754_finite false md e') == Qmake (Zpos d) (2 ^ p))%Q.
Proof.
  intros Hle Hmd. destruct e' as [|q|q]; try lia.
  cbn [to_Q]. unfold Qeq. cbn [Qnum Qden].
  rewrite !pow2_pos, Hmd.
  replace (Zneg p - Zneg q) with (Zpos q - Zpos p) by lia.
  replace (2 ^ Zpos q) with (2 ^ (Zpos q - Zpos p) * 2 ^ Zpos p).
  - ring.
  - rewrite <- Z.pow_add_r by lia. f_equal. lia.
Qed.

(** [fr] is the fractional part of [f], whose integer part is [z]. *)
Definition fraction_of (f fr : double) (z : Z) : Prop :=
  Double.ltb fr Double.zero = false
  /\ Double.leb Double.zero fr = true
  /\ Double.ltb fr Double.one = true
  /\ Double.valid fr = true
  /\ (inject_Z z + to_Q fr == to_Q f)%Q.

(** Subtracting from a non-negative double its integer part is exact. *)
Lemma fractional_part_exact (m : positive) (e z : Z) :
  Double.valid (S754_finite false m e) = true ->
  Double.truncate (S754_finite false m e) = Some z ->
  fraction_of (S754_finite false m e)
              (Double.sub (S754_finite false m e) (Double.of_int z)) z.
Proof.
  intros Hv Hz.
  pose proof (valid_finite_bounds _ _ _ Hv) as (Hm & He & Hn).
  destruct (Z.le_gt_cases 0 e) as [He0|He0].
  - (* an integer *)
    rewrite truncate_finite_nonneg_exp in Hz by assumption.
    assert (Hz' : Zpos m * 2 ^ e = z) by congruence. clear Hz. subst z.
    rewrite of_int_integral by assumption.
    rewrite sub_same. unfold fraction_of.
    repeat split; try (vm_compute; reflexivity).
    destruct e as [|p|p]; try lia; cbn [to_Q]; ring.
  - destruct e as [|p|p]; try lia.
    rewrite truncate_finite_neg_exp in Hz.
    assert (Hz' : Zpos m / 2 ^ Zpos p = z) by congruence. clear Hz. subst z.
    set (P := 2 ^ Zpos p).
    assert (HP : 0 < P) by (apply Z.pow_pos_nonneg; lia).
    pose proof (Z.div_mod (Zpos m) P ltac:(lia)) as Hdm.
    pose proof (Z.mod_pos_bound (Zpos m) P HP) as Hmod.
    pose proof (Z.div_pos (Zpos m) P ltac:(lia) HP) as Hq.
    destruct (Zpos m / P) as [|zp|zp] eqn:Ez; try lia.
    + (* below 1 *)
      change (Double.of_int 0) with (S754_zero false).
      unfold fraction_of.
      assert (Hp : Zneg p < -52).
      { destruct (Z.lt_ge_cases (Zneg p) (-52)); [assumption|].
        assert (2 ^ 52 <= Zpos m) by (apply Hn; lia).
        assert (P <= 2 ^ 52) by (apply Z.pow_le_mono_r; lia). lia. }
      repeat split; try reflexivity.
      * now apply ltb_one_small_exp.
      * exact Hv.
      * cbn [Double.sub SFsub]. ring.
    + (* at least 1 *)
      assert (Hp : Zpos p <= 52).
      { destruct (Z.le_gt_cases (Zpos p) 52); [assumption|].
        assert (2 ^ 53 <= P) by (apply Z.pow_le_mono_r; lia). nia. }
      assert (Hm52 : 2 ^ 52 <= Zpos m) by (apply Hn; lia).
      assert (H52 : 2 ^ 52 = 2 ^ (52 - Zpos p) * P).
      { unfold P. rewrite <- Z.pow_add_r by lia. f_equal. lia. }
      assert (H53 : 2 ^ 53 = 2 ^ (53 - Zpos p) * P).
      { unfold P. rewrite <- Z.pow_add_r by lia. f_equal. lia. }
      assert (Hdz : Zpos (digits2_pos zp) = 53 - Zpos p).
      { apply digits2_pos_unique.
        replace (53 - Zpos p - 1) with (52 - Zpos p) by lia.
        assert (0 < 2 ^ (52 - Zpos p)) by (apply Z.pow_pos_nonneg; lia).
        assert (0 < 2 ^ (53 - Zpos p)) by (apply Z.pow_pos_nonneg; lia).
        split; nia. }
      assert (Hz53 : Zpos zp < 2 ^ 53) by nia.
      rewrite (of_int_small zp Hz53). rewrite Hdz.
      replace (53 - Zpos p - 53) with (Zneg p) by lia.
      destruct (shl_align_le zp 0 (Zneg p) ltac:(lia)) as (_ & Hmz & _).
      set (mz := fst (shl_align zp 0 (Zneg p))) in *.
      replace (0 - Zneg p) with (Zpos p) in Hmz by lia. fold P in Hmz.
      rewrite sub_aligned.
      assert (HD : Zpos m - Zpos mz = Zpos m mod P) by lia.
      rewrite HD.
      destruct (Zpos m mod P) as [|d|d] eqn:Ed; try lia.
      * (* no fractional digits *)
        cbn [binary_normalize]. unfold fraction_of.
        repeat split; try (vm_compute; reflexivity).
        cbn [to_Q]. unfold Qeq, Qplus, inject_Z. cbn [Qnum Qden].
        rewrite ?Pos.mul_1_l, ?Pos.mul_1_r, ?pow2_pos. fold P. lia.
      * cbn [binary_normalize].
        assert (Hdd : Zpos (digits2_pos d) <= Zpos p)
          by (apply digits2_pos_le; fold P; lia).
        destruct (binary_round_below_one d (Zneg p))
          as (md & e' & Hr & Hle & H53' & Hmd & Hvalid); try lia.
        rewrite Hr. unfold fraction_of.
        repeat split; try reflexivity.
        -- apply ltb_one_small_exp. lia.
        -- exact Hvalid.
        -- rewrite (to_Q_scaled md d e' p Hle Hmd).
           cbn [to_Q]. unfold Qeq, Qplus, inject_Z. cbn [Qnum Qden].
           rewrite ?Pos.mul_1_l, ?Pos.mul_1_r, ?Pos2Z.inj_mul, ?pow2_pos.
           fold P. nia.
Qed.

End Normalization.

(** ** Fractional seconds that are not negative *)

Lemma set_from_nonneg (s0 : Z) (f : double) (z : Z) :
  Double.valid f = true -> Double.leb Double.zero f = true ->
  Double.to_int f = Value z -> Int64.in_range (s0 + z) = true ->
  set_from s0 f
  = Value (mk_time_spec (s0 + z) (Double.sub f (Double.of_int z)))
  /\ fraction_of f (Double.sub f (Double.of_int z)) z.
Proof.
  intros Hv Hpos Hz Hr.
  assert (Hfr : fraction_of f (Double.sub f (Double.of_int z)) z).
  { destruct f as [s|s| |s m e].
    - assert (z = 0) by (cbn in Hz; congruence). subst z.
      unfold fraction_of. destruct s; repeat split; vm_compute; congruence.
    - discriminate.
    - discriminate.
    - destruct s; [discriminate|].
      apply fractional_part_exact; [assumption|].
      unfold Double.to_int in Hz.
      destruct (Double.truncate (S754_finite false m e)) as [z'|];
        [|discriminate].
      destruct (Int64.in_range z'); congruence. }
  split; [|assumption].
  unfold set_from. rewrite Hz. cbn [bind].
  unfold Int64.add, Int64.checked. rewrite Hr. cbn [bind].
  destruct Hfr as (Hlt & _). now rewrite Hlt.
Qed.

(** ** Rounding to ticks (C5) *)

(** Rounding half up, as the specification words it: the largest integer
    not above [q + 1/2]. *)
Definition round_half_up (q : Q) : Z := Qfloor (q + (1 # 2)).

Section TickCount.

(** Casting a positive double to an integer takes the floor of its
    value. *)
Lemma truncate_floor (m : positive) (e : Z) :
  Double.truncate (S754_finite false m e)
  = Some (Qfloor (to_Q (S754_finite false m e))).
Proof.
  destruct e as [|p|p].
  - rewrite truncate_finite_nonneg_exp by lia. cbn [to_Q].
    now rewrite Qfloor_Z.
  - rewrite truncate_finite_nonneg_exp by lia. cbn [to_Q].
    now rewrite Qfloor_Z.
  - rewrite truncate_finite_neg_exp. cbn [to_Q Qfloor].
    now rewrite pow2_pos.
Qed.

Definition nonneg_value (x : double) : bool :=
  match x with
  | S754_finite true _ _ => false
  | _ => true
  end.

Lemma binary_round_aux_sign (s : bool) (m : positive) (e : Z) (l : location) :
  match binary_round_aux 53 1024 s (Zpos m) e l with
  | S754_finite s' _ _ => s' = s
  | _ => True
  end.
Proof.
  unfold binary_round_aux.
  destruct (shr_fexp 53 1024 (Zpos m) e l) as [mrs' e'].
  destruct (shr_fexp 53 1024 _ e' loc_Exact) as [mrs'' e''].
  destruct (shr_m mrs''); trivial.
  destruct (e'' <=? 1024 - 53); trivial.
Qed.

Lemma mul_nonneg (a b : double) :
  nonneg_value a = true -> nonneg_value b = true ->
  nonneg_value (Double.mul a b) = true.
Proof.
  intros Ha Hb.
  destruct a as [sa|sa| |[] ma ea]; try discriminate;
    destruct b as [sb|sb| |[] mb eb]; try discriminate; try reflexivity.
  unfold Double.mul, SFmul, Double.prec, Double.emax. cbn [xorb].
  pose proof (binary_round_aux_sign false (ma * mb) (ea + eb) loc_Exact) as H.
  destruct (binary_round_aux 53 1024 false _ _ _) as [| | |s' m' e'];
    try reflexivity. now subst.
Qed.

Lemma leb_zero_nonneg (x : double) :
  Double.leb Double.zero x = true -> nonneg_value x = true.
Proof. destruct x as [s|s| |[] m e]; try reflexivity; discriminate. Qed.

Lemma to_Q_nonneg (x : double) : nonneg_value x = true -> (0 <= to_Q x)%Q.
Proof.
  destruct x as [s|s| |s m e]; try (intros _; apply Qle_refl).
  destruct s; [discriminate|]. intros _. cbn [to_Q].
  destruct e as [|p|p]; unfold Qle; cbn [Qnum Qden inject_Z]; lia.
Qed.

Lemma to_Q_positive (y : double) :
  (0 < to_Q y)%Q -> exists m e, y = S754_finite false m e.
Proof.
  destruct y as [s|s| |s m e]; try (intros H; now apply Qlt_irrefl in H).
  destruct s; [|eauto]. intros H. exfalso. cbn [to_Q] in H.
  destruct e as [|p|p]; unfold Qlt in H; cbn [Qnum Qden inject_Z Qopp] in H;
    lia.
Qed.

End TickCount.

(** With a negative tick rate the product is negative: 0.25 s at -5 ticks
    per second is -1.25 ticks, which rounds half up to -1, and 0 is
    returned. *)
Lemma get_tick_count_negative_rate :
  normalized (mk_time_spec 0 (literal 1 4)) = true
  /\ get_tick_count (mk_time_spec 0 (literal 1 4)) (Double.of_int (-5))
     = Value 0
  /\ round_half_up (to_Q (literal 1 4) * to_Q (Double.of_int (-5))) = -1.
Proof. vm_compute. repeat split. Qed.

(** The largest double below 0.5. *)
Definition pred_half : double := S754_finite false 9007199254740991 (-54).

(** At a tick rate of 1 the fractional seconds just below 0.5 give the tick
    count 1: the sum with 0.5 is rounded to 1.0 before the cast. *)
Lemma get_tick_count_below_half :
  normalized (mk_time_spec 0 pred_half) = true
  /\ get_tick_count (mk_time_spec 0 pred_half) Double.one = Value 1
  /\ round_half_up (to_Q pred_half * to_Q Double.one) = 0.
Proof. vm_compute. repeat split. Qed.

Local Open Scope string_scope.
Local Open Scope Z_scope.

(** ** Output streams

    What [std::ostream] inserts for an [int64_t] and for a [double] in the
    classic locale. The flags of [operator<<] below ([showpoint], the
    default float field and a precision [P]) select the conversion
    [%#.Pg] of [printf]: [P] significant digits, rounded to nearest (ties
    to even) from the exact value; fixed notation when the decimal exponent
    [X] satisfies [-4 <= X < P] and scientific notation otherwise; trailing
    zeros and the decimal point are kept. *)
Module Iostream.

(** Decimal digits of a positive number. *)
Definition digits (p : positive) : string :=
  NilEmpty.string_of_uint (Pos.to_uint p).

Definition show_int (z : Z) : string :=
  match z with
  | Z0 => "0"
  | Zpos p => digits p
  | Zneg p => "-" ++ digits p
  end.

Fixpoint zeros (n : nat) : string :=
  match n with O => "" | S n' => "0" ++ zeros n' end.

Definition num_den (m : positive) (e : Z) : Z * Z :=
  match e with
  | Zneg p => (Zpos m, 2 ^ Zpos p)
  | _ => (Zpos m * 2 ^ e, 1)
  end.

Definition ge_pow10 (n d X : Z) : bool :=
  if 0 <=? X then d * 10 ^ X <=? n else d <=? n * 10 ^ (- X).

Definition decimal_exponent (n d : Z) : Z :=
  let g := Z.of_nat (String.length (show_int n))
           - Z.of_nat (String.length (show_int d)) in
  if ge_pow10 n d g then g else g - 1.

Definition round_half_even (n d : Z) : Z :=
  let q := n / d in
  let r := n mod d in
  match 2 * r ?= d with
  | Lt => q
  | Gt => q + 1
  | Eq => if Z.even q then q else q + 1
  end.

Definition significand (P : Z) (n d X : Z) : Z * Z :=
  let k := P - 1 - X in
  let s := if 0 <=? k then round_half_even (n * 10 ^ k) d
           else round_half_even n (d * 10 ^ (- k)) in
  if s =? 10 ^ P then (10 ^ (P - 1), X + 1) else (s, X).

Definition show_exponent (X : Z) : string :=
  let a := show_int (Z.abs X) in
  (if X <? 0 then "-" else "+") ++ (if Z.abs X <? 10 then "0" ++ a else a).

Definition show_general (P : Z) (x : double) : string :=
  match x with
  | S754_nan => "nan"
  | S754_infinity s => if s then "-inf" else "inf"
  | S754_zero s => (if s then "-" else "") ++ "0." ++ zeros (Z.to_nat (P - 1))
  | S754_finite s m e =>
      let '(n, d) := num_den m e in
      let '(sg, X) := significand P n d (decimal_exponent n d) in
      let ds := show_int sg in
      (if s then "-" else "") ++
      (if (X <? -4) || (P <=? X) then
         substring 0 1 ds ++ "." ++ substring 1 (Z.to_nat (P - 1)) ds
         ++ "e" ++ show_exponent X
       else if X <? 0 then
         "0." ++ zeros (Z.to_nat (- X - 1)) ++ ds
       else
         substring 0 (Z.to_nat (X + 1)) ds ++ "."
         ++ substring (Z.to_nat (X + 1)) (Z.to_nat (P - 1 - X)) ds)
  end.

(** [s.substr(n)], for [n] within the string. *)
Definition substr_from (n : nat) (s : string) : string :=
  substring n (String.length s - n)%nat s.

End Iostream.

(** [friend std::ostream& operator<<(std::ostream& os, const time_spec_t& t)]:
    the characters inserted into [os];
    [std::numeric_limits<double>::digits10 + 1] is 16. *)
Definition to_stream (t : time_spec_t) : string :=
  let ss_frac := Iostream.show_general 16 (get_frac_secs t) in
  Iostream.show_int (get_full_secs t) ++ Iostream.substr_from 1 ss_frac.

(** ** Rendering as a string (C8) *)

(** The two renderings the specification gives as examples. *)
Lemma stream_examples :
  (t <- time_spec 5 (literal 1 4) ;; Value (to_stream t))
  = Value "5.2500000000000000"
  /\ (t <- time_spec (-1) (literal 1 2) ;; Value (to_stream t))
     = Value "-1.5000000000000000".
Proof. vm_compute. split; reflexivity. Qed.

(** C8 fails on the code: the normalized time of 0 whole seconds and
    0.00001 fractional seconds is rendered with an exponent; the character
    dropped in front of the decimal point is the digit 1 of
    [1.000000000000000e-05]. *)
Theorem stream_small_fraction :
  time_spec 0 (literal 1 100000) = Value (mk_time_spec 0 (literal 1 100000))
  /\ normalized (mk_time_spec 0 (literal 1 100000)) = true
  /\ Iostream.show_general 16 (literal 1 100000) = "1.000000000000000e-05"
  /\ to_stream (mk_time_spec 0 (literal 1 100000)) = "0.000000000000000e-05".
Proof. vm_compute. repeat split. Qed.

(** * Further properties of [time_spec_t] *)

(** ** Times that are already normalized *)

Section NormalizedTimes.

Lemma sub_zero_r (x : double) :
  finite_or_zero x = true -> Double.sub x Double.zero = x.
Proof. destruct x as [[]|s| |s m e]; try discriminate; reflexivity. Qed.

Lemma normalized_cases (t : time_spec_t) :
  normalized t = true ->
  (exists s, get_frac_secs t = S754_zero s)
  \/ (exists m e, get_frac_secs t = S754_finite false m e).
Proof.
  intros H. pose proof (normalized_finite t H) as Hf.
  unfold normalized, Double.leb, SFleb in H. apply andb_prop in H as [H _].
  destruct (get_frac_secs t) as [s|s| |[] m e]; try discriminate; eauto.
Qed.

Lemma normalized_not_negative (t : time_spec_t) :
  normalized t = true -> Double.ltb (get_frac_secs t) Double.zero = false.
Proof.
  intros H. destruct (normalized_cases t H) as [[s ->]|(m & e & ->)];
    reflexivity.
Qed.

(** The fractional seconds of a normalized time have no integer part. *)
Lemma to_int_normalized (t : time_spec_t) :
  well_formed t = true -> normalized t = true ->
  Double.to_int (get_frac_secs t) = Value 0.
Proof.
  unfold well_formed. intros Hw Hn. apply andb_prop in Hw as [_ Hv].
  destruct (normalized_cases t Hn) as [[s E]|(m & e & E)].
  - now rewrite E.
  - apply to_int_below_one; [assumption| |].
    + now rewrite E.
    + unfold normalized in Hn. now apply andb_prop in Hn as [_ Hn].
Qed.

Lemma set_from_normalized (full : Z) (frac : double) :
  well_formed (mk_time_spec full frac) = true ->
  normalized (mk_time_spec full frac) = true ->
  set_from full frac = Value (mk_time_spec full frac).
Proof.
  intros Hw Hn. unfold set_from.
  pose proof (to_int_normalized _ Hw Hn) as Hz.
  pose proof (normalized_finite _ Hn) as Hf.
  pose proof (normalized_not_negative _ Hn) as Hlt.
  cbn [get_frac_secs _frac_secs] in Hz, Hf, Hlt.
  rewrite Hz. cbn [bind].
  unfold Int64.add, Int64.checked. rewrite Z.add_0_r.
  unfold well_formed in Hw. apply andb_prop in Hw as [Hr _].
  cbn [get_full_secs _full_secs] in Hr. rewrite Hr. cbn [bind].
  change (Double.of_int 0) with Double.zero.
  rewrite sub_zero_r by assumption.
  now rewrite Hlt.
Qed.

End NormalizedTimes.

(** Constructing a time from the whole and fractional seconds of a
    normalized time gives that time back: normalizing twice changes
    nothing. *)
Theorem construct_from_accessors (t : time_spec_t) :
  well_formed t = true -> normalized t = true ->
  time_spec (get_full_secs t) (get_frac_secs t) = Value t.
Proof.
  destruct t as [full frac]. intros Hw Hn. now apply set_from_normalized.
Qed.

Lemma construct_from_accessors_witness :
  time_spec 6 (literal 3 4) = Value (mk_time_spec 6 (literal 3 4)).
Proof.
  apply (construct_from_accessors (mk_time_spec 6 (literal 3 4)));
    vm_compute; reflexivity.
Defined.

(** The time 0 is the identity of [+] and the right identity of [-]: adding
    it or subtracting it leaves a normalized time unchanged.  The only
    exception is a fractional part of -0.0, which the addition turns into
    +0.0; the result still compares equal. *)
Theorem zero_is_identity (t : time_spec_t) :
  well_formed t = true -> normalized t = true ->
  op_sub t time_spec_default = Value t
  /\ (exists t', op_add t time_spec_default = Value t'
                 /\ op_add time_spec_default t = Value t'
                 /\ op_eq t' t = true
                 /\ (get_frac_secs t <> S754_zero true -> t' = t)).
Proof.
  intros Hw Hn. destruct t as [full frac].
  pose proof (normalized_finite _ Hn) as Hf.
  cbn [get_frac_secs _frac_secs] in Hf.
  assert (Hr : Int64.in_range full = true).
  { unfold well_formed in Hw. now apply andb_prop in Hw as [Hr _]. }
  split.
  - unfold op_sub, time_spec_default, time_spec, Int64.sub, Int64.checked.
    cbn [get_full_secs get_frac_secs _full_secs _frac_secs].
    rewrite Z.sub_0_r, Hr. cbn [bind].
    rewrite sub_zero_r by assumption. now apply set_from_normalized.
  - unfold op_add, time_spec_default, time_spec, Int64.add, Int64.checked.
    cbn [get_full_secs get_frac_secs _full_secs _frac_secs].
    rewrite Z.add_0_r, Z.add_0_l, Hr. cbn [bind].
    destruct (normalized_cases _ Hn) as [[s E]|(m & e & E)];
      cbn [get_frac_secs _frac_secs] in E; subst frac.
    + exists (mk_time_spec full Double.zero).
      assert (Hs : set_from full Double.zero
                   = Value (mk_time_spec full Double.zero)).
      { apply set_from_normalized; [|reflexivity].
        unfold well_formed. cbn [get_full_secs _full_secs]. now rewrite Hr. }
      repeat split.
      * destruct s; exact Hs.
      * destruct s; exact Hs.
      * unfold op_eq. cbn [get_full_secs get_frac_secs _full_secs _frac_secs].
        rewrite Z.eqb_refl. now destruct s.
      * destruct s; [congruence|reflexivity].
    + exists (mk_time_spec full (S754_finite false m e)).
      assert (Hs : set_from full (S754_finite false m e)
                   = Value (mk_time_spec full (S754_finite false m e)))
        by now apply set_from_normalized.
      repeat split; try exact Hs.
      unfold op_eq. cbn [get_full_secs get_frac_secs _full_secs _frac_secs].
      rewrite Z.eqb_refl. unfold Double.eqb, SFeqb. cbn [SFcompare].
      rewrite Z.compare_refl, compare_cont_Eq, Z.compare_refl. reflexivity.
Qed.

Lemma zero_is_identity_witness :
  op_sub (mk_time_spec 6 (literal 3 4)) time_spec_default
  = Value (mk_time_spec 6 (literal 3 4)).
Proof.
  apply (zero_is_identity (mk_time_spec 6 (literal 3 4)));
    vm_compute; reflexivity.
Defined.

(** A normalized time minus itself is the time 0, with fractional seconds
    +0.0. *)
Theorem self_difference_is_zero (t : time_spec_t) :
  well_formed t = true -> normalized t = true ->
  op_sub t t = Value time_spec_default.
Proof.
  intros Hw Hn. unfold op_sub, Int64.sub. rewrite Z.sub_diag.
  change (Int64.checked 0) with (Value 0). cbn [bind].
  destruct (normalized_cases _ Hn) as [[s ->]|(m & e & ->)].
  - destruct s; reflexivity.
  - now rewrite sub_same.
Qed.

Lemma self_difference_is_zero_witness :
  op_sub (mk_time_spec 6 (literal 3 4)) (mk_time_spec 6 (literal 3 4))
  = Value time_spec_default.
Proof.
  apply (self_difference_is_zero (mk_time_spec 6 (literal 3 4)));
    vm_compute; reflexivity.
Defined.

(** ** The order of times and the order of their values *)

(** The value of a time in seconds. *)
Definition time_value (t : time_spec_t) : Q :=
  (inject_Z (get_full_secs t) + to_Q (get_frac_secs t))%Q.

Section ValueOrder.

(** The value of a double in units of 2^-1074, the smallest positive
    double: an integer. *)
Definition scaled (x : double) : Z :=
  match x with
  | S754_finite s m e =>
      let a := Zpos m * 2 ^ (e + 1074) in if s then - a else a
  | _ => 0
  end.

Lemma to_Q_as_scaled (x : double) :
  Double.valid x = true -> (to_Q x == Qmake (scaled x) (2 ^ 1074))%Q.
Proof.
  destruct x as [s|s| |s m e]; try (intros _; reflexivity).
  intros Hv. apply valid_finite_bounds in Hv as (_ & He & _).
  assert (Hpos : (to_Q (S754_finite false m e)
                  == Qmake (Zpos m * 2 ^ (e + 1074)) (2 ^ 1074))%Q).
  { cbn [to_Q]. destruct e as [|p|p]; unfold Qeq; cbn [Qnum Qden inject_Z];
      rewrite ?pow2_pos.
    - rewrite Z.add_0_l. ring.
    - rewrite Z.pow_add_r by lia. ring.
    - replace (2 ^ 1074) with (2 ^ (Zneg p + 1074) * 2 ^ Zpos p).
      + ring.
      + rewrite <- Z.pow_add_r by lia. f_equal. lia. }
  destruct s; [|exact Hpos].
  change (to_Q (S754_finite true m e))
    with (- to_Q (S754_finite false m e))%Q.
  rewrite Hpos. unfold scaled, Qeq, Qopp. cbn [Qnum Qden]. ring.
Qed.

Lemma ltb_one_inv (m : positive) (e : Z) :
  Double.valid (S754_finite false m e) = true ->
  Double.ltb (S754_finite false m e) Double.one = true -> e < -52.
Proof.
  intros Hv H1.
  change Double.one with (S754_finite false 4503599627370496 (-52)) in H1.
  unfold Double.ltb, SFltb in H1. cbn [SFcompare] in H1.
  apply valid_finite_bounds in Hv as (Hm & He & Hn).
  rewrite compare_cont_Eq in H1.
  destruct (Z.compare_spec e (-52)) as [->|?|?]; try discriminate; [|lia].
  destruct (Z.compare_spec (Zpos m) 4503599627370496); try discriminate.
  assert (2 ^ 52 <= Zpos m) by (apply Hn; lia). lia.
Qed.

(** The fractional seconds of a normalized time, in units of 2^-1074, lie
    between 0 and 2^1074. *)
Lemma scaled_normalized (t : time_spec_t) :
  well_formed t = true -> normalized t = true ->
  0 <= scaled (get_frac_secs t) < 2 ^ 1074.
Proof.
  intros Hw Hn. unfold well_formed in Hw. apply andb_prop in Hw as [_ Hv].
  assert (H0 : 0 < 2 ^ 1074) by (apply Z.pow_pos_nonneg; lia).
  destruct (normalized_cases t Hn) as [[s E]|(m & e & E)].
  - rewrite E. cbn [scaled]. lia.
  - unfold normalized in Hn. apply andb_prop in Hn as [_ H1].
    rewrite E in *. apply ltb_one_inv in H1; [|assumption].
    pose proof (valid_finite_bounds _ _ _ Hv) as (Hm & He & _).
    cbn [scaled].
    assert (Hp : 0 < 2 ^ (e + 1074)) by (apply Z.pow_pos_nonneg; lia).
    assert (Hq : 2 ^ (e + 1074) <= 2 ^ 1021) by (apply Z.pow_le_mono_r; lia).
    assert (HK : 2 ^ 1074 = 2 ^ 53 * 2 ^ 1021)
      by (rewrite <- Z.pow_add_r by lia; reflexivity).
    rewrite HK. clear HK H0.
    set (A := 2 ^ (e + 1074)) in *. set (B := 2 ^ 1021) in *.
    set (C := 2 ^ 53) in *. clearbody A B C. nia.
Qed.

(** On doubles that are not negative, [<] and [==] are the order and the
    equality of the values. *)
Lemma compare_scaled (x y : double) :
  Double.valid x = true -> Double.valid y = true ->
  nonneg_value x = true -> nonneg_value y = true ->
  finite_or_zero x = true -> finite_or_zero y = true ->
  SFcompare x y = Some (scaled x ?= scaled y).
Proof.
  intros Hx Hy Nx Ny Fx Fy.
  destruct x as [sx|sx| |[] mx ex]; try discriminate;
    destruct y as [sy|sy| |[] my ey]; try discriminate.
  - reflexivity.
  - cbn [SFcompare scaled].
    apply valid_finite_bounds in Hy as (_ & He & _).
    assert (0 < 2 ^ (ey + 1074)) by (apply Z.pow_pos_nonneg; lia).
    symmetry. f_equal. apply Z.compare_lt_iff. nia.
  - cbn [SFcompare scaled].
    apply valid_finite_bounds in Hx as (_ & He & _).
    assert (0 < 2 ^ (ex + 1074)) by (apply Z.pow_pos_nonneg; lia).
    symmetry. f_equal. apply Z.compare_gt_iff. nia.
  - cbn [SFcompare scaled]. rewrite compare_cont_Eq. f_equal.
    apply valid_finite_bounds in Hx as (Hmx & Hex & Hnx).
    apply valid_finite_bounds in Hy as (Hmy & Hey & Hny).
    assert (Hstep : forall m1 e1 m2 e2,
               Zpos m1 < 2 ^ 53 -> 2 ^ 52 <= Zpos m2 ->
               -1074 <= e1 -> e1 < e2 ->
               Zpos m1 * 2 ^ (e1 + 1074) < Zpos m2 * 2 ^ (e2 + 1074)).
    { intros m1 e1 m2 e2 H1 H2 H3 H4.
      assert (Ha : 0 < 2 ^ (e1 + 1074)) by (apply Z.pow_pos_nonneg; lia).
      assert (Hb : 2 * 2 ^ (e1 + 1074) <= 2 ^ (e2 + 1074)).
      { replace (2 * 2 ^ (e1 + 1074)) with (2 ^ (e1 + 1 + 1074)).
        - apply Z.pow_le_mono_r; lia.
        - replace (e1 + 1 + 1074) with (Z.succ (e1 + 1074)) by lia.
          rewrite Z.pow_succ_r by lia. reflexivity. }
      assert (Hc : 2 ^ 53 = 2 * 2 ^ 52) by reflexivity.
      rewrite Hc in H1. clear Hc.
      set (A := 2 ^ (e1 + 1074)) in *. set (B := 2 ^ (e2 + 1074)) in *.
      set (C := 2 ^ 52) in *. clearbody A B C. nia. }
    destruct (Z.compare_spec ex ey) as [->|Hlt|Hgt].
    + assert (0 < 2 ^ (ey + 1074)) by (apply Z.pow_pos_nonneg; lia).
      destruct (Z.compare_spec (Zpos mx) (Zpos my)) as [E|E|E]; symmetry.
      * apply Z.compare_eq_iff. now rewrite E.
      * apply Z.compare_lt_iff. nia.
      * apply Z.compare_gt_iff. nia.
    + symmetry. apply Z.compare_lt_iff. apply Hstep; lia.
    + symmetry. apply Z.compare_gt_iff. apply Hstep; lia.
Qed.

End ValueOrder.

Section TimeOrder.

Lemma time_value_scaled (t : time_spec_t) :
  well_formed t = true ->
  (time_value t
   == Qmake (get_full_secs t * 2 ^ 1074 + scaled (get_frac_secs t))
            (2 ^ 1074))%Q.
Proof.
  intros Hw. unfold well_formed in Hw. apply andb_prop in Hw as [_ Hv].
  unfold time_value. rewrite (to_Q_as_scaled _ Hv).
  unfold Qeq, Qplus, inject_Z. cbn [Qnum Qden].
  rewrite ?Pos.mul_1_l, ?Pos2Z.inj_mul, ?pow2_pos. ring.
Qed.

Lemma Qlt_same_den (a b : Z) (d : positive) :
  (Qmake a d < Qmake b d)%Q <-> a < b.
Proof. unfold Qlt. cbn [Qnum Qden]. nia. Qed.

Lemma Qle_same_den (a b : Z) (d : positive) :
  (Qmake a d <= Qmake b d)%Q <-> a <= b.
Proof. unfold Qle. cbn [Qnum Qden]. nia. Qed.

Lemma Qeq_same_den (a b : Z) (d : positive) :
  (Qmake a d == Qmake b d)%Q <-> a = b.
Proof. unfold Qeq. cbn [Qnum Qden]. nia. Qed.

End TimeOrder.

Lemma comparisons_values (a b : time_spec_t) :
  well_formed a = true -> well_formed b = true ->
  normalized a = true -> normalized b = true ->
  (op_lt a b = true <-> (time_value a < time_value b)%Q)
  /\ (op_le a b = true <-> (time_value a <= time_value b)%Q)
  /\ (op_gt a b = true <-> (time_value b < time_value a)%Q)
  /\ (op_ge a b = true <-> (time_value b <= time_value a)%Q)
  /\ (op_eq a b = true <-> (time_value a == time_value b)%Q)
  /\ (op_ne a b = true <-> ~ (time_value a == time_value b)%Q).
Proof.
  intros Wa Wb Na Nb.
  rewrite (time_value_scaled a Wa), (time_value_scaled b Wb).
  rewrite !Qlt_same_den, !Qle_same_den, !Qeq_same_den.
  pose proof (scaled_normalized a Wa Na) as Ha.
  pose proof (scaled_normalized b Wb Nb) as Hb.
  assert (Hc : SFcompare (get_frac_secs a) (get_frac_secs b)
               = Some (scaled (get_frac_secs a) ?= scaled (get_frac_secs b))).
  { unfold well_formed in Wa, Wb.
    apply andb_prop in Wa as [_ Va]. apply andb_prop in Wb as [_ Vb].
    pose proof (normalized_finite _ Na). pose proof (normalized_finite _ Nb).
    apply compare_scaled; try assumption; apply leb_zero_nonneg.
    - unfold normalized in Na. now apply andb_prop in Na as [Na _].
    - unfold normalized in Nb. now apply andb_prop in Nb as [Nb _]. }
  pose proof (SFcompare_swap _ _ _ Hc) as Hc'.
  unfold op_lt, op_le, op_gt, op_ge, op_eq, op_ne.
  unfold Double.neqb, Double.gtb, Double.geb.
  unfold Double.ltb, Double.leb, Double.eqb, SFltb, SFleb, SFeqb.
  rewrite Hc, Hc'. rewrite Z.gtb_ltb.
  set (sa := scaled (get_frac_secs a)) in *.
  set (sb := scaled (get_frac_secs b)) in *.
  set (fa := get_full_secs a). set (fb := get_full_secs b).
  set (K := 2 ^ 1074) in *. clearbody sa sb fa fb K. clear Hc Hc'.
  destruct (Z.ltb_spec fa fb), (Z.ltb_spec fb fa), (Z.eqb_spec fa fb);
    try lia;
    destruct (Z.compare_spec sa sb); cbn [CompOpp orb andb negb];
    repeat split; intros; try reflexivity; try discriminate; try nia.
Qed.

(** On normalized times each comparison operator decides the corresponding
    comparison of the time values [whole + fractional seconds]. *)
Theorem comparisons_follow_values (a b : time_spec_t) :
  well_formed a = true -> well_formed b = true ->
  normalized a = true -> normalized b = true ->
  (op_lt a b = true <-> (time_value a < time_value b)%Q)
  /\ (op_le a b = true <-> (time_value a <= time_value b)%Q)
  /\ (op_gt a b = true <-> (time_value b < time_value a)%Q)
  /\ (op_ge a b = true <-> (time_value b <= time_value a)%Q)
  /\ (op_eq a b = true <-> (time_value a == time_value b)%Q)
  /\ (op_ne a b = true <-> ~ (time_value a == time_value b)%Q).
Proof. exact (comparisons_values a b). Qed.

Lemma comparisons_follow_values_witness :
  op_lt (mk_time_spec (-1) (literal 3 4)) (mk_time_spec 0 (literal 1 4)) = true
  <-> (time_value (mk_time_spec (-1) (literal 3 4))
       < time_value (mk_time_spec 0 (literal 1 4)))%Q.
Proof.
  apply (comparisons_follow_values
           (mk_time_spec (-1) (literal 3 4)) (mk_time_spec 0 (literal 1 4)));
    vm_compute; reflexivity.
Defined.

(** Without normalization the operators do not follow the values: the time
    that the subtraction [0 - 1e-20] leaves (whole seconds -1, fractional
    seconds 1.0) has the value 0 and is neither equal to the time 0 nor
    less than a time of negative value. *)
Lemma comparison_of_leaked_fraction :
  (time_value (mk_time_spec (-1) Double.one) == time_value time_spec_default)%Q
  /\ op_eq (mk_time_spec (-1) Double.one) time_spec_default = false
  /\ op_lt (mk_time_spec (-1) Double.one) time_spec_default = true.
Proof. vm_compute. repeat split. Qed.

(** [<] is a strict order on normalized times. *)
Theorem op_lt_strict_order (a b c : time_spec_t) :
  well_formed a = true -> well_formed b = true -> well_formed c = true ->
  normalized a = true -> normalized b = true -> normalized c = true ->
  op_lt a a = false
  /\ (op_lt a b = true -> op_lt b a = false)
  /\ (op_lt a b = true -> op_lt b c = true -> op_lt a c = true)
  /\ (op_le a b = true -> op_le b c = true -> op_le a c = true)
  /\ (op_le a b = true -> op_le b a = true -> op_eq a b = true).
Proof.
  intros Wa Wb Wc Na Nb Nc.
  destruct (comparisons_values a a Wa Wa Na Na) as (Haa & _).
  destruct (comparisons_values a b Wa Wb Na Nb)
    as (Hab & Lab & _ & _ & Eab & _).
  destruct (comparisons_values b a Wb Wa Nb Na) as (Hba & Lba & _).
  destruct (comparisons_values b c Wb Wc Nb Nc) as (Hbc & Lbc & _).
  destruct (comparisons_values a c Wa Wc Na Nc) as (Hac & Lac & _).
  repeat split.
  - destruct (op_lt a a); [|reflexivity].
    exfalso. apply (Qlt_irrefl (time_value a)). now apply Haa.
  - intros H. destruct (op_lt b a); [|reflexivity].
    exfalso. apply (Qlt_irrefl (time_value a)).
    apply Qlt_trans with (y := time_value b); [apply Hab|apply Hba]; auto.
  - intros H1 H2. apply Hac.
    apply Qlt_trans with (y := time_value b); [apply Hab|apply Hbc]; auto.
  - intros H1 H2. apply Lac.
    apply Qle_trans with (y := time_value b); [apply Lab|apply Lbc]; auto.
  - intros H1 H2. apply Eab. apply Qle_antisym; [apply Lab|apply Lba]; auto.
Qed.

Lemma op_lt_strict_order_witness :
  op_lt (mk_time_spec 1 Double.half) (mk_time_spec 1 Double.half) = false.
Proof.
  apply (op_lt_strict_order (mk_time_spec 1 Double.half)
           (mk_time_spec 2 Double.zero) (mk_time_spec 3 Double.half));
    vm_compute; reflexivity.
Defined.

(** ** Whole seconds and integer tick rates *)

Section IntegerRates.

(** An integer below 2^53 converts to a double and back. *)
Lemma to_int_of_int (i : Z) :
  1 <= i < 2 ^ 53 ->
  Double.to_int (Double.of_int i) = Value i
  /\ exists m e, Double.of_int i = S754_finite false m e.
Proof.
  intros [H1 H53]. destruct i as [|p|p]; try lia.
  rewrite (of_int_small p H53).
  pose proof (digits2_pos_le p 53 H53) as Hd.
  set (e := Zpos (digits2_pos p) - 53) in *.
  destruct (shl_align_le p 0 e ltac:(lia)) as (_ & Hm & _).
  split; [|eauto].
  assert (Ht : Double.truncate (S754_finite false (fst (shl_align p 0 e)) e)
               = Some (Zpos p)).
  { assert (He : e <= 0) by (unfold e; lia).
    clearbody e. destruct e as [|q|q]; try lia.
    - rewrite truncate_finite_nonneg_exp by lia. rewrite Hm.
      f_equal. rewrite Z.sub_diag. change (2 ^ 0) with 1. lia.
    - rewrite truncate_finite_neg_exp, Hm.
      replace (0 - Zneg q) with (Zpos q) by lia.
      rewrite Z.div_mul; [reflexivity|].
      apply Z.pow_nonzero; lia. }
  unfold Double.to_int. rewrite Ht.
  unfold Int64.in_range, Int64.min_signed, Int64.max_signed.
  replace ((- 2 ^ 63 <=? Zpos p) && (Zpos p <=? 2 ^ 63 - 1)) with true;
    [reflexivity|].
  symmetry. apply andb_true_intro. rewrite !Z.leb_le. lia.
Qed.

Lemma mul_zero_r (x : double) :
  finite_or_zero x = true -> exists s, Double.mul x Double.zero = S754_zero s.
Proof. destruct x as [s|s| |s m e]; try discriminate; cbn; eauto. Qed.

Lemma of_int_finite_or_zero (z : Z) :
  Int64.in_range z = true -> finite_or_zero (Double.of_int z) = true.
Proof.
  intros H. apply of_int_finite in H.
  destruct (Double.of_int z); try contradiction; reflexivity.
Qed.

End IntegerRates.

(** At a tick rate that is an integer [i] of at most 53 bits, a tick count
    of [n] whole seconds, negative ones included, is converted without any
    rounding: [from_ticks] gives the time [n] with fractional seconds 0, and
    [to_ticks] gives [n * i] back. *)
Theorem whole_seconds_round_trip (n i : Z) :
  1 <= i < 2 ^ 53 ->
  Int64.in_range n = true -> Int64.in_range (n * i) = true ->
  from_ticks (n * i) (Double.of_int i) = Value (time_spec_of_full n)
  /\ to_ticks (time_spec_of_full n) (Double.of_int i) = Value (n * i).
Proof.
  intros Hi Hn Hni.
  destruct (to_int_of_int i Hi) as (Hti & m & e & Er).
  destruct (mul_zero_r _ (of_int_finite_or_zero n Hn)) as [s Hs].
  split.
  - unfold from_ticks. rewrite Hti. cbn [bind].
    rewrite Er, sub_same, <- Er.
    unfold Int64.div, Int64.mul, Int64.sub, Int64.checked.
    destruct (Z.eqb_spec i 0); [lia|].
    rewrite Z.quot_mul by assumption. rewrite Hn. cbn [bind].
    rewrite Hni. cbn [bind]. rewrite Z.sub_diag.
    change (Int64.in_range 0) with true. cbn [bind].
    change (Double.sub (Double.of_int n) (Double.of_int n)) with Double.zero.
    fold Double.zero. rewrite Hs.
    change (Double.of_int 0) with (S754_zero false).
    replace (Double.sub (S754_zero false) (S754_zero s)) with Double.zero
      by (now destruct s).
    rewrite Er. change (Double.div Double.zero (S754_finite false m e))
      with Double.zero.
    unfold time_spec, time_spec_of_full.
    apply set_from_normalized; [|reflexivity].
    unfold well_formed. cbn [get_full_secs _full_secs]. now rewrite Hn.
  - unfold to_ticks. rewrite Hti. cbn [bind].
    rewrite Er, sub_same, <- Er.
    unfold time_spec_of_full.
    cbn [get_full_secs get_frac_secs _full_secs _frac_secs].
    unfold Int64.mul, Int64.checked. rewrite Hni. cbn [bind].
    fold Double.zero. rewrite Hs. rewrite Er.
    change (Double.mul Double.zero (S754_finite false m e)) with Double.zero.
    replace (fast_llround (Double.add (S754_zero s) Double.zero))
      with (Value 0 : outcome Z) by (now destruct s).
    cbn [bind]. unfold Int64.add, Int64.checked.
    now rewrite Z.add_0_r, Hni.
Qed.

(** -3 seconds at 200e6 ticks per second. *)
Lemma whole_seconds_round_trip_witness :
  from_ticks (-600000000) rate_200e6 = Value (time_spec_of_full (-3))
  /\ to_ticks (time_spec_of_full (-3)) rate_200e6 = Value (-600000000).
Proof.
  apply (whole_seconds_round_trip (-3) 200000000); vm_compute;
    try reflexivity; split; congruence.
Defined.

(** ** Edge cases of the tick conversions *)

(** With a tick rate of zero the constructor from a tick count divides by
    0.0: the quotient is an infinity or, for a tick count of 0, a NaN, and
    its cast to [int64_t] in [set_from] is undefined. *)
Theorem tick_count_constructor_zero_rate (full_secs tick_count : Z) :
  Int64.in_range tick_count = true ->
  time_spec_of_tick_count full_secs tick_count Double.zero
  = Undefined Float_to_int_overflow.
Proof.
  intros H. apply of_int_finite in H.
  unfold time_spec_of_tick_count, time_spec, set_from.
  destruct (Double.of_int tick_count) as [s|s| |s m e]; try contradiction;
    reflexivity.
Qed.

Lemma tick_count_constructor_zero_rate_witness :
  time_spec_of_tick_count 4 100 Double.zero = Undefined Float_to_int_overflow.
Proof.
  apply (tick_count_constructor_zero_rate 4 100). reflexivity.
Defined.

(** A time of whole seconds has the tick count 0 at every finite tick rate,
    whatever its sign. *)
Theorem get_tick_count_whole_seconds (n : Z) (tick_rate : double) :
  finite_or_zero tick_rate = true ->
  get_tick_count (time_spec_of_full n) tick_rate = Value 0.
Proof.
  destruct tick_rate as [[]|s| |[] m e]; try discriminate; reflexivity.
Qed.

Lemma get_tick_count_whole_seconds_witness :
  get_tick_count (time_spec_of_full 12) (SFopp rate_200e6) = Value 0.
Proof.
  apply (get_tick_count_whole_seconds 12 (SFopp rate_200e6)).
  vm_compute. reflexivity.
Defined.

(** ** A fraction of -0.0 *)

(** The constructor keeps fractional seconds of -0.0, which satisfy the
    invariant; the stream operator then drops the minus sign in place of the
    digit 0, and the time of [n] whole seconds is rendered as the digits of
    [n] followed by [0.000000000000000]. *)
Theorem negative_zero_fraction (n : Z) :
  Int64.in_range n = true ->
  time_spec n (S754_zero true) = Value (mk_time_spec n (S754_zero true))
  /\ normalized (mk_time_spec n (S754_zero true)) = true
  /\ to_stream (mk_time_spec n (S754_zero true))
     = Iostream.show_int n ++ "0.000000000000000"
  /\ to_stream (mk_time_spec n Double.zero)
     = Iostream.show_int n ++ ".000000000000000".
Proof.
  intros Hn. repeat split.
  unfold time_spec. apply set_from_normalized; [|reflexivity].
  unfold well_formed. cbn [get_full_secs _full_secs]. now rewrite Hn.
Qed.

Lemma negative_zero_fraction_witness :
  to_stream (mk_time_spec 7 (S754_zero true)) = "70.000000000000000".
Proof.
  apply (negative_zero_fraction 7). reflexivity.
Defined.

(** * uhd::dict  (host/include/uhd/types/dict.hpp, dict.ipp)

    [dict<Key, Val>] keeps its pairs in a [std::list], in insertion order;
    the constructor from a range and [insert] do not look for keys that are
    already present, so a key can occur more than once. *)

Module Dict.

Import ListNotations.
Local Open Scope list_scope.

(** What the member functions throw. *)
Variant exception (Key : Type) :=
  | key_not_found (key : Key)   (* uhd::key_error *)
  | value_error.                (* uhd::value_error, "Option merge conflict" *)

Arguments key_not_found {Key} key.
Arguments value_error {Key}.

Variant result (Key A : Type) :=
  | Ok (a : A)
  | Throw (e : exception Key).

Arguments Ok {Key A} a.
Arguments Throw {Key A} e.

Section WithTypes.

Variables Key Val : Type.

(** [operator==] of the key and value types, and [Val()]. *)
Variable key_eq : forall x y : Key, {x = y} + {x <> y}.
Variable val_eq : forall x y : Val, {x = y} + {x <> y}.
Variable default_val : Val.

(** [std::list<pair_t> _map] *)
Definition dict := list (Key * Val).

(** [dict(void)] *)
Definition empty : dict := [].

(** [dict(InputIterator first, InputIterator last)] *)
Definition of_range (l : list (Key * Val)) : dict := l.

(** [insert(first, last)]: [_map.insert(_map.end(), first, last)] appends
    the pairs of the range. *)
Definition insert (d : dict) (l : list (Key * Val)) : dict := d ++ l.

(** [emplace(first, last)]: [_map.emplace(_map.end(), first, last)]
    constructs one pair from its two arguments and appends it. *)
Definition emplace (d : dict) (first : Key) (last : Val) : dict :=
  d ++ [(first, last)].

(** [clear()] *)
Definition clear (d : dict) : dict := [].

(** [size()] *)
Definition size (d : dict) : nat := List.length d.

(** [keys()] *)
Fixpoint keys (d : dict) : list Key :=
  match d with
  | [] => []
  | p :: d' => fst p :: keys d'
  end.

(** [vals()] *)
Fixpoint vals (d : dict) : list Val :=
  match d with
  | [] => []
  | p :: d' => snd p :: vals d'
  end.

(** [has_key(key)] *)
Fixpoint has_key (d : dict) (key : Key) : bool :=
  match d with
  | [] => false
  | p :: d' => if key_eq (fst p) key then true else has_key d' key
  end.

(** [get(key, other)] *)
Fixpoint get_or (d : dict) (key : Key) (other : Val) : Val :=
  match d with
  | [] => other
  | p :: d' => if key_eq (fst p) key then snd p else get_or d' key other
  end.

(** [get(key)], and [operator[](key) const] the same. *)
Fixpoint get (d : dict) (key : Key) : result Key Val :=
  match d with
  | [] => Throw (key_not_found key)
  | p :: d' => if key_eq (fst p) key then Ok (snd p) else get d' key
  end.

(** [Val& operator[](key)]: the dictionary after the call, and the position
    of the pair whose value the returned reference denotes. *)
Fixpoint subscript (d : dict) (key : Key) : dict * nat :=
  match d with
  | [] => ([(key, default_val)], O)
  | p :: d' =>
      if key_eq (fst p) key then (d, O)
      else let '(d'', i) := subscript d' key in (p :: d'', S i)
  end.

(** Assignment through a reference to the value at position [i]. *)
Fixpoint assign (d : dict) (i : nat) (val : Val) : dict :=
  match d, i with
  | [], _ => []
  | p :: d', O => (fst p, val) :: d'
  | p :: d', S i' => p :: assign d' i' val
  end.

(** [set(key, val)]: assigns [val] to the reference [operator[](key)]
    returns. *)
Definition set (d : dict) (key : Key) (val : Val) : dict :=
  let '(d', i) := subscript d key in assign d' i val.

(** [pop(key)]: the value, and the dictionary after the call. *)
Fixpoint pop (d : dict) (key : Key) : result Key (Val * dict) :=
  match d with
  | [] => Throw (key_not_found key)
  | p :: d' =>
      if key_eq (fst p) key then Ok (snd p, d')
      else match pop d' key with
           | Ok (v, d'') => Ok (v, p :: d'')
           | Throw e => Throw e
           end
  end.

(** [operator==(other)]; [other.get] is called for keys that [other] has
    and does not throw. *)
Definition op_eq (d other : dict) : bool :=
  if Nat.eqb (size d) (size other) then
    forallb (fun p =>
               has_key other (fst p)
               && match get other (fst p) with
                  | Ok v => if val_eq v (snd p) then true else false
                  | Throw _ => false
                  end) d
  else false.

(** [operator!=(other)] *)
Definition op_ne (d other : dict) : bool := negb (op_eq d other).

(** The body of the loop of [update] for one key of [new_dict]: the
    dictionary after it, and the exception when it throws. *)
Definition update_key (new_dict : dict) (fail_on_conflict : bool)
    (d : dict) (key : Key) : dict * option (exception Key) :=
  match get new_dict key with
  | Throw e => (d, Some e)
  | Ok new_val =>
      let conflict :=
        fail_on_conflict && has_key d key
        && match get d key with
           | Ok v => if val_eq v new_val then false else true
           | Throw _ => false
           end in
      if conflict then (d, Some value_error)
      else (set d key new_val, None)
  end.

Fixpoint update_keys (new_dict : dict) (fail_on_conflict : bool)
    (d : dict) (ks : list Key) : dict * option (exception Key) :=
  match ks with
  | [] => (d, None)
  | key :: ks' =>
      match update_key new_dict fail_on_conflict d key with
      | (d', None) => update_keys new_dict fail_on_conflict d' ks'
      | (d', Some e) => (d', Some e)
      end
  end.

(** [update(new_dict, fail_on_conflict)]: the dictionary after the call,
    and the exception when it throws. *)
Definition update (d new_dict : dict) (fail_on_conflict : bool)
  : dict * option (exception Key) :=
  update_keys new_dict fail_on_conflict d (keys new_dict).

(** *** Lookup *)

Lemma has_key_In (d : dict) (key : Key) :
  has_key d key = true <-> In key (keys d).
Proof.
  induction d as [|p d IH]; cbn [has_key keys In].
  - split; [discriminate|contradiction].
  - destruct (key_eq (fst p) key) as [E|N].
    + split; auto.
    + rewrite IH. split; [auto|]. intros [E|H]; [contradiction|exact H].
Qed.

Lemma get_present (d : dict) (key : Key) :
  has_key d key = true ->
  exists v, get d key = Ok v /\ In (key, v) d /\
            forall other, get_or d key other = v.
Proof.
  induction d as [|p d IH]; cbn [has_key get get_or In]; [discriminate|].
  destruct (key_eq (fst p) key) as [E|N].
  - intros _. exists (snd p). repeat split. left. destruct p. cbn in *.
    now subst.
  - intros H. destruct (IH H) as (v & Hg & Hin & Hor). eauto 6.
Qed.

Lemma get_ok_has_key (d : dict) (key : Key) (v : Val) :
  get d key = Ok v -> has_key d key = true.
Proof.
  induction d as [|p d IH]; cbn [has_key get]; [discriminate|].
  destruct (key_eq (fst p) key); auto.
Qed.

Lemma get_missing (d : dict) (key : Key) :
  has_key d key = false ->
  get d key = Throw (key_not_found key)
  /\ forall other, get_or d key other = other.
Proof.
  induction d as [|p d IH]; cbn [has_key get get_or]; [auto|].
  destruct (key_eq (fst p) key); [discriminate|exact IH].
Qed.

Lemma get_first (d : dict) (key : Key) :
  has_key d key = true ->
  exists v l1 l2,
    get d key = Ok v /\ d = l1 ++ (key, v) :: l2 /\ has_key l1 key = false.
Proof.
  induction d as [|p d IH]; cbn [has_key get]; [discriminate|].
  destruct (key_eq (fst p) key) as [E|N].
  - intros _. exists (snd p), [], d. repeat split.
    destruct p. cbn in *. now subst.
  - intros H. destruct (IH H) as (v & l1 & l2 & Hg & -> & Hl).
    exists v, (p :: l1), l2. repeat split; [exact Hg|].
    cbn [has_key]. destruct (key_eq (fst p) key); [contradiction|exact Hl].
Qed.

(** [get] and the constant [operator[]] throw [key_not_found] for the keys
    that [has_key] denies, the keys that are not in [keys()], and only for
    them; otherwise they return the value of the first pair with the key
    (no pair before it has the key), as does [get] with a default value,
    which returns the default for the other keys. *)
Theorem lookup (d : dict) (key : Key) (other : Val) :
  (has_key d key = true <-> In key (keys d))
  /\ match get d key with
     | Ok v => has_key d key = true /\ In (key, v) d
               /\ (exists l1 l2, d = l1 ++ (key, v) :: l2
                                 /\ has_key l1 key = false)
               /\ get_or d key other = v
     | Throw e => e = key_not_found key /\ has_key d key = false
                  /\ get_or d key other = other
     end.
Proof.
  split; [apply has_key_In|].
  destruct (has_key d key) eqn:H.
  - destruct (get_present d key H) as (v & Hg & Hin & Hor).
    destruct (get_first d key H) as (v' & l1 & l2 & Hg' & Hd & Hl).
    rewrite Hg. assert (v' = v) by congruence. subst v'. eauto 8.
  - destruct (get_missing d key H) as (-> & Hor). auto.
Qed.

(** *** Assignment *)

Lemma set_nil (key : Key) (val : Val) : set [] key val = [(key, val)].
Proof. reflexivity. Qed.

Lemma set_cons (p : Key * Val) (d : dict) (key : Key) (val : Val) :
  set (p :: d) key val
  = if key_eq (fst p) key then (fst p, val) :: d else p :: set d key val.
Proof.
  unfold set. cbn [subscript]. destruct (key_eq (fst p) key); [reflexivity|].
  destruct (subscript d key) as [d' i]. reflexivity.
Qed.

Lemma get_set (d : dict) (key : Key) (val : Val) (k : Key) :
  get (set d key val) k = (if key_eq key k then Ok val else get d k)
  /\ has_key (set d key val) k
     = (if key_eq key k then true else has_key d k).
Proof.
  induction d as [|p d [IH1 IH2]].
  - rewrite set_nil. cbn [get has_key fst snd].
    destruct (key_eq key k); auto.
  - rewrite set_cons. destruct (key_eq (fst p) key) as [E|N];
      cbn [get has_key fst snd].
    + destruct (key_eq (fst p) k) as [E'|N'];
        destruct (key_eq key k) as [E''|N'']; auto; congruence.
    + rewrite IH1, IH2.
      destruct (key_eq (fst p) k) as [E'|N'];
        destruct (key_eq key k) as [E''|N'']; auto; congruence.
Qed.

(** After [set(key, val)], looking [key] up gives [val], and every other
    key is looked up as before. *)
Theorem get_after_set (d : dict) (key : Key) (val : Val) (k : Key) :
  get (set d key val) k = (if key_eq key k then Ok val else get d k)
  /\ has_key (set d key val) k
     = (if key_eq key k then true else has_key d k).
Proof. exact (get_set d key val k). Qed.

Lemma keys_set (d : dict) (key : Key) (val : Val) :
  keys (set d key val)
  = (if has_key d key then keys d else keys d ++ [key])
  /\ size (set d key val) = (if has_key d key then size d else S (size d)).
Proof.
  unfold size. induction d as [|p d [IH1 IH2]].
  - rewrite set_nil. auto.
  - rewrite set_cons. cbn [has_key].
    destruct (key_eq (fst p) key) as [E|N]; cbn [keys List.length fst].
    + auto.
    + rewrite IH1, IH2. destruct (has_key d key); auto.
Qed.

(** [set] on a key that is present keeps the keys, their order and the
    size; on a new key it appends the key at the end. *)
Theorem keys_after_set (d : dict) (key : Key) (val : Val) :
  keys (set d key val)
  = (if has_key d key then keys d else keys d ++ [key])
  /\ size (set d key val) = (if has_key d key then size d else S (size d)).
Proof. exact (keys_set d key val). Qed.

(** *** Removal *)

Lemma pop_decompose (d : dict) (key : Key) :
  match pop d key with
  | Throw e => e = key_not_found key /\ has_key d key = false
  | Ok (v, d') =>
      get d key = Ok v
      /\ size d = S (size d')
      /\ exists l1 l2, d = l1 ++ (key, v) :: l2 /\ d' = l1 ++ l2
                       /\ has_key l1 key = false
  end.
Proof.
  unfold size. induction d as [|p d IH]; cbn [pop get has_key].
  - auto.
  - destruct (key_eq (fst p) key) as [E|N].
    + repeat split. exists [], d. destruct p; cbn in *; subst. auto.
    + destruct (pop d key) as [[v d']|e].
      * destruct IH as (Hg & Hs & l1 & l2 & -> & -> & Hl).
        split; [assumption|]. split; [cbn; now rewrite Hs|].
        exists (p :: l1), l2. repeat split. cbn [has_key].
        destruct (key_eq (fst p) key); [contradiction|assumption].
      * exact IH.
Qed.

(** [pop(key)] throws [key_not_found] when the key is missing and leaves the
    dictionary as it is; otherwise it returns the value [get] returns and
    erases the first pair with that key, and only that pair. *)
Theorem pop_first_pair (d : dict) (key : Key) :
  match pop d key with
  | Throw e => e = key_not_found key /\ has_key d key = false
  | Ok (v, d') =>
      get d key = Ok v
      /\ size d = S (size d')
      /\ exists l1 l2, d = l1 ++ (key, v) :: l2 /\ d' = l1 ++ l2
                       /\ has_key l1 key = false
  end.
Proof. exact (pop_decompose d key). Qed.

Lemma has_key_app (l1 l2 : dict) (key : Key) :
  has_key (l1 ++ l2) key = has_key l1 key || has_key l2 key.
Proof.
  induction l1 as [|p l1 IH]; [reflexivity|]. cbn [app has_key].
  destruct (key_eq (fst p) key); [reflexivity|exact IH].
Qed.

Lemma keys_app (l1 l2 : dict) : keys (l1 ++ l2) = keys l1 ++ keys l2.
Proof.
  induction l1 as [|p l1 IH]; [reflexivity|]. cbn [app keys]. now rewrite IH.
Qed.

(** In a dictionary without repeated keys a popped key is gone. *)
Theorem pop_removes_key (d d' : dict) (key : Key) (v : Val) :
  NoDup (keys d) -> pop d key = Ok (v, d') ->
  has_key d' key = false /\ NoDup (keys d').
Proof.
  intros Hnd Hp. pose proof (pop_decompose d key) as H. rewrite Hp in H.
  destruct H as (_ & _ & l1 & l2 & -> & -> & Hl).
  rewrite keys_app in Hnd. cbn [keys fst] in Hnd.
  split.
  - rewrite has_key_app, Hl. cbn [orb].
    destruct (has_key l2 key) eqn:E; [|reflexivity].
    apply has_key_In in E. apply NoDup_remove_2 in Hnd.
    exfalso. apply Hnd. apply in_or_app. now right.
  - rewrite keys_app. now apply NoDup_remove_1 in Hnd.
Qed.

(** *** Merging *)

(** The check [update] makes for a key when [fail_on_conflict] is set. *)
Definition conflict (d new_dict : dict) (key : Key) : bool :=
  has_key d key
  && match get d key, get new_dict key with
     | Ok v, Ok w => if val_eq v w then false else true
     | _, _ => false
     end.

Lemma update_key_ok (new_dict d : dict) (fail : bool) (key : Key) :
  has_key new_dict key = true ->
  exists w, get new_dict key = Ok w
    /\ update_key new_dict fail d key
       = if fail && conflict d new_dict key then (d, Some value_error)
         else (set d key w, None).
Proof.
  intros H. destruct (get_present new_dict key H) as (w & Hw & _).
  exists w. split; [assumption|].
  unfold update_key, conflict. rewrite Hw.
  destruct fail; cbn [andb]; [|reflexivity].
  destruct (has_key d key); cbn [andb]; [|reflexivity].
  destruct (get d key) as [v|e]; [|reflexivity].
  destruct (val_eq v w); reflexivity.
Qed.

Lemma update_keys_without_check (new_dict : dict) (ks : list Key) :
  forall d,
    (forall k, In k ks -> has_key new_dict k = true) ->
    exists d', update_keys new_dict false d ks = (d', None)
      /\ forall k, get d' k
                   = if in_dec key_eq k ks then get new_dict k else get d k.
Proof.
  induction ks as [|key ks IH]; intros d Hks.
  - exists d. split; reflexivity.
  - cbn [update_keys].
    destruct (update_key_ok new_dict d false key) as (w & Hw & ->);
      [apply Hks; now left|]. cbn [andb].
    destruct (IH (set d key w)) as (d' & Hd' & Hget);
      [intros k Hk; apply Hks; now right|].
    exists d'. split; [assumption|]. intros k. rewrite Hget.
    destruct (in_dec key_eq k ks) as [Hin|Hnin];
      destruct (in_dec key_eq k (key :: ks)) as [Hin'|Hnin'];
      try reflexivity.
    + exfalso. apply Hnin'. now right.
    + destruct Hin' as [E|Hin']; [subst k|contradiction].
      destruct (get_set d key w key) as [-> _].
      destruct (key_eq key key); congruence.
    + destruct (get_set d key w k) as [-> _].
      destruct (key_eq key k) as [E|N]; [|reflexivity].
      exfalso. apply Hnin'. now left.
Qed.

(** [update(new_dict, false)] never throws; afterwards the keys of
    [new_dict] have the values [new_dict] gives them (for a repeated key,
    that of its first pair) and the other keys are looked up as before. *)
Theorem update_without_check (d new_dict : dict) :
  snd (update d new_dict false) = None
  /\ forall k, get (fst (update d new_dict false)) k
               = if has_key new_dict k then get new_dict k else get d k.
Proof.
  unfold update.
  destruct (update_keys_without_check new_dict (keys new_dict) d)
    as (d' & -> & Hget).
  - intros k. apply has_key_In.
  - split; [reflexivity|]. intros k. cbn [fst]. rewrite Hget.
    destruct (in_dec key_eq k (keys new_dict)) as [Hin|Hnin];
      destruct (has_key new_dict k) eqn:E; try reflexivity.
    + apply has_key_In in Hin. congruence.
    + apply has_key_In in E. contradiction.
Qed.

Lemma conflict_after_set (d new_dict : dict) (key k : Key) (w : Val) :
  get new_dict key = Ok w ->
  conflict (set d key w) new_dict k
  = if key_eq key k then false else conflict d new_dict k.
Proof.
  intros Hw. unfold conflict.
  destruct (get_set d key w k) as [-> ->].
  destruct (key_eq key k) as [E|N]; [|reflexivity].
  subst k. rewrite Hw. cbn [andb]. destruct (val_eq w w); congruence.
Qed.

Lemma update_keys_with_check (new_dict : dict) (ks : list Key) :
  forall d,
    (forall k, In k ks -> has_key new_dict k = true) ->
    if existsb (conflict d new_dict) ks
    then snd (update_keys new_dict true d ks) = Some value_error
    else update_keys new_dict true d ks = update_keys new_dict false d ks.
Proof.
  induction ks as [|key ks IH]; intros d Hks; [reflexivity|].
  cbn [existsb update_keys].
  destruct (update_key_ok new_dict d true key) as (w & Hw & ->);
    [apply Hks; now left|].
  destruct (update_key_ok new_dict d false key) as (w' & Hw' & ->);
    [apply Hks; now left|].
  assert (w' = w) by congruence. subst w'. cbn [andb].
  destruct (conflict d new_dict key) eqn:Ec; cbn [orb]; [reflexivity|].
  assert (Hex : existsb (conflict (set d key w) new_dict) ks
                = existsb (conflict d new_dict) ks).
  { clear IH Hks. induction ks as [|k ks IHks]; [reflexivity|].
    cbn [existsb]. rewrite IHks, (conflict_after_set d new_dict key k w Hw).
    destruct (key_eq key k); [subst; now rewrite Ec|reflexivity]. }
  rewrite <- Hex. apply IH. intros k Hk. apply Hks. now right.
Qed.

(** [update(new_dict, true)] throws [value_error] exactly when some key of
    [new_dict] is present with a different value; when there is no such
    key it does what [update(new_dict, false)] does. *)
Theorem update_with_check (d new_dict : dict) :
  if existsb (conflict d new_dict) (keys new_dict)
  then snd (update d new_dict true) = Some value_error
  else update d new_dict true = update d new_dict false.
Proof.
  unfold update. apply update_keys_with_check.
  intros k. apply has_key_In.
Qed.

(** *** Insertion of a range *)

(** [insert(first, last)] appends the pairs of the range without looking
    for their keys: a key that was present keeps its value for [get], the
    appended pair with that key being shadowed; the size grows by the length
    of the range. *)
Theorem get_after_insert (d : dict) (l : list (Key * Val)) (k : Key) :
  get (insert d l) k = (if has_key d k then get d k else get l k)
  /\ has_key (insert d l) k = has_key d k || has_key l k
  /\ keys (insert d l) = keys d ++ keys l
  /\ size (insert d l) = (size d + size l)%nat.
Proof.
  unfold insert, size. rewrite has_key_app, keys_app, length_app.
  repeat split.
  induction d as [|p d IH]; [reflexivity|]. cbn [app get has_key].
  destruct (key_eq (fst p) k); [reflexivity|exact IH].
Qed.

(** [emplace(first, last)] appends the one pair [(first, last)], as
    [insert] does with a range of that pair alone. *)
Lemma emplace_appends (d : dict) (first : Key) (last : Val) :
  emplace d first last = insert d [(first, last)]
  /\ keys (emplace d first last) = keys d ++ [first]
  /\ size (emplace d first last) = S (size d).
Proof.
  unfold emplace, insert, size. rewrite keys_app, length_app.
  split; [reflexivity|]. split; [reflexivity|].
  cbn [length]. apply Nat.add_1_r.
Qed.

(** [keys()] and [vals()] list the pairs in the same order: pairing them
    up gives the dictionary back. *)
Theorem keys_vals_aligned (d : dict) :
  combine (keys d) (vals d) = d
  /\ List.length (keys d) = size d /\ List.length (vals d) = size d.
Proof.
  unfold size. induction d as [|[k v] d (IH1 & IH2 & IH3)]; [auto|].
  cbn [keys vals combine List.length fst snd]. now rewrite IH1, IH2, IH3.
Qed.

(** *** Equality *)

Lemma keys_length (d : dict) : List.length (keys d) = size d.
Proof.
  unfold size. induction d as [|p d IH]; [reflexivity|]. cbn. now rewrite IH.
Qed.

Lemma In_keys (d : dict) (k : Key) (v : Val) : In (k, v) d -> In k (keys d).
Proof.
  induction d as [|p d IH]; [contradiction|]. cbn [In keys].
  intros [->|H]; [now left|right; auto].
Qed.

Lemma get_without_repeats (d : dict) (k : Key) (v : Val) :
  NoDup (keys d) -> In (k, v) d -> get d k = Ok v.
Proof.
  induction d as [|p d IH]; [contradiction|]. cbn [keys In get].
  intros Hnd Hin. inversion Hnd as [|? ? Hnotin Hnd']; subst.
  destruct Hin as [->|Hin]; cbn [fst snd].
  - destruct (key_eq k k); congruence.
  - destruct (key_eq (fst p) k) as [E|N]; [|auto].
    exfalso. apply Hnotin. rewrite E. eapply In_keys; eauto.
Qed.

(** [d == other] holds when the sizes agree and [other.get] finds, for
    each pair of [d], its key with its value. *)
Lemma op_eq_true (d other : dict) :
  op_eq d other = true <->
  size d = size other
  /\ forall k v, In (k, v) d -> get other k = Ok v.
Proof.
  unfold op_eq. destruct (Nat.eqb_spec (size d) (size other)) as [E|N].
  - rewrite forallb_forall. split.
    + intros H. split; [assumption|]. intros k v Hin.
      specialize (H _ Hin). cbn [fst snd] in H.
      apply andb_prop in H as [_ H].
      destruct (get other k) as [w|e]; [|discriminate].
      destruct (val_eq w v); congruence.
    + intros [_ H] [k v] Hin. cbn [fst snd]. specialize (H k v Hin).
      rewrite (get_ok_has_key other k v H). cbn [andb]. rewrite H.
      destruct (val_eq v v); congruence.
  - split; [discriminate|]. intros [E _]. contradiction.
Qed.

Lemma op_eq_flip (d other : dict) :
  NoDup (keys d) -> NoDup (keys other) ->
  op_eq d other = true -> op_eq other d = true.
Proof.
  intros Hd Ho H. apply op_eq_true in H as [Hs Hg]. apply op_eq_true.
  split; [auto|]. intros k w Hin.
  assert (Hincl : incl (keys other) (keys d)).
  { apply NoDup_length_incl; [assumption|rewrite !keys_length; lia|].
    intros k' Hk'. apply has_key_In in Hk'.
    destruct (get_present d k' Hk') as (v & _ & Hv & _).
    apply has_key_In. apply (get_ok_has_key other k' v). now apply Hg. }
  assert (Hk : has_key d k = true).
  { apply has_key_In. apply Hincl. eapply In_keys; eauto. }
  destruct (get_present d k Hk) as (v & Hgv & Hv & _).
  pose proof (Hg _ _ Hv) as H1.
  rewrite (get_without_repeats other k w Ho Hin) in H1. congruence.
Qed.

(** On dictionaries without repeated keys [==] is reflexive and symmetric,
    and equal dictionaries give the same answer to every lookup. *)
Theorem op_eq_without_repeats (d other : dict) :
  NoDup (keys d) -> NoDup (keys other) ->
  op_eq d d = true
  /\ op_eq d other = op_eq other d
  /\ (op_eq d other = true -> forall k, get d k = get other k).
Proof.
  intros Hd Ho. split; [|split].
  - apply op_eq_true. split; [reflexivity|].
    intros k v. now apply get_without_repeats.
  - destruct (op_eq d other) eqn:E1, (op_eq other d) eqn:E2; auto.
    + apply op_eq_flip in E1; auto. congruence.
    + apply op_eq_flip in E2; auto. congruence.
  - intros H k. pose proof (op_eq_flip d other Hd Ho H) as H'.
    apply op_eq_true in H as [_ Hg]. apply op_eq_true in H' as [_ Hg'].
    destruct (has_key d k) eqn:Ek.
    + destruct (get_present d k Ek) as (v & -> & Hv & _).
      symmetry. now apply Hg.
    + destruct (get_missing d k Ek) as [-> _].
      destruct (has_key other k) eqn:Eo.
      * destruct (get_present other k Eo) as (w & _ & Hw & _).
        pose proof (get_ok_has_key d k w (Hg' _ _ Hw)). congruence.
      * destruct (get_missing other k Eo) as [-> _]. reflexivity.
Qed.

(** *** The non-const subscript *)

(** [operator[]] on a dictionary that is not const never throws: for a key
    that is present it leaves the dictionary as it is, for a missing key it
    appends the pair of the key and [Val()]; the reference it returns
    denotes the value of a pair with that key, which is the value
    [get(key, Val())] returned before the call, and [get(key)] finds it
    afterwards. *)
Theorem subscript_inserts_default (d : dict) (key : Key) :
  fst (subscript d key)
  = (if has_key d key then d else d ++ [(key, default_val)])
  /\ nth_error (fst (subscript d key)) (snd (subscript d key))
     = Some (key, get_or d key default_val)
  /\ get (fst (subscript d key)) key = Ok (get_or d key default_val)
  /\ size (fst (subscript d key))
     = (if has_key d key then size d else S (size d)).
Proof.
  unfold size. induction d as [|p d (IH1 & IH2 & IH3 & IH4)].
  - cbn. destruct (key_eq key key); [auto|contradiction].
  - cbn [subscript has_key get_or].
    destruct (key_eq (fst p) key) as [E|N].
    + cbn [fst snd nth_error get]. destruct (key_eq (fst p) key);
        [|contradiction].
      repeat split. destruct p; cbn in *; now subst.
    + destruct (subscript d key) as [d' i]. cbn [fst snd] in *.
      cbn [nth_error get List.length app].
      destruct (key_eq (fst p) key); [contradiction|].
      rewrite IH1 at 1. rewrite IH4.
      destruct (has_key d key); auto.
Qed.

(** *** Dictionaries without repeated keys *)

Lemma set_keeps_keys_unique (d : dict) (key : Key) (val : Val) :
  NoDup (keys d) -> NoDup (keys (set d key val)).
Proof.
  intros H. destruct (keys_set d key val) as [-> _].
  destruct (has_key d key) eqn:E; [exact H|].
  apply NoDup_app; [exact H|repeat constructor; intros []|].
  intros k Hk [<-|[]]. apply has_key_In in Hk. congruence.
Qed.

Lemma update_keys_keeps_keys_unique (new_dict : dict) (f : bool)
    (ks : list Key) (d : dict) :
  NoDup (keys d) -> NoDup (keys (fst (update_keys new_dict f d ks))).
Proof.
  revert d. induction ks as [|k ks IH]; intros d H; cbn [update_keys].
  - exact H.
  - unfold update_key.
    destruct (get new_dict k) as [v|e]; [|exact H].
    destruct (f && has_key d k && _); [exact H|].
    apply IH. now apply set_keeps_keys_unique.
Qed.

(** [set] and [update] never repeat a key: on a dictionary without repeated
    keys they leave one, whether [update] throws or not. *)
Theorem unique_keys_kept (d new_dict : dict) (key : Key) (val : Val)
    (fail_on_conflict : bool) :
  NoDup (keys d) ->
  NoDup (keys (set d key val))
  /\ NoDup (keys (fst (update d new_dict fail_on_conflict))).
Proof.
  intros H. split.
  - now apply set_keeps_keys_unique.
  - now apply update_keys_keeps_keys_unique.
Qed.

End WithTypes.

(** *** Dictionaries of integers *)

(** With a repeated key [==] is neither symmetric nor reflexive, a popped
    key can still be present, and an [update] that throws has already
    added the keys it met before the conflict. *)
Lemma repeated_keys :
  op_eq Z Z Z.eq_dec Z.eq_dec [(1, 1); (1, 1)] [(1, 1); (2, 2)] = true
  /\ op_eq Z Z Z.eq_dec Z.eq_dec [(1, 1); (2, 2)] [(1, 1); (1, 1)] = false
  /\ op_eq Z Z Z.eq_dec Z.eq_dec [(1, 1); (1, 2)] [(1, 1); (1, 2)] = false
  /\ pop Z Z Z.eq_dec [(1, 1); (1, 2)] 1 = Ok (1, [(1, 2)])
  /\ update Z Z Z.eq_dec Z.eq_dec 0 [(1, 10)] [(2, 20); (1, 11)] true
     = ([(1, 10); (2, 20)], Some value_error).
Proof. vm_compute. repeat split. Qed.

Lemma pop_removes_key_witness :
  has_key Z Z Z.eq_dec [(1, 10); (3, 30)] 2 = false
  /\ NoDup (keys Z Z [(1, 10); (3, 30)]).
Proof.
  apply (pop_removes_key Z Z Z.eq_dec [(1, 10); (2, 20); (3, 30)]
           [(1, 10); (3, 30)] 2 20); [|reflexivity].
  cbn. repeat constructor; cbn; lia.
Defined.

Lemma unique_keys_kept_witness :
  NoDup (keys Z Z (set Z Z Z.eq_dec 0 [(1, 10); (2, 20)] 3 30))
  /\ NoDup (keys Z Z (fst (update Z Z Z.eq_dec Z.eq_dec 0
                             [(1, 10); (2, 20)] [(2, 21); (3, 30)] true))).
Proof.
  apply (unique_keys_kept Z Z Z.eq_dec Z.eq_dec 0 [(1, 10); (2, 20)]).
  cbn. repeat constructor; cbn; lia.
Defined.

Lemma op_eq_without_repeats_witness :
  op_eq Z Z Z.eq_dec Z.eq_dec [(1, 10); (2, 20)] [(2, 20); (1, 10)]
  = op_eq Z Z Z.eq_dec Z.eq_dec [(2, 20); (1, 10)] [(1, 10); (2, 20)].
Proof.
  apply (op_eq_without_repeats Z Z Z.eq_dec Z.eq_dec
           [(1, 10); (2, 20)] [(2, 20); (1, 10)]);
    cbn; repeat constructor; cbn; lia.
Defined.

End Dict.

(** * Rounding of binary64 operations *)

Section Faithful.

Lemma shr_1_m (x : shr_record) :
  0 <= shr_m x -> shr_m (shr_1 x) = shr_m x / 2.
Proof.
  destruct x as [m r s]. cbn [shr_m]. intros Hm.
  destruct m as [|[p|p|]|p]; cbn [shr_1 shr_m]; try lia.
  - reflexivity.
  - apply Z.div_unique with (r := 1); lia.
  - apply Z.div_unique with (r := 0); lia.
  - reflexivity.
Qed.

Lemma shr_m_iter (x : shr_record) (n : positive) :
  0 <= shr_m x ->
  shr_m (iter_pos shr_1 n x) = shr_m x / 2 ^ Zpos n.
Proof.
  intros Hx. rewrite iter_pos_eq.
  induction n as [|n IH] using Pos.peano_ind.
  - cbn [Pos.iter]. rewrite shr_1_m by assumption. reflexivity.
  - rewrite Pos.iter_succ, shr_1_m.
    + rewrite IH, Pos2Z.inj_succ, Z.pow_succ_r by lia.
      rewrite Z.div_div by (try apply Z.pow_pos_nonneg; lia).
      f_equal. lia.
    + rewrite IH. apply Z.div_pos; [assumption|].
      apply Z.pow_pos_nonneg; lia.
Qed.

(** Shifting [n] digits out of a positive mantissa: the quotient by [2^n]
    remains, and nothing is recorded as lost when they were all zero. *)
Lemma shr_spec (m : positive) (l : location) (e n : Z) :
  0 <= n ->
  let r := fst (shr (shr_record_of_loc (Zpos m) l) e n) in
  shr_m r = Zpos m / 2 ^ n
  /\ snd (shr (shr_record_of_loc (Zpos m) l) e n) = e + n
  /\ (l = loc_Exact -> Zpos m mod 2 ^ n = 0 ->
      loc_of_shr_record r = loc_Exact).
Proof.
  intros Hn r.
  assert (Hm : shr_m (shr_record_of_loc (Zpos m) l) = Zpos m)
    by (destruct l as [|[]]; reflexivity).
  destruct n as [|p|p]; try lia.
  - subst r. cbn [shr fst snd]. rewrite Hm, Z.div_1_r.
    repeat split; [lia|]. intros -> _. reflexivity.
  - subst r. cbn [shr fst snd]. rewrite shr_m_iter by (rewrite Hm; lia).
    rewrite Hm. repeat split. intros -> Hmod. cbn [shr_record_of_loc].
    assert (Hq : Zpos m = Zpos m / 2 ^ Zpos p * 2 ^ Zpos p).
    { pose proof (Z.div_mod (Zpos m) (2 ^ Zpos p)) as H.
      rewrite Hmod in H. rewrite Z.mul_comm. rewrite H at 1; [lia|].
      apply Z.pow_nonzero; lia. }
    assert (H2 : 0 < 2 ^ Zpos p) by (apply Z.pow_pos_nonneg; lia).
    destruct (Zpos m / 2 ^ Zpos p) as [|q|q] eqn:Eq; try lia.
    rewrite <- Zpos_shift in Hq. injection Hq as ->.
    now rewrite shr_trailing_zeros.
Qed.

(** Rounding a positive mantissa [m] with enough digits at the exponent
    [e]: the result is a valid double, and in units of [2^e0], the exponent
    of the format at this magnitude, it is the quotient [q] of [m] by
    [2^(e0 - e)] or [q + 1]; it is [q] when no digit is lost. *)
Lemma binary_round_aux_faithful (s : bool) (m : positive) (e : Z) (l : location) :
  let e0 := fexp 53 1024 (Zpos (digits2_pos m) + e) in
  let q := Zpos m / 2 ^ (e0 - e) in
  e <= e0 -> e0 <= 970 ->
  (binary_round_aux 53 1024 s (Zpos m) e l = S754_zero s /\ q = 0)
  \/ exists m' e',
       binary_round_aux 53 1024 s (Zpos m) e l = S754_finite s m' e'
       /\ Double.valid (S754_finite s m' e') = true
       /\ e0 <= e' <= e0 + 1
       /\ q <= Zpos m' * 2 ^ (e' - e0) <= q + 1
       /\ (l = loc_Exact -> Zpos m mod 2 ^ (e0 - e) = 0 ->
           Zpos m' * 2 ^ (e' - e0) = q).
Proof.
  intros e0 q Hle H970.
  assert (He0 : e0 = Z.max (Zpos (digits2_pos m) + e - 53) (-1074)).
  { unfold e0, fexp, SpecFloat.emin. now change IntDef.Z.max with Z.max. }
  set (n := e0 - e) in *.
  assert (Hn : 0 <= n) by (unfold n; lia).
  assert (H2n : 0 < 2 ^ n) by (apply Z.pow_pos_nonneg; lia).
  pose proof (digits2_pos_spec m) as [Hdl Hdu].
  set (d := Zpos (digits2_pos m)) in *.
  (* the quotient has at most 53 digits, and 53 of them above emin *)
  assert (Hq53 : q < 2 ^ 53).
  { apply Z.div_lt_upper_bound; [assumption|].
    rewrite <- Z.pow_add_r by lia.
    apply Z.lt_le_trans with (1 := Hdu). apply Z.pow_le_mono_r; lia. }
  assert (Hq0 : 0 <= q) by (apply Z.div_pos; lia).
  assert (Hq52 : -1074 < e0 -> 2 ^ 52 <= q).
  { intros H. apply Z.div_le_lower_bound; [assumption|].
    rewrite <- Z.pow_add_r by lia.
    replace (n + 52) with (d - 1) by (unfold n; lia). exact Hdl. }
  unfold binary_round_aux, shr_fexp. cbn [Zdigits2]. fold d e0 n.
  destruct (shr_spec m l e n Hn) as (Hm1 & He1 & Hex).
  destruct (shr (shr_record_of_loc (Zpos m) l) e n) as [mrs' e1].
  cbn [fst snd] in Hm1, He1, Hex. fold q in Hm1.
  assert (E1 : e1 = e0) by (unfold n in He1; lia). clear He1. subst e1.
  pose proof (round_nearest_even_bounds (shr_m mrs') (loc_of_shr_record mrs'))
    as Hr.
  assert (Hexact : l = loc_Exact -> Zpos m mod 2 ^ n = 0 ->
                   round_nearest_even (shr_m mrs') (loc_of_shr_record mrs')
                   = q).
  { intros Hl Hmod. rewrite (Hex Hl Hmod). cbn [round_nearest_even].
    exact Hm1. }
  set (m1 := round_nearest_even (shr_m mrs') (loc_of_shr_record mrs')) in *.
  rewrite Hm1 in Hr. clear Hm1 Hex.
  destruct m1 as [|p1|p1] eqn:Em1; try lia.
  - (* rounded to zero *)
    left. cbn [Zdigits2 shr_record_of_loc].
    assert (Hz : fexp 53 1024 (0 + e0) - e0 <= 0).
    { unfold fexp, SpecFloat.emin. change IntDef.Z.max with Z.max. lia. }
    destruct (fexp 53 1024 (0 + e0) - e0) as [|z|z] eqn:Ez; try lia;
      cbn [shr shr_m]; split; try reflexivity; lia.
  - right. pose proof (digits2_pos_spec p1) as [Hl1 Hu1].
    destruct (Z.lt_ge_cases (Zpos p1) (2 ^ 53)) as [Hlt|Hge].
    + (* no carry *)
      assert (Hd1 : Zpos (digits2_pos p1) <= 53)
        by (apply digits2_pos_le; assumption).
      assert (Hc : fexp 53 1024 (Zpos (digits2_pos p1) + e0) = e0).
      { unfold fexp, SpecFloat.emin. change IntDef.Z.max with Z.max.
        destruct (Z.eq_dec e0 (-1074)) as [E|N]; [lia|].
        assert (H52 : 2 ^ 52 <= Zpos p1) by (specialize (Hq52 ltac:(lia)); lia).
        assert (Zpos (digits2_pos p1) = 53); [|lia].
        apply digits2_pos_unique. split; [exact H52|exact Hlt]. }
      exists p1, e0. cbn [Zdigits2 shr_record_of_loc].
      rewrite Hc, Z.sub_diag. cbn [shr shr_m].
      replace (e0 <=? 1024 - 53) with true
        by (symmetry; apply Z.leb_le; lia).
      split; [reflexivity|]. split; [apply canonical_valid; [exact Hc|lia]|].
      change (2 ^ 0) with 1. rewrite Z.mul_1_r.
      split; [lia|]. split; [lia|]. intros Hl Hmod. now apply Hexact.
    + (* carry into the next power of two *)
      assert (E53 : Zpos p1 = 2 ^ 53) by lia.
      assert (Hp1 : p1 = Pos.iter xO 4503599627370496%positive 1%positive).
      { apply Pos2Z.inj. rewrite E53. reflexivity. }
      assert (Hd1 : Zpos (digits2_pos p1) = 54).
      { apply digits2_pos_unique. rewrite E53. split; [lia|].
        apply Z.pow_lt_mono_r; lia. }
      assert (Hc : fexp 53 1024 (Zpos (digits2_pos p1) + e0) - e0 = 1).
      { rewrite Hd1. unfold fexp, SpecFloat.emin.
        change IntDef.Z.max with Z.max. lia. }
      exists 4503599627370496%positive, (e0 + 1).
      cbn [Zdigits2 shr_record_of_loc]. rewrite Hc. cbn [shr].
      rewrite Hp1. change (Pos.iter xO 4503599627370496%positive 1%positive)
        with (4503599627370496~0)%positive.
      cbn [iter_pos shr_1 shr_m].
      replace (e0 + 1 <=? 1024 - 53) with true
        by (symmetry; apply Z.leb_le; lia).
      split; [reflexivity|]. split.
      { apply canonical_valid; [|lia].
        unfold fexp, SpecFloat.emin. change IntDef.Z.max with Z.max.
        change (Zpos (digits2_pos 4503599627370496)) with 53. lia. }
      replace (e0 + 1 - e0) with 1 by lia.
      change (Zpos 4503599627370496 * 2 ^ 1) with (2 ^ 53).
      split; [lia|]. split; [lia|].
      intros Hl Hmod. specialize (Hexact Hl Hmod). lia.
Qed.

End Faithful.

Section Sums.

(** Rounding a positive number [m * 2^e] whose exponent is not below that
    of the smallest doubles: exact when the digits fit, and otherwise as
    [binary_round_aux_faithful] says. *)
Lemma binary_round_faithful (s : bool) (m : positive) (e : Z) :
  let e0 := fexp 53 1024 (Zpos (digits2_pos m) + e) in
  let q := Zpos m / 2 ^ (e0 - e) in
  -1074 <= e -> e0 <= 970 ->
  exists m' e',
    binary_round 53 1024 s m e = S754_finite s m' e'
    /\ Double.valid (S754_finite s m' e') = true
    /\ ((e0 <= e /\ e' = e0 /\ Zpos m' = Zpos m * 2 ^ (e - e0))
        \/ (e < e0 /\ e0 <= e' <= e0 + 1
            /\ q <= Zpos m' * 2 ^ (e' - e0) <= q + 1
            /\ (Zpos m mod 2 ^ (e0 - e) = 0 ->
                Zpos m' * 2 ^ (e' - e0) = q))).
Proof.
  intros e0 q He H970.
  assert (He0 : e0 = Z.max (Zpos (digits2_pos m) + e - 53) (-1074)).
  { unfold e0, fexp, SpecFloat.emin. now change IntDef.Z.max with Z.max. }
  destruct (Z.le_gt_cases e0 e) as [Hle|Hgt].
  - destruct (shl_align_le m e e0 Hle) as (H1 & H2 & H3).
    exists (fst (shl_align m e e0)), e0.
    split; [apply binary_round_exact; fold e0; lia|].
    split; [apply canonical_valid; [rewrite H3; reflexivity|lia]|].
    left. auto.
  - unfold binary_round. fold e0. rewrite shl_align_gt by lia.
    destruct (binary_round_aux_faithful s m e loc_Exact)
      as [[_ Hq]|(m' & e' & Hr & Hv & He' & Hb & Hx)]; fold e0; try lia.
    + exfalso. fold e0 in Hq.
      pose proof (digits2_pos_spec m) as [Hdl _].
      assert (H2 : 0 < 2 ^ (e0 - e)) by (apply Z.pow_pos_nonneg; lia).
      assert (2 ^ (e0 - e) <= Zpos m); [|apply Z.div_small_iff in Hq; lia].
      apply Z.le_trans with (2 := Hdl). apply Z.pow_le_mono_r; lia.
    + exists m', e'. fold e0 in He', Hb, Hx. fold q in Hb, Hx.
      split; [exact Hr|]. split; [exact Hv|]. right. auto.
Qed.

(** The double sum of two fractions below 1 is a valid double below 2. *)
Lemma add_fractions (mx my : positive) (ex ey : Z) :
  Double.valid (S754_finite false mx ex) = true ->
  Double.valid (S754_finite false my ey) = true ->
  ex <= -53 -> ey <= -53 ->
  exists m' e',
    Double.add (S754_finite false mx ex) (S754_finite false my ey)
    = S754_finite false m' e'
    /\ Double.valid (S754_finite false m' e') = true
    /\ e' <= -52.
Proof.
  intros Vx Vy Hx Hy.
  pose proof (valid_finite_bounds _ _ _ Vx) as (Bx & Ex & _).
  pose proof (valid_finite_bounds _ _ _ Vy) as (By & Ey & _).
  unfold Double.add, SFadd. cbn [cond_Zopp].
  set (ez := Z.min ex ey).
  destruct (shl_align_le mx ex ez ltac:(unfold ez; lia)) as (_ & Hx' & _).
  destruct (shl_align_le my ey ez ltac:(unfold ez; lia)) as (_ & Hy' & _).
  set (ax := fst (shl_align mx ex ez)) in *.
  set (ay := fst (shl_align my ey ez)) in *.
  change (Zpos ax + Zpos ay) with (Zpos (ax + ay)). cbn [binary_normalize].
  (* the sum is at most 2 - 2^-52 *)
  set (U := 2 ^ (-53 - ez)).
  assert (HU : 0 < U) by (apply Z.pow_pos_nonneg; unfold ez; lia).
  assert (Hax : Zpos ax <= (2 ^ 53 - 1) * U).
  { rewrite Hx'. assert (2 ^ (ex - ez) <= U)
      by (apply Z.pow_le_mono_r; unfold ez; lia).
    assert (0 < 2 ^ (ex - ez)) by (apply Z.pow_pos_nonneg; unfold ez; lia).
    nia. }
  assert (Hay : Zpos ay <= (2 ^ 53 - 1) * U).
  { rewrite Hy'. assert (2 ^ (ey - ez) <= U)
      by (apply Z.pow_le_mono_r; unfold ez; lia).
    assert (0 < 2 ^ (ey - ez)) by (apply Z.pow_pos_nonneg; unfold ez; lia).
    nia. }
  assert (HS : Zpos (ax + ay) <= (2 ^ 53 - 1) * (2 * U))
    by (rewrite Pos2Z.inj_add; lia).
  assert (H2U : 2 * U = 2 ^ (-52 - ez)).
  { unfold U. replace (-52 - ez) with (Z.succ (-53 - ez)) by lia.
    rewrite Z.pow_succ_r by (unfold ez; lia). reflexivity. }
  assert (Hd : Zpos (digits2_pos (ax + ay)) <= 1 - ez).
  { apply digits2_pos_le.
    replace (1 - ez) with (53 + (-52 - ez)) by lia.
    rewrite Z.pow_add_r by (unfold ez; lia). rewrite <- H2U. lia. }
  set (d := Zpos (digits2_pos (ax + ay))) in *.
  destruct (binary_round_faithful false (ax + ay) ez)
    as (m' & e' & Hr & Hv & Hcase).
  { unfold ez. lia. }
  { unfold fexp, SpecFloat.emin. change IntDef.Z.max with Z.max. lia. }
  exists m', e'. split; [exact Hr|]. split; [exact Hv|].
  fold d in Hcase.
  assert (He0 : fexp 53 1024 (d + ez) = Z.max (d + ez - 53) (-1074)).
  { unfold fexp, SpecFloat.emin. now change IntDef.Z.max with Z.max. }
  rewrite He0 in Hcase.
  set (e0 := Z.max (d + ez - 53) (-1074)) in *.
  destruct Hcase as [(_ & -> & _)|(Hlt & He' & Hb & Hexact)]; [lia|].
  destruct (Z.eq_dec e' (e0 + 1)) as [E|N]; [|lia].
  destruct (Z.eq_dec e0 (-52)) as [E0|N0]; [|lia].
  (* a carry up to 2.0 is impossible *)
  exfalso. subst e'. replace (e0 + 1 - e0) with 1 in * by lia.
  rewrite E0 in *. rewrite <- H2U in *.
  pose proof (valid_finite_bounds _ _ _ Hv) as (_ & _ & Hn).
  specialize (Hn ltac:(lia)).
  change (2 ^ 1) with 2 in *.
  set (q := Zpos (ax + ay) / (2 * U)) in *.
  assert (Hq : q <= 2 ^ 53 - 1).
  { apply Z.lt_succ_r. apply Z.div_lt_upper_bound; lia. }
  assert (Hq' : q = 2 ^ 53 - 1) by lia.
  assert (Hmod : Zpos (ax + ay) mod (2 * U) = 0).
  { pose proof (Z.div_mod (Zpos (ax + ay)) (2 * U) ltac:(lia)) as Hdm.
    pose proof (Z.mod_pos_bound (Zpos (ax + ay)) (2 * U) ltac:(lia)).
    fold q in Hdm. nia. }
  specialize (Hexact Hmod). lia.
Qed.

End Sums.

(** ** Sums of normalized times *)

Lemma sum_of_fractions (a b : time_spec_t) :
  well_formed a = true -> well_formed b = true ->
  normalized a = true -> normalized b = true ->
  let r := Double.add (get_frac_secs a) (get_frac_secs b) in
  Double.valid r = true /\ Double.leb Double.zero r = true
  /\ exists z, Double.to_int r = Value z /\ 0 <= z <= 1.
Proof.
  intros Wa Wb Na Nb r.
  pose proof (to_int_normalized a Wa Na) as Ta.
  pose proof (to_int_normalized b Wb Nb) as Tb.
  assert (La : Double.leb Double.zero (get_frac_secs a) = true).
  { unfold normalized in Na. now apply andb_prop in Na as [Na _]. }
  assert (Lb : Double.leb Double.zero (get_frac_secs b) = true).
  { unfold normalized in Nb. now apply andb_prop in Nb as [Nb _]. }
  assert (Oa : Double.ltb (get_frac_secs a) Double.one = true).
  { unfold normalized in Na. now apply andb_prop in Na as [_ Na]. }
  assert (Ob : Double.ltb (get_frac_secs b) Double.one = true).
  { unfold normalized in Nb. now apply andb_prop in Nb as [_ Nb]. }
  unfold well_formed in Wa, Wb.
  apply andb_prop in Wa as [_ Va]. apply andb_prop in Wb as [_ Vb].
  subst r.
  destruct (normalized_cases a Na) as [[sa Ea]|(ma & ea & Ea)];
    destruct (normalized_cases b Nb) as [[sb Eb]|(mb & eb & Eb)];
    rewrite Ea, Eb in *.
  - destruct sa, sb; repeat split; exists 0; split; try reflexivity; lia.
  - change (Double.add (S754_zero sa) (S754_finite false mb eb))
      with (S754_finite false mb eb).
    repeat split; try assumption. exists 0. split; [assumption|lia].
  - change (Double.add (S754_finite false ma ea) (S754_zero sb))
      with (S754_finite false ma ea).
    repeat split; try assumption. exists 0. split; [assumption|lia].
  - apply ltb_one_inv in Oa; [|assumption].
    apply ltb_one_inv in Ob; [|assumption].
    destruct (add_fractions ma mb ea eb Va Vb) as (m' & e' & -> & Hv & He');
      try lia.
    split; [exact Hv|]. split; [reflexivity|].
    pose proof (valid_finite_bounds _ _ _ Hv) as (Hm & _ & _).
    destruct e' as [|p|p]; try lia.
    assert (H2p : 2 ^ 52 <= 2 ^ Zpos p) by (apply Z.pow_le_mono_r; lia).
    assert (Hz : 0 <= Zpos m' / 2 ^ Zpos p <= 1).
    { split; [apply Z.div_pos; lia|].
      apply Z.lt_succ_r. apply Z.div_lt_upper_bound; [lia|].
      change (2 ^ 53) with (2 * 2 ^ 52) in Hm. lia. }
    exists (Zpos m' / 2 ^ Zpos p). split; [|exact Hz].
    unfold Double.to_int. rewrite truncate_finite_neg_exp.
    unfold Int64.in_range, Int64.min_signed, Int64.max_signed.
    replace ((- 2 ^ 63 <=? Zpos m' / 2 ^ Zpos p)
             && (Zpos m' / 2 ^ Zpos p <=? 2 ^ 63 - 1)) with true;
      [reflexivity|].
    symmetry. apply andb_true_intro. rewrite !Z.leb_le. lia.
Qed.

(** The sum of two normalized times is normalized: [+] and [+=] return a
    time whose fractional seconds are a valid double in [0, 1), and whose
    value is the sum of the whole seconds plus the double sum of the two
    fractions, so that the only rounding is that of this one addition. The
    whole seconds of the sum, and one second more for the carry, have to fit
    an [int64_t]. *)
Theorem sum_is_normalized (a b : time_spec_t) :
  well_formed a = true -> well_formed b = true ->
  normalized a = true -> normalized b = true ->
  Int64.in_range (get_full_secs a + get_full_secs b) = true ->
  Int64.in_range (get_full_secs a + get_full_secs b + 1) = true ->
  exists t,
    op_add a b = Value t /\ op_add_assign a b = Value t
    /\ normalized t = true /\ well_formed t = true
    /\ (time_value t
        == inject_Z (get_full_secs a + get_full_secs b)
           + to_Q (Double.add (get_frac_secs a) (get_frac_secs b)))%Q.
Proof.
  intros Wa Wb Na Nb R0 R1.
  destruct (sum_of_fractions a b Wa Wb Na Nb) as (Hv & Hl & z & Hz & Hz01).
  set (r := Double.add (get_frac_secs a) (get_frac_secs b)) in *.
  set (full := get_full_secs a + get_full_secs b) in *.
  assert (Hr : Int64.in_range (full + z) = true).
  { assert (z = 0 \/ z = 1) as [->| ->] by lia;
      [now rewrite Z.add_0_r|assumption]. }
  destruct (set_from_nonneg full r z Hv Hl Hz Hr)
    as (Hs & Hlt & Hle & Hone & Hvalid & Hsum).
  exists (mk_time_spec (full + z) (Double.sub r (Double.of_int z))).
  assert (Hop : op_add a b
                = Value (mk_time_spec (full + z)
                                      (Double.sub r (Double.of_int z)))).
  { unfold op_add, time_spec, Int64.add, Int64.checked. fold full.
    rewrite R0. cbn [bind]. exact Hs. }
  split; [exact Hop|]. split; [exact Hop|]. split; [|split].
  - unfold normalized. cbn [get_frac_secs _frac_secs]. now rewrite Hle, Hone.
  - unfold well_formed. cbn [get_full_secs get_frac_secs _full_secs _frac_secs].
    now rewrite Hr, Hvalid.
  - unfold time_value.
    cbn [get_full_secs get_frac_secs _full_secs _frac_secs].
    rewrite inject_Z_plus, <- Hsum. ring.
Qed.

(** 0.75 s + 0.5 s *)
Lemma sum_is_normalized_witness :
  exists t,
    op_add (mk_time_spec 0 (literal 3 4)) (mk_time_spec 0 (literal 1 2))
    = Value t
    /\ normalized t = true.
Proof.
  assert (W1 : well_formed (mk_time_spec 0 (literal 3 4)) = true)
    by (vm_compute; reflexivity).
  assert (W2 : well_formed (mk_time_spec 0 (literal 1 2)) = true)
    by (vm_compute; reflexivity).
  assert (N1 : normalized (mk_time_spec 0 (literal 3 4)) = true)
    by (vm_compute; reflexivity).
  assert (N2 : normalized (mk_time_spec 0 (literal 1 2)) = true)
    by (vm_compute; reflexivity).
  destruct (sum_is_normalized _ _ W1 W2 N1 N2) as (t & H1 & _ & H2 & _).
  - vm_compute. reflexivity.
  - vm_compute. reflexivity.
  - exists t. split; assumption.
Defined.

(** ** Relative error of the operations *)

Section RelativeError.

Local Open Scope Q_scope.

(** [2^e] as a rational number. *)
Definition pow2 (e : Z) : Q := (2 # 1) ^ e.

Lemma pow2_positive (e : Z) : 0 < pow2 e.
Proof. apply Qpower_0_lt. reflexivity. Qed.

Lemma pow2_add (a b : Z) : pow2 (a + b) == pow2 a * pow2 b.
Proof. apply Qpower_plus. discriminate. Qed.

Lemma pow2_inject (n : Z) : (0 <= n)%Z -> inject_Z (2 ^ n) == pow2 n.
Proof. intros H. now apply Zpower_Qpower. Qed.

Lemma to_Q_pow2 (m : positive) (e : Z) :
  to_Q (S754_finite false m e) == inject_Z (Zpos m) * pow2 e.
Proof.
  cbn [to_Q]. destruct e as [|p|p].
  - change (2 ^ 0)%Z with 1%Z. rewrite Z.mul_1_r.
    change (pow2 0) with 1. now rewrite Qmult_1_r.
  - rewrite inject_Z_mult, pow2_inject by lia. reflexivity.
  - unfold pow2. change (Zneg p) with (- Zpos p)%Z. rewrite Qpower_opp.
    rewrite <- (pow2_inject (Zpos p)) by lia. rewrite <- pow2_pos.
    unfold Qeq, Qmult, Qinv, inject_Z. cbn [Qnum Qden].
    rewrite Pos.mul_1_l. ring.
Qed.

(** The unit roundoff of round-to-nearest is 2^-53; the bound used here is
    that of any rounding to a neighbouring double, 2^-52. *)
Definition eps : Q := 1 # 4503599627370496.

(** [a] is [b] up to the relative error [eps]. *)
Definition close (a b : Q) : Prop :=
  b * (1 - eps) <= a <= b * (1 + eps).

Lemma inject_Z_le_mult (a b : Z) (u : Q) :
  (a <= b)%Z -> 0 < u -> inject_Z a * u <= inject_Z b * u.
Proof.
  intros H Hu. apply Qmult_le_compat_r; [|now apply Qlt_le_weak].
  now rewrite <- Zle_Qle.
Qed.

(** Rounding a mantissa that stands for a number [V] between [m * 2^e] and
    [(m + 1) * 2^e], in the range of the normal doubles: the result is a
    valid double, equal to [V] up to the relative error [eps]. *)
Lemma round_close (m : positive) (e : Z) (l : location) (V : Q) :
  let e0 := fexp 53 1024 (Zpos (digits2_pos m) + e) in
  (e <= e0)%Z -> (-1074 < e0)%Z -> (e0 <= 970)%Z ->
  inject_Z (Zpos m) * pow2 e <= V -> V < inject_Z (Zpos m + 1) * pow2 e ->
  exists m' e',
    binary_round_aux 53 1024 false (Zpos m) e l = S754_finite false m' e'
    /\ Double.valid (S754_finite false m' e') = true
    /\ (e0 <= e' <= e0 + 1)%Z
    /\ close (to_Q (S754_finite false m' e')) V.
Proof.
  intros e0 Hle Hmin H970 HV1 HV2.
  assert (He0 : e0 = Z.max (Zpos (digits2_pos m) + e - 53) (-1074)).
  { unfold e0, fexp, SpecFloat.emin. now change IntDef.Z.max with Z.max. }
  set (n := (e0 - e)%Z).
  assert (Hn : (0 <= n)%Z) by (unfold n; lia).
  assert (H2n : (0 < 2 ^ n)%Z) by (apply Z.pow_pos_nonneg; lia).
  set (q := (Zpos m / 2 ^ n)%Z).
  pose proof (digits2_pos_spec m) as [Hdl Hdu].
  assert (Hq52 : (2 ^ 52 <= q)%Z).
  { apply Z.div_le_lower_bound; [assumption|].
    rewrite <- Z.pow_add_r by lia.
    replace (n + 52)%Z with (Zpos (digits2_pos m) - 1)%Z by (unfold n; lia).
    exact Hdl. }
  pose proof (Z.div_mod (Zpos m) (2 ^ n) ltac:(lia)) as Hdm.
  pose proof (Z.mod_pos_bound (Zpos m) (2 ^ n) H2n) as Hmod.
  fold q in Hdm.
  destruct (binary_round_aux_faithful false m e l)
    as [[_ Hq]|(m' & e' & Hr & Hv & He' & Hb & _)]; fold e0; try lia.
  { fold e0 n q in Hq. lia. }
  fold e0 n q in He', Hb.
  exists m', e'. split; [exact Hr|]. split; [exact Hv|]. split; [exact He'|].
  set (M := (Zpos m' * 2 ^ (e' - e0))%Z) in *.
  set (u := pow2 e0).
  assert (Hu : 0 < u) by apply pow2_positive.
  assert (Hu' : u == pow2 n * pow2 e).
  { unfold u. rewrite <- pow2_add. replace (n + e)%Z with e0 by (unfold n; lia).
    reflexivity. }
  assert (HR : to_Q (S754_finite false m' e') == inject_Z M * u).
  { rewrite to_Q_pow2. unfold M, u.
    rewrite inject_Z_mult, pow2_inject by lia.
    rewrite <- Qmult_assoc, <- pow2_add.
    replace (e' - e0 + e0)%Z with e' by lia. reflexivity. }
  assert (Hw1 : inject_Z q * u <= V).
  { apply Qle_trans with (2 := HV1). rewrite Hu', Qmult_assoc.
    rewrite <- pow2_inject, <- inject_Z_mult by lia.
    apply inject_Z_le_mult; [lia|apply pow2_positive]. }
  assert (Hw2 : V < inject_Z q * u + u).
  { apply Qlt_le_trans with (1 := HV2).
    replace (inject_Z q * u + u) with (inject_Z q * u + u) by reflexivity.
    assert (E : inject_Z q * u + u == inject_Z ((q + 1) * 2 ^ n) * pow2 e).
    { rewrite inject_Z_mult, inject_Z_plus, pow2_inject by lia.
      rewrite Hu'. change (inject_Z 1) with 1. ring. }
    rewrite E. apply inject_Z_le_mult; [lia|apply pow2_positive]. }
  assert (Hw3 : inject_Z q * u <= inject_Z M * u)
    by (apply inject_Z_le_mult; [lia|assumption]).
  assert (Hw4 : inject_Z M * u <= inject_Z q * u + u).
  { assert (E : inject_Z q * u + u == inject_Z (q + 1) * u).
    { rewrite inject_Z_plus. change (inject_Z 1) with 1. ring. }
    rewrite E. apply inject_Z_le_mult; [lia|assumption]. }
  assert (Hw5 : inject_Z (2 ^ 52) * u <= inject_Z q * u)
    by (apply inject_Z_le_mult; assumption).
  change (inject_Z (2 ^ 52)) with (4503599627370496 # 1) in Hw5.
  unfold close, eps. rewrite HR.
  set (w := inject_Z q * u) in *. set (R := inject_Z M * u) in *.
  clearbody w R u. clear - Hw1 Hw2 Hw3 Hw4 Hw5 Hu.
  split; lra.
Qed.

Lemma close_eq (a b : Q) : a == b -> 0 <= b -> close a b.
Proof. unfold close, eps. intros E H. rewrite E. split; lra. Qed.

Lemma to_Q_finite_positive (m : positive) (e : Z) :
  0 < to_Q (S754_finite false m e).
Proof.
  rewrite to_Q_pow2. apply Qmult_lt_0_compat; [reflexivity|].
  apply pow2_positive.
Qed.

(** The product of two normal positive doubles. *)
Lemma mul_close (mx my : positive) (ex ey : Z) :
  (2 ^ 52 <= Zpos mx < 2 ^ 53)%Z -> (2 ^ 52 <= Zpos my < 2 ^ 53)%Z ->
  (-1000 <= ex + ey <= 800)%Z ->
  exists m' e',
    Double.mul (S754_finite false mx ex) (S754_finite false my ey)
    = S754_finite false m' e'
    /\ Double.valid (S754_finite false m' e') = true
    /\ (ex + ey + 52 <= e' <= ex + ey + 54)%Z
    /\ close (to_Q (S754_finite false m' e'))
             (to_Q (S754_finite false mx ex) * to_Q (S754_finite false my ey)).
Proof.
  intros Hx Hy He. unfold Double.mul, SFmul. cbn [xorb].
  pose proof (digits2_pos_spec (mx * my)) as [Hdl Hdu].
  rewrite Pos2Z.inj_mul in Hdl, Hdu.
  assert (H104 : (2 ^ 104 <= Zpos mx * Zpos my)%Z).
  { change (2 ^ 104)%Z with (2 ^ 52 * 2 ^ 52)%Z. nia. }
  assert (H106 : (Zpos mx * Zpos my < 2 ^ 106)%Z).
  { change (2 ^ 106)%Z with (2 ^ 53 * 2 ^ 53)%Z. nia. }
  assert (Hd : (105 <= Zpos (digits2_pos (mx * my)) <= 106)%Z).
  { split.
    - destruct (Z.lt_ge_cases (Zpos (digits2_pos (mx * my))) 105); [|lia].
      assert (2 ^ Zpos (digits2_pos (mx * my)) <= 2 ^ 104)%Z
        by (apply Z.pow_le_mono_r; lia). lia.
    - destruct (Z.le_gt_cases (Zpos (digits2_pos (mx * my))) 106); [lia|].
      assert (2 ^ 106 <= 2 ^ (Zpos (digits2_pos (mx * my)) - 1))%Z
        by (apply Z.pow_le_mono_r; lia). lia. }
  assert (E0 : fexp 53 1024 (Zpos (digits2_pos (mx * my)) + (ex + ey))
               = (Zpos (digits2_pos (mx * my)) + (ex + ey) - 53)%Z).
  { unfold fexp, SpecFloat.emin. change IntDef.Z.max with Z.max. lia. }
  assert (EV : to_Q (S754_finite false mx ex) * to_Q (S754_finite false my ey)
               == inject_Z (Zpos (mx * my)) * pow2 (ex + ey)).
  { rewrite !to_Q_pow2, Pos2Z.inj_mul, inject_Z_mult, pow2_add. ring. }
  destruct (round_close (mx * my) (ex + ey) loc_Exact
              (to_Q (S754_finite false mx ex) * to_Q (S754_finite false my ey)))
    as (m' & e' & Hr & Hv & He' & Hc); rewrite ?E0; try lia.
  - rewrite EV. apply Qle_refl.
  - rewrite EV. apply Qmult_lt_compat_r; [apply pow2_positive|].
    rewrite <- Zlt_Qlt. lia.
  - rewrite E0 in He'. exists m', e'.
    split; [exact Hr|]. split; [exact Hv|]. split; [lia|exact Hc].
Qed.

(** The sum of two positive doubles. *)
Lemma add_close (mx my : positive) (ex ey : Z) :
  Double.valid (S754_finite false mx ex) = true ->
  Double.valid (S754_finite false my ey) = true ->
  (ex <= 900)%Z -> (ey <= 900)%Z ->
  exists m' e',
    Double.add (S754_finite false mx ex) (S754_finite false my ey)
    = S754_finite false m' e'
    /\ Double.valid (S754_finite false m' e') = true
    /\ close (to_Q (S754_finite false m' e'))
             (to_Q (S754_finite false mx ex) + to_Q (S754_finite false my ey)).
Proof.
  intros Vx Vy Hex Hey.
  pose proof (valid_finite_bounds _ _ _ Vx) as (Bx & Ex & _).
  pose proof (valid_finite_bounds _ _ _ Vy) as (By & Ey & _).
  unfold Double.add, SFadd. cbn [cond_Zopp].
  set (ez := Z.min ex ey).
  destruct (shl_align_le mx ex ez ltac:(unfold ez; lia)) as (_ & Hx' & _).
  destruct (shl_align_le my ey ez ltac:(unfold ez; lia)) as (_ & Hy' & _).
  set (ax := fst (shl_align mx ex ez)) in *.
  set (ay := fst (shl_align my ey ez)) in *.
  change (Zpos ax + Zpos ay)%Z with (Zpos (ax + ay)). cbn [binary_normalize].
  assert (EV : to_Q (S754_finite false mx ex) + to_Q (S754_finite false my ey)
               == inject_Z (Zpos (ax + ay)) * pow2 ez).
  { rewrite !to_Q_pow2, Pos2Z.inj_add, inject_Z_plus, Hx', Hy'.
    rewrite !inject_Z_mult, !pow2_inject by (unfold ez; lia).
    rewrite Qmult_plus_distr_l, <- !Qmult_assoc, <- !pow2_add.
    replace (ex - ez + ez)%Z with ex by lia.
    replace (ey - ez + ez)%Z with ey by lia. reflexivity. }
  (* the sum is below 2^(54 + max ex ey) *)
  assert (HS : (Zpos (ax + ay) < 2 ^ (954 - ez))%Z).
  { rewrite Pos2Z.inj_add, Hx', Hy'.
    assert (H1 : (2 ^ 53 * 2 ^ (ex - ez) <= 2 ^ (953 - ez))%Z).
    { rewrite <- Z.pow_add_r by (unfold ez; lia).
      apply Z.pow_le_mono_r; lia. }
    assert (H2 : (2 ^ 53 * 2 ^ (ey - ez) <= 2 ^ (953 - ez))%Z).
    { rewrite <- Z.pow_add_r by (unfold ez; lia).
      apply Z.pow_le_mono_r; lia. }
    assert (H3 : (2 ^ (954 - ez) = 2 * 2 ^ (953 - ez))%Z).
    { replace (954 - ez)%Z with (Z.succ (953 - ez)) by lia.
      rewrite Z.pow_succ_r by (unfold ez; lia). reflexivity. }
    assert (0 < 2 ^ (ex - ez))%Z by (apply Z.pow_pos_nonneg; unfold ez; lia).
    assert (0 < 2 ^ (ey - ez))%Z by (apply Z.pow_pos_nonneg; unfold ez; lia).
    rewrite H3. nia. }
  pose proof (digits2_pos_le _ _ HS) as Hd.
  set (e0 := fexp 53 1024 (Zpos (digits2_pos (ax + ay)) + ez)).
  assert (He0 : e0 = Z.max (Zpos (digits2_pos (ax + ay)) + ez - 53) (-1074)).
  { unfold e0, fexp, SpecFloat.emin. now change IntDef.Z.max with Z.max. }
  destruct (Z.le_gt_cases e0 ez) as [Hle|Hgt].
  - destruct (shl_align_le (ax + ay) ez e0 Hle) as (H1 & H2 & H3).
    exists (fst (shl_align (ax + ay) ez e0)), e0.
    unfold Double.prec, Double.emax.
    split; [apply binary_round_exact; fold e0; lia|].
    split; [apply canonical_valid; [rewrite H3; reflexivity|lia]|].
    apply close_eq.
    + rewrite EV. rewrite to_Q_pow2, H2, inject_Z_mult, pow2_inject by lia.
      rewrite <- Qmult_assoc, <- pow2_add.
      replace (ez - e0 + e0)%Z with ez by lia. reflexivity.
    + rewrite EV. apply Qmult_le_0_compat; [discriminate|].
      apply Qlt_le_weak, pow2_positive.
  - unfold Double.prec, Double.emax, binary_round. fold e0.
    rewrite shl_align_gt by lia.
    assert (Hmin : (-1074 < e0)%Z) by (unfold ez in *; lia).
    assert (H970 : (e0 <= 970)%Z) by lia.
    destruct (round_close (ax + ay) ez loc_Exact
                (to_Q (S754_finite false mx ex)
                 + to_Q (S754_finite false my ey)))
      as (m' & e' & Hr & Hv & _ & Hc); fold e0; try lia.
    + rewrite EV. apply Qle_refl.
    + rewrite EV. apply Qmult_lt_compat_r; [apply pow2_positive|].
      rewrite <- Zlt_Qlt. lia.
    + exists m', e'. auto.
Qed.

Lemma digits_normal (m : positive) :
  (2 ^ 52 <= Zpos m < 2 ^ 53)%Z -> Zpos (digits2_pos m) = 53%Z.
Proof. intros H. now apply digits2_pos_unique. Qed.

(** The integer quotient that [SFdiv] rounds, for normal operands. *)
Lemma SFdiv_core_normal (mx my : positive) (ex ey : Z) :
  (2 ^ 52 <= Zpos mx < 2 ^ 53)%Z -> (2 ^ 52 <= Zpos my < 2 ^ 53)%Z ->
  (-1000 <= ex - ey)%Z ->
  SFdiv_core_binary 53 1024 (Zpos mx) ex (Zpos my) ey
  = ((Zpos mx * 2 ^ 53) / Zpos my,
     ex - ey - 53,
     new_location (Zpos my) ((Zpos mx * 2 ^ 53) mod Zpos my))%Z.
Proof.
  intros Hx Hy He. unfold SFdiv_core_binary. cbn [Zdigits2].
  rewrite (digits_normal mx Hx), (digits_normal my Hy).
  assert (E : Z.min (fexp 53 1024 (53 + ex - (53 + ey))) (ex - ey)
              = (ex - ey - 53)%Z).
  { unfold fexp, SpecFloat.emin. change IntDef.Z.max with Z.max. lia. }
  change IntDef.Z.min with Z.min. rewrite E.
  replace (ex - ey - (ex - ey - 53))%Z with 53%Z by lia.
  rewrite Z.shiftl_mul_pow2 by lia.
  unfold Z.div, Z.modulo.
  destruct (Z.div_eucl (Zpos mx * 2 ^ 53) (Zpos my)) as [q r]. reflexivity.
Qed.

(** The quotient of two normal positive doubles. *)
Lemma div_close (mx my : positive) (ex ey : Z) :
  (2 ^ 52 <= Zpos mx < 2 ^ 53)%Z -> (2 ^ 52 <= Zpos my < 2 ^ 53)%Z ->
  (-1000 <= ex - ey <= 900)%Z ->
  exists m' e',
    Double.div (S754_finite false mx ex) (S754_finite false my ey)
    = S754_finite false m' e'
    /\ Double.valid (S754_finite false m' e') = true
    /\ (ex - ey - 53 <= e' <= ex - ey - 51)%Z
    /\ close (to_Q (S754_finite false m' e'))
             (to_Q (S754_finite false mx ex) / to_Q (S754_finite false my ey)).
Proof.
  intros Hx Hy He. unfold Double.div, SFdiv, Double.prec, Double.emax.
  rewrite SFdiv_core_normal by lia. cbn [xorb].
  set (N := (Zpos mx * 2 ^ 53)%Z).
  pose proof (Z.div_mod N (Zpos my) ltac:(lia)) as Hdm.
  pose proof (Z.mod_pos_bound N (Zpos my) ltac:(lia)) as Hmod.
  assert (Hq52 : (2 ^ 52 <= N / Zpos my)%Z).
  { apply Z.div_le_lower_bound; [lia|]. unfold N.
    change (2 ^ 53)%Z with (2 * 2 ^ 52)%Z in *. nia. }
  assert (Hq54 : (N / Zpos my < 2 ^ 54)%Z).
  { apply Z.div_lt_upper_bound; [lia|]. unfold N.
    change (2 ^ 54)%Z with (2 * 2 ^ 53)%Z.
    change (2 ^ 53)%Z with (2 * 2 ^ 52)%Z in *. nia. }
  destruct (N / Zpos my)%Z as [|qp|qp] eqn:Eq; try lia.
  assert (Hd : (53 <= Zpos (digits2_pos qp) <= 54)%Z).
  { pose proof (digits2_pos_spec qp) as [Hdl Hdu]. split.
    - destruct (Z.lt_ge_cases (Zpos (digits2_pos qp)) 53); [|lia].
      assert (2 ^ Zpos (digits2_pos qp) <= 2 ^ 52)%Z
        by (apply Z.pow_le_mono_r; lia). lia.
    - now apply digits2_pos_le. }
  set (e' := (ex - ey - 53)%Z).
  assert (E0 : fexp 53 1024 (Zpos (digits2_pos qp) + e')
               = (Zpos (digits2_pos qp) + e' - 53)%Z).
  { unfold fexp, SpecFloat.emin, e'. change IntDef.Z.max with Z.max. lia. }
  set (u := pow2 e' * pow2 ey).
  assert (Hu : 0 < u).
  { apply Qmult_lt_0_compat; apply pow2_positive. }
  assert (Ex : to_Q (S754_finite false mx ex) == inject_Z N * u).
  { rewrite to_Q_pow2. unfold N, u.
    rewrite inject_Z_mult, pow2_inject by lia.
    rewrite <- Qmult_assoc. rewrite <- !pow2_add.
    replace (53 + (e' + ey))%Z with ex by (unfold e'; lia). reflexivity. }
  assert (Hy0 : 0 < to_Q (S754_finite false my ey))
    by apply to_Q_finite_positive.
  destruct (round_close qp e'
              (new_location (Zpos my) (N mod Zpos my))
              (to_Q (S754_finite false mx ex) / to_Q (S754_finite false my ey)))
    as (m'' & e'' & Hr & Hv & He'' & Hc); rewrite ?E0; try (unfold e'; lia);
    [| |rewrite E0 in He''; exists m'', e''; unfold e' in *;
        split; [exact Hr|]; split; [exact Hv|]; split; [lia|exact Hc]].
  - apply Qle_shift_div_l; [exact Hy0|].
    rewrite Ex, (to_Q_pow2 my ey).
    setoid_replace (inject_Z (Zpos qp) * pow2 e'
                    * (inject_Z (Zpos my) * pow2 ey))
      with (inject_Z (Zpos qp * Zpos my) * u)
      by (unfold u; rewrite inject_Z_mult; ring).
    apply inject_Z_le_mult; [lia|exact Hu].
  - apply Qlt_shift_div_r; [exact Hy0|].
    rewrite Ex, (to_Q_pow2 my ey).
    setoid_replace (inject_Z (Zpos qp + 1) * pow2 e'
                    * (inject_Z (Zpos my) * pow2 ey))
      with (inject_Z ((Zpos qp + 1) * Zpos my) * u)
      by (unfold u; rewrite (inject_Z_mult (Zpos qp + 1)); ring).
    apply Qmult_lt_compat_r; [exact Hu|]. rewrite <- Zlt_Qlt. lia.
Qed.

(** An integer of at most 53 bits is a normal double. *)
Lemma of_int_normal (z : Z) :
  (1 <= z < 2 ^ 53)%Z ->
  exists m e,
    Double.of_int z = S754_finite false m e
    /\ Double.valid (S754_finite false m e) = true
    /\ (2 ^ 52 <= Zpos m < 2 ^ 53)%Z /\ (-52 <= e <= 0)%Z
    /\ to_Q (S754_finite false m e) == inject_Z z.
Proof.
  intros [H1 H53]. destruct z as [|p|p]; try lia.
  rewrite (of_int_small p H53).
  pose proof (digits2_pos_le p 53 H53) as Hd.
  pose proof (Pos2Z.is_pos (digits2_pos p)) as Hd0.
  set (e := (Zpos (digits2_pos p) - 53)%Z) in *.
  destruct (shl_align_le p 0 e ltac:(unfold e; lia)) as (_ & Hm & Hdm).
  set (m := fst (shl_align p 0 e)) in *.
  assert (Hdig : Zpos (digits2_pos m) = 53%Z) by (unfold e in Hdm; lia).
  pose proof (digits2_pos_spec m) as Hs. rewrite Hdig in Hs.
  exists m, e. split; [reflexivity|]. split.
  { apply canonical_valid; [|unfold e; lia]. rewrite Hdig.
    unfold fexp, SpecFloat.emin, e. change IntDef.Z.max with Z.max. lia. }
  split; [exact Hs|]. split; [unfold e; lia|].
  rewrite to_Q_pow2, Hm, inject_Z_mult, pow2_inject by (unfold e; lia).
  rewrite <- Qmult_assoc, <- pow2_add.
  replace (0 - e + e)%Z with 0%Z by lia. change (pow2 0) with 1. ring.
Qed.

Lemma Qfloor_unique (x : Q) (n : Z) :
  inject_Z n <= x -> x < inject_Z (n + 1) -> Qfloor x = n.
Proof.
  intros H1 H2. pose proof (Qfloor_le x) as H3.
  pose proof (Qlt_floor x) as H4.
  assert (H5 : (n < Qfloor x + 1)%Z).
  { rewrite Zlt_Qlt. apply Qle_lt_trans with (1 := H1). exact H4. }
  assert (H6 : (Qfloor x < n + 1)%Z).
  { rewrite Zlt_Qlt. apply Qle_lt_trans with (1 := H3). exact H2. }
  lia.
Qed.

(** A valid positive double of value below 1 compares below 1.0. *)
Lemma ltb_one_of_value (m : positive) (e : Z) :
  Double.valid (S754_finite false m e) = true ->
  to_Q (S754_finite false m e) < 1 ->
  Double.ltb (S754_finite false m e) Double.one = true.
Proof.
  intros Hv Hq. apply ltb_one_small_exp.
  destruct (Z.lt_ge_cases e (-52)) as [H|H]; [exact H|exfalso].
  apply valid_finite_bounds in Hv as (_ & _ & Hn).
  specialize (Hn ltac:(lia)).
  rewrite to_Q_pow2 in Hq.
  assert (Hp : pow2 e == inject_Z (2 ^ (e + 52)) * pow2 (-52)).
  { rewrite pow2_inject by lia. rewrite <- pow2_add.
    replace (e + 52 + -52)%Z with e by lia. reflexivity. }
  rewrite Hp, Qmult_assoc, <- inject_Z_mult in Hq.
  assert (H1 : (2 ^ 52 <= Zpos m * 2 ^ (e + 52))%Z).
  { assert (1 <= 2 ^ (e + 52))%Z
      by (apply Z.pow_le_mono_r with (b := 0%Z); lia). nia. }
  rewrite Zle_Qle in H1.
  change (pow2 (-52)) with (1 # 4503599627370496) in Hq.
  change (inject_Z (2 ^ 52)) with (4503599627370496 # 1) in H1.
  set (X := inject_Z (Zpos m * 2 ^ (e + 52))) in *. clearbody X. lra.
Qed.

End RelativeError.

(** ** Numbers that are doubles *)

Section Representable.

Lemma digits2_pos_mul_pow2 (m n : positive) (k : Z) :
  0 <= k -> Zpos n = Zpos m * 2 ^ k ->
  Zpos (digits2_pos n) = Zpos (digits2_pos m) + k.
Proof.
  intros Hk E. apply digits2_pos_unique.
  pose proof (digits2_pos_spec m) as [Hl Hu].
  rewrite E.
  replace (Zpos (digits2_pos m) + k - 1)
    with (Zpos (digits2_pos m) - 1 + k) by lia.
  rewrite !Z.pow_add_r by lia.
  assert (0 < 2 ^ k) by (apply Z.pow_pos_nonneg; lia).
  split; nia.
Qed.

Lemma pow2_nonzero (e : Z) : ~ (pow2 e == 0)%Q.
Proof.
  intros E. pose proof (pow2_positive e) as H. rewrite E in H.
  now apply Qlt_irrefl in H.
Qed.

(** Rounding to nearest returns a number that is a double unchanged. *)
Lemma binary_round_representable (n : positive) (ez : Z)
    (md : positive) (ed : Z) :
  Double.valid (S754_finite false md ed) = true -> ed <= 970 ->
  -1074 <= ez ->
  (to_Q (S754_finite false md ed) == inject_Z (Zpos n) * pow2 ez)%Q ->
  binary_round 53 1024 false n ez = S754_finite false md ed.
Proof.
  intros V Hed Hez HQ. rewrite to_Q_pow2 in HQ.
  pose proof (valid_finite _ _ _ V) as [Hc _]. unfold emin in Hc.
  assert (Hfexp : forall x, fexp 53 1024 x = Z.max (x - 53) (-1074)).
  { intros x. unfold fexp, SpecFloat.emin. now change IntDef.Z.max with Z.max. }
  destruct (Z_le_gt_dec ez ed) as [Hge|Hlt].
  - assert (EZ : Zpos n = Zpos md * 2 ^ (ed - ez)).
    { apply inject_Z_injective. rewrite inject_Z_mult, pow2_inject by lia.
      apply (proj1 (Qmult_inj_r _ _ (pow2 ez) (pow2_nonzero ez))).
      rewrite <- HQ, <- Qmult_assoc, <- pow2_add.
      replace (ed - ez + ez) with ed by lia. reflexivity. }
    pose proof (digits2_pos_mul_pow2 md n (ed - ez) ltac:(lia) EZ) as Hd.
    assert (He0 : fexp 53 1024 (Zpos (digits2_pos n) + ez) = ed).
    { rewrite Hfexp, Hd. lia. }
    destruct (Z.eq_dec ed ez) as [E|NE].
    + replace (ed - ez) with 0 in EZ by lia.
      change (2 ^ 0) with 1 in EZ. rewrite Z.mul_1_r in EZ.
      apply Pos2Z.inj in EZ.
      pose proof (binary_round_exact false n ez) as H. cbv zeta in H.
      rewrite He0 in H. rewrite H by lia.
      rewrite shl_align_gt by lia. now rewrite EZ.
    + pose proof (binary_round_faithful false n ez) as H. cbv zeta in H.
      rewrite He0 in H.
      destruct (H Hez ltac:(lia)) as (m' & e' & Hr & Hv & Hcase).
      destruct Hcase as [(Hle & _)|(_ & Hrange & _ & Hex)]; [lia|].
      assert (H2 : 0 < 2 ^ (ed - ez)) by (apply Z.pow_pos_nonneg; lia).
      rewrite EZ in Hex. rewrite Z.mod_mul, Z.div_mul in Hex by lia.
      specialize (Hex eq_refl).
      rewrite Hr.
      destruct (Z.eq_dec e' ed) as [E'|NE'].
      * subst e'. rewrite Z.sub_diag, Z.mul_1_r in Hex.
        apply Pos2Z.inj in Hex. now subst m'.
      * exfalso. assert (Ee : e' = ed + 1) by lia. subst e'.
        replace (ed + 1 - ed) with 1 in Hex by lia.
        pose proof (digits2_pos_mul_pow2 m' md 1 ltac:(lia)
                      ltac:(symmetry; exact Hex)) as Hd'.
        pose proof (valid_finite _ _ _ Hv) as [Hc' _]. unfold emin in Hc'.
        lia.
  - assert (EZ : Zpos md = Zpos n * 2 ^ (ez - ed)).
    { apply inject_Z_injective. rewrite inject_Z_mult, pow2_inject by lia.
      apply (proj1 (Qmult_inj_r _ _ (pow2 ed) (pow2_nonzero ed))).
      rewrite HQ, <- Qmult_assoc, <- pow2_add.
      replace (ez - ed + ed) with ez by lia. reflexivity. }
    pose proof (digits2_pos_mul_pow2 n md (ez - ed) ltac:(lia) EZ) as Hd.
    assert (He0 : fexp 53 1024 (Zpos (digits2_pos n) + ez) = ed).
    { rewrite Hfexp. lia. }
    pose proof (binary_round_exact false n ez) as H. cbv zeta in H.
    rewrite He0 in H. rewrite H by lia.
    destruct (shl_align_le n ez ed ltac:(lia)) as (_ & Hm & _).
    f_equal. apply Pos2Z.inj. lia.
Qed.

(** A fraction with an exponent below -52 has a value below 1. *)
Lemma fraction_below_one (m : positive) (e : Z) :
  Double.valid (S754_finite false m e) = true -> e < -52 ->
  (0 < to_Q (S754_finite false m e) < 1)%Q.
Proof.
  intros V He. split; [apply to_Q_finite_positive|].
  pose proof (valid_finite_bounds _ _ _ V) as (Hm & _ & _).
  rewrite to_Q_pow2.
  assert (Hp : (pow2 (-53) == pow2 e * inject_Z (2 ^ (-53 - e)))%Q).
  { rewrite pow2_inject by lia. rewrite <- pow2_add.
    replace (e + (-53 - e)) with (-53) by lia. reflexivity. }
  assert (HK : (1 <= inject_Z (2 ^ (-53 - e)))%Q).
  { rewrite <- (Zle_Qle 1).
    apply (Z.pow_le_mono_r 2 0 (-53 - e)); lia. }
  assert (HM : (inject_Z (Zpos m) <= 9007199254740991 # 1)%Q).
  { change (9007199254740991 # 1)%Q with (inject_Z (2 ^ 53 - 1)).
    rewrite <- Zle_Qle. lia. }
  assert (HP : (0 < pow2 e)%Q) by apply pow2_positive.
  assert (H1 : (inject_Z (Zpos m) * pow2 e
                <= (9007199254740991 # 1) * pow2 e)%Q).
  { apply Qmult_le_compat_r; [exact HM|]. now apply Qlt_le_weak. }
  assert (H2 : (1 * pow2 e <= inject_Z (2 ^ (-53 - e)) * pow2 e)%Q).
  { apply Qmult_le_compat_r; [exact HK|]. now apply Qlt_le_weak. }
  rewrite (Qmult_comm (inject_Z _) (pow2 e)), <- Hp in H2.
  change (pow2 (-53)) with (1 # 9007199254740992)%Q in H2.
  set (P := pow2 e) in *. set (M := inject_Z (Zpos m)) in *.
  clearbody P M. lra.
Qed.

(** A double below 2^(52 + j) has an exponent below [j]. *)
Lemma exponent_below (m : positive) (e j : Z) :
  Double.valid (S754_finite false m e) = true -> 0 <= j ->
  (to_Q (S754_finite false m e) < inject_Z (2 ^ (52 + j)))%Q -> e < j.
Proof.
  intros V Hj H. destruct (Z_lt_le_dec e j) as [|He]; [assumption|exfalso].
  pose proof (valid_finite_bounds _ _ _ V) as (_ & _ & Hn).
  assert (Hm : 2 ^ 52 <= Zpos m) by (apply Hn; unfold emin; lia).
  assert (E : (to_Q (S754_finite false m e) == inject_Z (Zpos m * 2 ^ e))%Q).
  { rewrite to_Q_pow2, inject_Z_mult, pow2_inject by lia. reflexivity. }
  rewrite E in H. rewrite <- Zlt_Qlt in H.
  rewrite Z.pow_add_r in H by lia.
  assert (2 ^ j <= 2 ^ e) by (apply Z.pow_le_mono_r; lia).
  assert (0 < 2 ^ j) by (apply Z.pow_pos_nonneg; lia). nia.
Qed.

(** The sum of two positive doubles, when the exact sum is a double. *)
Lemma add_exact (mx my : positive) (ex ey : Z) (md : positive) (ed : Z) :
  Double.valid (S754_finite false mx ex) = true ->
  Double.valid (S754_finite false my ey) = true ->
  Double.valid (S754_finite false md ed) = true -> ed <= 970 ->
  (to_Q (S754_finite false md ed)
   == to_Q (S754_finite false mx ex) + to_Q (S754_finite false my ey))%Q ->
  Double.add (S754_finite false mx ex) (S754_finite false my ey)
  = S754_finite false md ed.
Proof.
  intros Vx Vy Vd Hed HQ.
  pose proof (valid_finite_bounds _ _ _ Vx) as (Bx & Ex & _).
  pose proof (valid_finite_bounds _ _ _ Vy) as (By & Ey & _).
  unfold emin in Ex, Ey.
  unfold Double.add, SFadd. cbn [cond_Zopp].
  set (ez := Z.min ex ey).
  destruct (shl_align_le mx ex ez ltac:(unfold ez; lia)) as (_ & Hx' & _).
  destruct (shl_align_le my ey ez ltac:(unfold ez; lia)) as (_ & Hy' & _).
  set (ax := fst (shl_align mx ex ez)) in *.
  set (ay := fst (shl_align my ey ez)) in *.
  change (Zpos ax + Zpos ay)%Z with (Zpos (ax + ay)). cbn [binary_normalize].
  unfold Double.prec, Double.emax.
  apply binary_round_representable; [exact Vd|exact Hed|unfold ez; lia|].
  rewrite HQ.
  rewrite !to_Q_pow2, Pos2Z.inj_add, inject_Z_plus, Hx', Hy'.
  rewrite !inject_Z_mult, !pow2_inject by (unfold ez; lia).
  rewrite Qmult_plus_distr_l, <- !Qmult_assoc, <- !pow2_add.
  replace (ex - ez + ez)%Z with ex by lia.
  replace (ey - ez + ez)%Z with ey by lia. reflexivity.
Qed.

End Representable.


(** ** Round trips at integer tick rates *)

Section IntegerRateRoundTrip.

Lemma in_range_small (z : Z) :
  - 2 ^ 63 <= z <= 2 ^ 63 - 1 -> Int64.in_range z = true.
Proof.
  intros H. unfold Int64.in_range, Int64.min_signed, Int64.max_signed.
  apply andb_true_intro. rewrite !Z.leb_le. exact H.
Qed.

Lemma in_range_bounds (z : Z) :
  Int64.in_range z = true -> - 2 ^ 63 <= z <= 2 ^ 63 - 1.
Proof.
  unfold Int64.in_range, Int64.min_signed, Int64.max_signed.
  intros H. apply andb_prop in H. rewrite !Z.leb_le in H. exact H.
Qed.

(** A relative error of [eps] on a tick count of at most 48 bits is less
    than a quarter of a tick. *)
Lemma close_quarter (x : Q) (te : Z) :
  1 <= te <= 2 ^ 48 -> close x (inject_Z te) ->
  (inject_Z te - (1 # 4) <= x <= inject_Z te + (1 # 4))%Q.
Proof.
  intros Hte C.
  assert (HT : (inject_Z te <= inject_Z (2 ^ 48))%Q)
    by (rewrite <- Zle_Qle; lia).
  change (inject_Z (2 ^ 48)) with (281474976710656 # 1)%Q in HT.
  unfold close, eps in C. set (T := inject_Z te) in *. clearbody T.
  split; lra.
Qed.

(** Rounding the product of the integer rate [i] and a fraction that is
    within a quarter of a tick of [te / i] gives [te]. *)
Lemma llround_ticks (i te : Z) (mq : positive) (eq : Z) :
  1 <= i <= 2 ^ 48 -> 1 <= te < i -> -200 <= eq <= 1 ->
  Double.valid (S754_finite false mq eq) = true ->
  (inject_Z te - (1 # 4) <= to_Q (S754_finite false mq eq) * inject_Z i
   <= inject_Z te + (1 # 4))%Q ->
  exists mp ep,
    Double.mul (S754_finite false mq eq) (Double.of_int i)
    = S754_finite false mp ep
    /\ fast_llround (S754_finite false mp ep) = Value te.
Proof.
  intros Hi Hte Heq Vq Cq.
  assert (Hi53 : 1 <= i < 2 ^ 53) by lia.
  destruct (of_int_normal i Hi53) as (mi & ei & Er & Vi & Ni & Ei & Qi).
  pose proof (valid_finite_bounds _ _ _ Vq) as (_ & _ & Nq).
  destruct (mul_close mq mi eq ei) as (mp & ep & Ep & Vp & Bp & Cp).
  { split; [apply Nq; unfold SpecFloat.emin; lia|].
    apply (valid_finite_bounds _ _ _ Vq). }
  { exact Ni. }
  { lia. }
  rewrite Er, Ep. exists mp, ep. split; [reflexivity|].
  unfold fast_llround, Double.half.
  destruct (add_close mp 4503599627370496 ep (-53) Vp)
    as (my & ey & Ey & Vy & Cy); [reflexivity|lia|lia|].
  rewrite Ey. unfold Double.to_int. rewrite truncate_floor.
  assert (Hh : (to_Q (S754_finite false 4503599627370496 (-53)) == 1 # 2)%Q)
    by reflexivity.
  unfold close in Cy. rewrite Hh in Cy. clear Hh.
  unfold close in Cp. rewrite Qi in Cp.
  assert (HT : (inject_Z te <= inject_Z (2 ^ 48))%Q)
    by (rewrite <- Zle_Qle; lia).
  assert (HT1 : (inject_Z 1 <= inject_Z te)%Q)
    by (rewrite <- Zle_Qle; lia).
  change (inject_Z (2 ^ 48)) with (281474976710656 # 1)%Q in HT.
  change (inject_Z 1) with 1%Q in HT1.
  rewrite (Qfloor_unique _ te).
  - now rewrite (in_range_small te) by lia.
  - unfold eps in *.
    set (X := (to_Q (S754_finite false mq eq) * inject_Z i)%Q) in *.
    set (P := to_Q (S754_finite false mp ep)) in *.
    set (Y := to_Q (S754_finite false my ey)) in *.
    set (T := inject_Z te) in *.
    clearbody X P Y T. lra.
  - rewrite inject_Z_plus. change (inject_Z 1) with 1%Q.
    unfold eps in *.
    set (X := (to_Q (S754_finite false mq eq) * inject_Z i)%Q) in *.
    set (P := to_Q (S754_finite false mp ep)) in *.
    set (Y := to_Q (S754_finite false my ey)) in *.
    set (T := inject_Z te) in *.
    clearbody X P Y T. lra.
Qed.

(** [to_ticks] on a time whose fractional seconds are within a quarter of
    a tick of [te / i]. *)
Lemma to_ticks_close (s i te : Z) (mq : positive) (eq : Z) :
  1 <= i <= 2 ^ 48 -> 1 <= te < i -> -200 <= eq <= 1 ->
  Int64.in_range s = true ->
  Int64.in_range (s * i) = true -> Int64.in_range (s * i + te) = true ->
  Double.valid (S754_finite false mq eq) = true ->
  (inject_Z te - (1 # 4) <= to_Q (S754_finite false mq eq) * inject_Z i
   <= inject_Z te + (1 # 4))%Q ->
  to_ticks (mk_time_spec s (S754_finite false mq eq)) (Double.of_int i)
  = Value (s * i + te).
Proof.
  intros Hi Hte Heq Rs Rsi Rk Vq Cq.
  assert (Hi53 : 1 <= i < 2 ^ 53) by lia.
  destruct (to_int_of_int i Hi53) as (Hti & mi & ei & Er).
  destruct (mul_zero_r _ (of_int_finite_or_zero s Rs)) as [s0 Hs0].
  destruct (llround_ticks i te mq eq Hi Hte Heq Vq Cq)
    as (mp & ep & Ep & Hp).
  unfold to_ticks. rewrite Hti. cbn [bind].
  cbn [get_full_secs get_frac_secs _full_secs _frac_secs].
  rewrite Ep. rewrite Er, sub_same.
  unfold Int64.mul, Int64.checked. rewrite Rsi. cbn [bind].
  fold Double.zero. rewrite Hs0.
  replace (Double.add (S754_zero s0) (S754_finite false mp ep))
    with (S754_finite false mp ep) by reflexivity.
  rewrite Hp. cbn [bind].
  unfold Int64.add, Int64.checked. now rewrite Rk.
Qed.

(** The fractional seconds that [from_ticks] computes for [te] ticks at
    the integer rate [i]. *)
Lemma integer_rate_fraction (te i : Z) :
  1 <= i <= 2 ^ 48 -> 1 <= te < i ->
  exists mq eq,
    Double.div (Double.of_int te) (Double.of_int i) = S754_finite false mq eq
    /\ Double.valid (S754_finite false mq eq) = true
    /\ -110 <= eq <= 1
    /\ Double.ltb (S754_finite false mq eq) Double.one = true
    /\ close (to_Q (S754_finite false mq eq) * inject_Z i) (inject_Z te).
Proof.
  intros Hi Hte.
  destruct (of_int_normal i ltac:(lia)) as (mi & ei & Er & Vi & Ni & Ei & Qi).
  destruct (of_int_normal te ltac:(lia))
    as (mt & et & Et & Vt & Nt & Ete & Qt).
  destruct (div_close mt mi et ei Nt Ni ltac:(lia))
    as (mq & eq & Eq & Vq & Bq & Cq).
  rewrite Er, Et, Eq. exists mq, eq.
  split; [reflexivity|]. split; [exact Vq|]. split; [lia|].
  unfold close in Cq. rewrite Qt, Qi in Cq.
  assert (HI : (0 < inject_Z i)%Q) by (rewrite <- (Zlt_Qlt 0); lia).
  assert (HT : (0 < inject_Z te)%Q) by (rewrite <- (Zlt_Qlt 0); lia).
  assert (HZ : te * 2 ^ 48 <= (2 ^ 48 - 1) * i).
  { set (P := 2 ^ 48) in *. clearbody P. nia. }
  rewrite Zle_Qle, !inject_Z_mult in HZ.
  change (inject_Z (2 ^ 48)) with (281474976710656 # 1)%Q in HZ.
  change (inject_Z (2 ^ 48 - 1)) with (281474976710655 # 1)%Q in HZ.
  set (Q0 := to_Q (S754_finite false mq eq)) in *.
  set (T := inject_Z te) in *. set (I := inject_Z i) in *.
  assert (HD : (T / I <= 281474976710655 # 281474976710656)%Q).
  { apply Qle_shift_div_r; [exact HI|]. clearbody T I. lra. }
  assert (HD0 : (0 <= T / I)%Q).
  { apply Qle_shift_div_l; [exact HI|]. clearbody T I. lra. }
  assert (HM : (T / I * I == T)%Q).
  { field. intros E. rewrite E in HI. discriminate. }
  split.
  - apply ltb_one_of_value; [exact Vq|]. fold Q0. unfold eps in Cq.
    set (D := (T / I)%Q) in *. clearbody Q0 D. lra.
  - destruct Cq as [C1 C2]. unfold close. split.
    + rewrite <- HM at 1.
      setoid_replace (T / I * I * (1 - eps))%Q
        with (T / I * (1 - eps) * I)%Q by ring.
      apply Qmult_le_compat_r; [exact C1|]. apply Qlt_le_weak, HI.
    + rewrite <- HM at 1.
      setoid_replace (T / I * I * (1 + eps))%Q
        with (T / I * (1 + eps) * I)%Q by ring.
      apply Qmult_le_compat_r; [exact C2|]. apply Qlt_le_weak, HI.
Qed.

(** The time of [full] whole seconds and [te] ticks at the integer rate
    [i]: it is normalized, and both conversions to ticks are exact. *)
Lemma fraction_time (full te i : Z) :
  1 <= i <= 2 ^ 48 -> 0 <= te < i -> Int64.in_range full = true ->
  let t := mk_time_spec full
             (Double.div (Double.of_int te) (Double.of_int i)) in
  time_spec full (Double.div (Double.of_int te) (Double.of_int i)) = Value t
  /\ normalized t = true /\ well_formed t = true
  /\ get_tick_count t (Double.of_int i) = Value te
  /\ (Int64.in_range (full * i) = true ->
      Int64.in_range (full * i + te) = true ->
      to_ticks t (Double.of_int i) = Value (full * i + te)).
Proof.
  intros Hi Ht Rs t. unfold time_spec.
  assert (Hi53 : 1 <= i < 2 ^ 53) by lia.
  destruct (Z.eq_dec te 0) as [E0|E0].
  - destruct (to_int_of_int i Hi53) as (Hti & mi & ei & Er).
    destruct (mul_zero_r _ (of_int_finite_or_zero _ Rs)) as [s0 Hs0].
    assert (Eq : Double.div (Double.of_int te) (Double.of_int i)
                 = Double.zero) by (rewrite E0, Er; reflexivity).
    unfold t. rewrite Eq.
    assert (Hn : normalized (mk_time_spec full Double.zero) = true)
      by reflexivity.
    assert (Hw : well_formed (mk_time_spec full Double.zero) = true).
    { unfold well_formed. cbn [get_full_secs _full_secs]. now rewrite Rs. }
    split; [now apply set_from_normalized|]. split; [exact Hn|].
    split; [exact Hw|]. split.
    + unfold get_tick_count. cbn [get_frac_secs _frac_secs].
      rewrite Er, E0. reflexivity.
    + intros Rsi _. unfold to_ticks. rewrite Hti. cbn [bind].
      rewrite Er, sub_same.
      cbn [get_full_secs get_frac_secs _full_secs _frac_secs].
      unfold Int64.mul, Int64.checked. rewrite Rsi. cbn [bind].
      fold Double.zero. rewrite Hs0.
      change (Double.mul Double.zero (S754_finite false mi ei))
        with Double.zero.
      replace (fast_llround (Double.add (S754_zero s0) Double.zero))
        with (Value 0 : outcome Z) by (now destruct s0).
      cbn [bind]. unfold Int64.add, Int64.checked.
      now rewrite E0, Z.add_0_r, Rsi.
  - destruct (integer_rate_fraction te i Hi ltac:(lia))
      as (mq & eq & Eq & Vq & Beq & Lq & Cq).
    pose proof (close_quarter _ te ltac:(lia) Cq) as Ct.
    unfold t. rewrite Eq.
    assert (Hn : normalized (mk_time_spec full (S754_finite false mq eq))
                 = true).
    { unfold normalized. cbn [get_frac_secs _frac_secs]. now rewrite Lq. }
    assert (Hw : well_formed (mk_time_spec full (S754_finite false mq eq))
                 = true).
    { unfold well_formed.
      cbn [get_full_secs get_frac_secs _full_secs _frac_secs].
      now rewrite Rs, Vq. }
    split; [now apply set_from_normalized|]. split; [exact Hn|].
    split; [exact Hw|]. split.
    + unfold get_tick_count. cbn [get_frac_secs _frac_secs].
      destruct (llround_ticks i te mq eq Hi ltac:(lia) ltac:(lia) Vq Ct)
        as (mp & ep & Ep & Hp).
      now rewrite Ep.
    + intros Rsi Rk. apply to_ticks_close; try assumption; lia.
Qed.

(** [from_ticks] on [s] whole seconds and [te] further ticks, where the
    division of the tick count by the rate gives [s]. *)
Lemma from_ticks_split (s te i : Z) :
  1 <= i <= 2 ^ 48 -> 0 <= te < i -> 0 <= s \/ te = 0 ->
  Int64.in_range s = true -> Int64.in_range (s * i) = true ->
  Int64.in_range (s * i + te) = true ->
  from_ticks (s * i + te) (Double.of_int i)
  = time_spec s (Double.div (Double.of_int te) (Double.of_int i)).
Proof.
  intros Hi Ht Hs Rs Rsi Rk.
  assert (Hi53 : 1 <= i < 2 ^ 53) by lia.
  destruct (to_int_of_int i Hi53) as (Hti & mi & ei & Er).
  destruct (mul_zero_r _ (of_int_finite_or_zero _ Rs)) as [s0 Hs0].
  assert (Hquot : Z.quot (s * i + te) i = s).
  { destruct Hs as [Hs|E0].
    - rewrite Z.quot_div_nonneg by nia.
      rewrite Z.div_add_l by lia. rewrite Z.div_small by lia. lia.
    - rewrite E0, Z.add_0_r. apply Z.quot_mul. lia. }
  unfold from_ticks. rewrite Hti. cbn [bind].
  unfold Int64.div, Int64.mul, Int64.sub, Int64.checked.
  destruct (Z.eqb_spec i 0); [lia|].
  rewrite Hquot, Rs. cbn [bind]. rewrite Rsi. cbn [bind].
  replace (s * i + te - s * i) with te by lia.
  rewrite (in_range_small te) by lia. cbn [bind].
  rewrite Er at 1 2. rewrite sub_same. fold Double.zero. rewrite Hs0.
  f_equal. f_equal.
  destruct (Z.eq_dec te 0) as [E0|E0].
  - rewrite E0. now destruct s0.
  - destruct (of_int_normal te ltac:(lia)) as (mt & et & Et & _).
    rewrite Et. reflexivity.
Qed.

End IntegerRateRoundTrip.

Section NegativeTicks.

(** The sign given to the rounding is the sign of its result. *)
Lemma binary_round_aux_opp (m e : Z) (l : location) :
  binary_round_aux 53 1024 true m e l
  = SFopp (binary_round_aux 53 1024 false m e l).
Proof.
  unfold binary_round_aux.
  destruct (shr_fexp 53 1024 m e l) as [r1 e1].
  destruct (shr_fexp 53 1024 _ e1 loc_Exact) as [r2 e2].
  destruct (shr_m r2); try reflexivity.
  now destruct (e2 <=? 1024 - 53).
Qed.

Lemma of_int_opp (p : positive) :
  Double.of_int (Zneg p) = SFopp (Double.of_int (Zpos p)).
Proof.
  unfold Double.of_int, Double.prec, Double.emax, binary_normalize,
    binary_round.
  destruct (shl_align p 0 _) as [mz ez]. apply binary_round_aux_opp.
Qed.

Lemma div_opp_l (mx my : positive) (ex ey : Z) :
  Double.div (S754_finite true mx ex) (S754_finite false my ey)
  = SFopp (Double.div (S754_finite false mx ex) (S754_finite false my ey)).
Proof.
  unfold Double.div, Double.prec, Double.emax, SFdiv.
  destruct (SFdiv_core_binary 53 1024 (Zpos mx) ex (Zpos my) ey)
    as [[mz ez] lz].
  cbn [xorb]. apply binary_round_aux_opp.
Qed.

(** A negative fraction above -1 is cast to 0. *)
Lemma to_int_negative_fraction (m : positive) (e : Z) :
  Double.valid (S754_finite false m e) = true -> e < -52 ->
  Double.to_int (S754_finite true m e) = Value 0.
Proof.
  intros V He. pose proof (valid_finite_bounds _ _ _ V) as (Hm & _ & _).
  destruct e as [|p|p]; try lia.
  unfold Double.to_int, Double.truncate.
  rewrite Z.shiftr_div_pow2 by lia.
  rewrite Z.div_small; [reflexivity|]. split; [lia|].
  apply Z.lt_le_trans with (1 := Hm).
  apply Z.pow_le_mono_r; lia.
Qed.

(** Rounding a positive integer multiple of [2^ez]. *)
Lemma binary_round_close (n : positive) (ez : Z) :
  -1074 <= ez -> Zpos n < 2 ^ (954 - ez) ->
  exists m' e',
    binary_round 53 1024 false n ez = S754_finite false m' e'
    /\ Double.valid (S754_finite false m' e') = true
    /\ Z.max (Zpos (digits2_pos n) + ez - 53) (-1074) <= e'
       <= Z.max (Zpos (digits2_pos n) + ez - 53) (-1074) + 1
    /\ close (to_Q (S754_finite false m' e'))
             (inject_Z (Zpos n) * pow2 ez).
Proof.
  intros Hez HS.
  pose proof (digits2_pos_le _ _ HS) as Hd.
  pose proof (Pos2Z.is_pos (digits2_pos n)) as Hd0.
  set (e0 := fexp 53 1024 (Zpos (digits2_pos n) + ez)).
  assert (He0 : e0 = Z.max (Zpos (digits2_pos n) + ez - 53) (-1074)).
  { unfold e0, fexp, SpecFloat.emin. now change IntDef.Z.max with Z.max. }
  rewrite <- He0.
  destruct (Z.le_gt_cases e0 ez) as [Hle|Hgt].
  - destruct (shl_align_le n ez e0 Hle) as (H1 & H2 & H3).
    exists (fst (shl_align n ez e0)), e0.
    split; [apply binary_round_exact; fold e0; lia|].
    split; [apply canonical_valid; [rewrite H3; reflexivity|lia]|].
    split; [lia|].
    apply close_eq.
    + rewrite to_Q_pow2, H2, inject_Z_mult, pow2_inject by lia.
      rewrite <- Qmult_assoc, <- pow2_add.
      replace (ez - e0 + e0) with ez by lia. reflexivity.
    + apply Qmult_le_0_compat; [discriminate|].
      apply Qlt_le_weak, pow2_positive.
  - unfold binary_round. fold e0. rewrite shl_align_gt by lia.
    destruct (round_close n ez loc_Exact (inject_Z (Zpos n) * pow2 ez))
      as (m' & e' & Hr & Hv & He' & Hc); fold e0; try lia.
    + apply Qle_refl.
    + apply Qmult_lt_compat_r; [apply pow2_positive|].
      rewrite <- Zlt_Qlt. lia.
    + exists m', e'. fold e0 in He'.
      split; [exact Hr|]. split; [exact Hv|]. split; [lia|exact Hc].
Qed.

(** [frac + 1] for a negative fraction [frac] above -1. *)
Lemma one_minus_close (m : positive) (e : Z) :
  Double.valid (S754_finite false m e) = true -> e < -52 ->
  exists m' e',
    Double.add (S754_finite true m e) Double.one = S754_finite false m' e'
    /\ Double.valid (S754_finite false m' e') = true
    /\ e - 52 <= e' <= -52
    /\ close (to_Q (S754_finite false m' e'))
             (1 - to_Q (S754_finite false m e)).
Proof.
  intros V He. pose proof (valid_finite_bounds _ _ _ V) as (Hm & Hemin & _).
  unfold SpecFloat.emin in Hemin.
  change Double.one with (S754_finite false 4503599627370496 (-52)).
  unfold Double.add, Double.prec, Double.emax, SFadd. cbn [cond_Zopp].
  replace (Z.min e (-52)) with e by lia.
  destruct (shl_align_le m e e ltac:(lia)) as (_ & Hx & _).
  destruct (shl_align_le 4503599627370496 (-52) e ltac:(lia)) as (_ & Hy & _).
  set (ax := fst (shl_align m e e)) in *.
  set (ay := fst (shl_align 4503599627370496 (-52) e)) in *.
  rewrite Z.sub_diag, Z.mul_1_r in Hx.
  assert (Hy' : Zpos ay = 2 ^ (- e)).
  { rewrite Hy. change 4503599627370496 with (2 ^ 52).
    rewrite <- Z.pow_add_r by lia. f_equal. lia. }
  assert (H53 : 2 ^ 53 <= 2 ^ (- e)) by (apply Z.pow_le_mono_r; lia).
  destruct (- Zpos ax + Zpos ay) as [|n|n] eqn:En; try lia.
  cbn [binary_normalize].
  assert (Hn : Zpos n < 2 ^ (- e)) by lia.
  assert (HS : Zpos n < 2 ^ (954 - e)).
  { apply Z.lt_le_trans with (1 := Hn). apply Z.pow_le_mono_r; lia. }
  destruct (binary_round_close n e ltac:(lia) HS)
    as (m' & e' & Hr & Hv & He' & Hc).
  pose proof (digits2_pos_le n (- e) Hn) as Hd.
  pose proof (Pos2Z.is_pos (digits2_pos n)) as Hd0.
  exists m', e'. split; [exact Hr|]. split; [exact Hv|]. split; [lia|].
  unfold close in *.
  assert (EV : (inject_Z (Zpos n) * pow2 e
                == 1 - to_Q (S754_finite false m e))%Q).
  { rewrite to_Q_pow2.
    replace (Zpos n) with (2 ^ (- e) - Zpos m) by lia.
    unfold Zminus. rewrite inject_Z_plus, inject_Z_opp.
    rewrite pow2_inject by lia.
    assert (E1 : (pow2 (- e) * pow2 e == 1)%Q).
    { rewrite <- pow2_add. replace (- e + e) with 0 by lia. reflexivity. }
    rewrite Qmult_plus_distr_l, E1. ring. }
  now rewrite EV in Hc.
Qed.

(** [from_ticks] and [to_ticks] for a negative tick count that is not a
    whole number of seconds: [a] ticks before [s] seconds. *)
Lemma negative_ticks (s i : Z) (a : positive) :
  1 <= i <= 2 ^ 48 -> Zpos a < i -> s <= 0 ->
  Int64.in_range (s * i - i) = true ->
  exists t,
    from_ticks (s * i - Zpos a) (Double.of_int i) = Value t
    /\ get_full_secs t = s - 1
    /\ normalized t = true /\ well_formed t = true
    /\ get_tick_count t (Double.of_int i) = Value (i - Zpos a)
    /\ to_ticks t (Double.of_int i) = Value (s * i - Zpos a).
Proof.
  intros Hi Ha Hs Rmin.
  pose proof (in_range_bounds _ Rmin) as Bmin.
  assert (Hi53 : 1 <= i < 2 ^ 53) by lia.
  assert (Bs : - 2 ^ 63 <= s - 1) by nia.
  assert (Bsi : - 2 ^ 63 <= s * i <= 0) by nia.
  assert (Rs : Int64.in_range s = true) by (apply in_range_small; lia).
  assert (Rs1 : Int64.in_range (s - 1) = true) by (apply in_range_small; lia).
  assert (Rsi : Int64.in_range (s * i) = true) by (apply in_range_small; lia).
  destruct (to_int_of_int i Hi53) as (Hti & _).
  destruct (of_int_normal i Hi53) as (mi & ei & Er & Vi & Ni & Ei & Qi).
  destruct (of_int_normal (Zpos a) ltac:(lia))
    as (mt & et & Et & Vt & Nt & Ete & Qt).
  destruct (mul_zero_r _ (of_int_finite_or_zero s Rs)) as [s0 Hs0].
  destruct (integer_rate_fraction (Zpos a) i Hi ltac:(lia))
    as (mq & eq & Eq & Vq & Beq & Lq & Cq).
  pose proof (ltb_one_inv mq eq Vq Lq) as Heq.
  destruct (one_minus_close mq eq Vq ltac:(lia))
    as (m' & e' & E' & V' & Be' & C').
  assert (Hquot : Z.quot (s * i - Zpos a) i = s).
  { rewrite <- (Z.opp_involutive (s * i - Zpos a)).
    rewrite Z.quot_opp_l by lia.
    rewrite Z.quot_div_nonneg by lia.
    replace (- (s * i - Zpos a)) with (- s * i + Zpos a) by lia.
    rewrite Z.div_add_l by lia. rewrite Z.div_small by lia. lia. }
  (* the fraction is within a quarter of a tick of (i - a) / i *)
  assert (HI : (0 < inject_Z i)%Q) by (rewrite <- (Zlt_Qlt 0); lia).
  assert (HIB : (inject_Z i <= 281474976710656 # 1)%Q).
  { change (281474976710656 # 1)%Q with (inject_Z (2 ^ 48)).
    rewrite <- Zle_Qle. lia. }
  assert (HA1 : (1 <= inject_Z (Zpos a))%Q)
    by (rewrite <- (Zle_Qle 1); lia).
  assert (HAI : (inject_Z (Zpos a) + 1 <= inject_Z i)%Q).
  { change 1%Q with (inject_Z 1). rewrite <- inject_Z_plus, <- Zle_Qle. lia. }
  assert (HQ0 : (0 < to_Q (S754_finite false mq eq))%Q)
    by apply to_Q_finite_positive.
  set (Q0 := to_Q (S754_finite false mq eq)) in *.
  set (F := to_Q (S754_finite false m' e')) in *.
  set (I := inject_Z i) in *. set (A := inject_Z (Zpos a)) in *.
  assert (HX : ((I - Q0 * I) * (1 - eps) <= F * I
                <= (I - Q0 * I) * (1 + eps))%Q).
  { destruct C' as [C1 C2]. split.
    - setoid_replace ((I - Q0 * I) * (1 - eps))%Q
        with ((1 - Q0) * (1 - eps) * I)%Q by ring.
      apply Qmult_le_compat_r; [exact C1|]. apply Qlt_le_weak, HI.
    - setoid_replace ((I - Q0 * I) * (1 + eps))%Q
        with ((1 - Q0) * (1 + eps) * I)%Q by ring.
      apply Qmult_le_compat_r; [exact C2|]. apply Qlt_le_weak, HI. }
  assert (HT : (inject_Z (i - Zpos a) - (1 # 4) <= F * I
                <= inject_Z (i - Zpos a) + (1 # 4))%Q).
  { unfold Zminus. rewrite inject_Z_plus, inject_Z_opp. fold I A.
    unfold close, eps in *.
    set (X := (F * I)%Q) in *. set (Y := (Q0 * I)%Q) in *.
    clearbody X Y Q0 F I A. split; lra. }
  assert (HF1 : (F < 1)%Q).
  { assert (HB : (Q0 * I <= Q0 * (281474976710656 # 1))%Q).
    { rewrite !(Qmult_comm Q0). apply Qmult_le_compat_r; [exact HIB|].
      apply Qlt_le_weak, HQ0. }
    unfold close, eps in *. set (Y := (Q0 * I)%Q) in *.
    clearbody Y Q0 F I A. lra. }
  exists (mk_time_spec (s - 1) (S754_finite false m' e')).
  split; [|split; [reflexivity|]].
  - unfold from_ticks. rewrite Hti. cbn [bind].
    unfold Int64.div, Int64.mul, Int64.sub, Int64.checked.
    destruct (Z.eqb_spec i 0); [lia|].
    rewrite Hquot, Rs. cbn [bind]. rewrite Rsi. cbn [bind].
    replace (s * i - Zpos a - s * i) with (Zneg a) by lia.
    rewrite (in_range_small (Zneg a)) by lia. cbn [bind].
    rewrite Er at 1 2. rewrite sub_same. fold Double.zero. rewrite Hs0.
    rewrite of_int_opp, Et. cbn [SFopp negb].
    replace (Double.sub (S754_finite true mt et) (S754_zero s0))
      with (S754_finite true mt et) by reflexivity.
    rewrite Er, div_opp_l. rewrite Et, Er in Eq. rewrite Eq.
    cbn [SFopp negb].
    unfold time_spec, set_from.
    rewrite (to_int_negative_fraction mq eq Vq Heq). cbn [bind].
    unfold Int64.add, Int64.sub, Int64.checked.
    rewrite Z.add_0_r, Rs. cbn [bind].
    change (Double.of_int 0) with (S754_zero false).
    replace (Double.sub (S754_finite true mq eq) (S754_zero false))
      with (S754_finite true mq eq) by reflexivity.
    replace (Double.ltb (S754_finite true mq eq) Double.zero)
      with true by reflexivity.
    rewrite Rs1. cbn [bind]. now rewrite E'.
  - assert (Hn : normalized (mk_time_spec (s - 1) (S754_finite false m' e'))
                 = true).
    { unfold normalized. cbn [get_frac_secs _frac_secs].
      now rewrite (ltb_one_of_value m' e' V' HF1). }
    assert (Hw : well_formed (mk_time_spec (s - 1) (S754_finite false m' e'))
                 = true).
    { unfold well_formed.
      cbn [get_full_secs get_frac_secs _full_secs _frac_secs].
      now rewrite Rs1, V'. }
    split; [exact Hn|]. split; [exact Hw|]. split.
    + unfold get_tick_count. cbn [get_frac_secs _frac_secs].
      destruct (llround_ticks i (i - Zpos a) m' e' Hi ltac:(lia) ltac:(lia)
                  V' HT) as (mp & ep & Ep & Hp).
      now rewrite Ep.
    + transitivity (Value ((s - 1) * i + (i - Zpos a)) : outcome Z);
        [|f_equal; lia].
      apply to_ticks_close; try assumption; try lia;
        apply in_range_small; nia.
Qed.

End NegativeTicks.

(** ** Tick counts at integer tick rates *)

(** The three cases of a tick count [k] at the integer rate [i]: not
    negative, a negative multiple of [i], and any other negative count. *)
Lemma integer_rate_ticks (k i : Z) :
  1 <= i <= 2 ^ 48 ->
  Int64.in_range k = true -> Int64.in_range (k / i * i) = true ->
  exists t,
    from_ticks k (Double.of_int i) = Value t
    /\ get_full_secs t = k / i
    /\ normalized t = true /\ well_formed t = true
    /\ get_tick_count t (Double.of_int i) = Value (k mod i)
    /\ to_ticks t (Double.of_int i) = Value k
    /\ round_trip k (Double.of_int i) = Value k.
Proof.
  intros Hi Rk Rf.
  pose proof (in_range_bounds k Rk) as Bk.
  pose proof (in_range_bounds _ Rf) as Bf.
  pose proof (Z.div_mod k i ltac:(lia)) as Hdm.
  pose proof (Z.mod_pos_bound k i ltac:(lia)) as Hmod.
  assert (Hk : k = k / i * i + k mod i) by lia.
  assert (Hrt : forall t, from_ticks k (Double.of_int i) = Value t ->
                          to_ticks t (Double.of_int i) = Value k ->
                          round_trip k (Double.of_int i) = Value k).
  { intros t H1 H2. unfold round_trip. rewrite H1. exact H2. }
  assert (Rs : Int64.in_range (k / i) = true).
  { apply in_range_small. nia. }
  destruct (Z_le_gt_dec 0 k) as [Hpos|Hneg];
    [|destruct (Z.eq_dec (k mod i) 0) as [E0|E0]].
  - pose proof (Z.div_pos k i Hpos ltac:(lia)) as Hdiv.
    destruct (fraction_time (k / i) (k mod i) i Hi Hmod Rs)
      as (H1 & H2 & H3 & H4 & H5).
    rewrite <- from_ticks_split, <- Hk in H1 by (try rewrite <- Hk; auto).
    rewrite <- Hk in H5. specialize (H5 Rf Rk).
    eexists. split; [exact H1|]. split; [reflexivity|]. eauto 6.
  - destruct (fraction_time (k / i) (k mod i) i Hi Hmod Rs)
      as (H1 & H2 & H3 & H4 & H5).
    rewrite <- from_ticks_split, <- Hk in H1 by (try rewrite <- Hk; auto).
    rewrite <- Hk in H5. specialize (H5 Rf Rk).
    eexists. split; [exact H1|]. split; [reflexivity|]. eauto 6.
  - assert (Ha : exists a, i - k mod i = Zpos a).
    { destruct (i - k mod i) as [|a|a] eqn:E; try lia. now exists a. }
    destruct Ha as [a Ha].
    destruct (negative_ticks (k / i + 1) i a Hi ltac:(lia) ltac:(nia))
      as (t & H1 & H2 & H3 & H4 & H5 & H6).
    { apply in_range_small. lia. }
    replace ((k / i + 1) * i - Zpos a) with k in H1, H6 by lia.
    replace (i - Zpos a) with (k mod i) in H5 by lia.
    exists t. split; [exact H1|]. split; [lia|]. eauto 6.
Qed.

(** At a tick rate that is an integer [i] of at most 48 bits the round trip
    is exact for every tick count [k], negative ones included: [from_ticks]
    returns a normalized time of [k / i] whole seconds (rounded down) whose
    tick count within the second is [k mod i], and [to_ticks] on that time
    returns [k]. The whole seconds in ticks, [k / i * i], have to fit an
    [int64_t], which they do for every [k] that is not negative. *)
Theorem integer_rate_round_trip (k i : Z) :
  1 <= i <= 2 ^ 48 ->
  Int64.in_range k = true -> Int64.in_range (k / i * i) = true ->
  exists t,
    from_ticks k (Double.of_int i) = Value t
    /\ get_full_secs t = k / i
    /\ normalized t = true /\ well_formed t = true
    /\ get_tick_count t (Double.of_int i) = Value (k mod i)
    /\ to_ticks t (Double.of_int i) = Value k
    /\ round_trip k (Double.of_int i) = Value k.
Proof. exact (integer_rate_ticks k i). Qed.

(** -123456789 ticks at 200e6 ticks per second. *)
Lemma integer_rate_round_trip_witness :
  exists t,
    from_ticks (-123456789) rate_200e6 = Value t
    /\ get_full_secs t = -1
    /\ to_ticks t rate_200e6 = Value (-123456789).
Proof.
  destruct (integer_rate_round_trip (-123456789) 200000000)
    as (t & H1 & H2 & _ & _ & _ & H3 & _);
    [lia | reflexivity | reflexivity |].
  exists t. split; [exact H1|]. split; [exact H2|exact H3].
Defined.

(** The constructor from whole seconds and a tick count within the second,
    at an integer tick rate [i] of at most 48 bits: the whole seconds are
    kept, the fractional seconds are the double quotient of the tick count
    by [i], the time is normalized, and [get_tick_count] at the same rate
    returns the tick count. *)
Theorem tick_count_round_trip (full_secs tick_count i : Z) :
  1 <= i <= 2 ^ 48 -> 0 <= tick_count < i ->
  Int64.in_range full_secs = true ->
  let t := mk_time_spec full_secs
             (Double.div (Double.of_int tick_count) (Double.of_int i)) in
  time_spec_of_tick_count full_secs tick_count (Double.of_int i) = Value t
  /\ normalized t = true /\ well_formed t = true
  /\ get_tick_count t (Double.of_int i) = Value tick_count.
Proof.
  intros Hi Ht Rs t. unfold time_spec_of_tick_count.
  destruct (fraction_time full_secs tick_count i Hi Ht Rs)
    as (H1 & H2 & H3 & H4 & _).
  auto.
Qed.

(** 7 s and 12345 ticks at 200e6 ticks per second. *)
Lemma tick_count_round_trip_witness :
  exists t,
    time_spec_of_tick_count 7 12345 rate_200e6 = Value t
    /\ get_full_secs t = 7
    /\ get_tick_count t rate_200e6 = Value 12345.
Proof.
  destruct (tick_count_round_trip 7 12345 200000000) as (H1 & _ & _ & H2);
    [lia | lia | reflexivity |].
  eexists. split; [exact H1|]. split; [reflexivity|exact H2].
Defined.

(** For a normalized time of at most 2^53 whole seconds, [get_real_secs]
    is a finite double (a zero or a positive number, never an infinity or
    a NaN) within a relative 2^-52 of the whole seconds plus the fractional
    seconds, and it is that sum exactly whenever the sum is a double. *)
Theorem real_secs_value (t : time_spec_t) :
  well_formed t = true -> normalized t = true ->
  0 <= get_full_secs t < 2 ^ 53 ->
  finite_or_zero (get_real_secs t) = true
  /\ nonneg_value (get_real_secs t) = true
  /\ Double.valid (get_real_secs t) = true
  /\ close (to_Q (get_real_secs t)) (time_value t)
  /\ (forall d, Double.valid d = true -> (to_Q d == time_value t)%Q ->
      (to_Q (get_real_secs t) == time_value t)%Q).
Proof.
  intros W N Hf. unfold get_real_secs, time_value.
  unfold well_formed in W. apply andb_prop in W as [_ Vf].
  destruct (Z.eq_dec (get_full_secs t) 0) as [E0|E0].
  - rewrite E0. change (Double.of_int 0) with (S754_zero false).
    destruct (normalized_cases t N) as [[s E]|(m & e & E)]; rewrite E in *.
    + split; [now destruct s|]. split; [now destruct s|].
      split; [now destruct s|].
      split; [apply close_eq; [now destruct s|apply Qle_refl]|].
      intros _ _ _. now destruct s.
    + assert (Eq : (to_Q (Double.add (S754_zero false) (S754_finite false m e))
                    == inject_Z 0 + to_Q (S754_finite false m e))%Q).
      { change (Double.add (S754_zero false) (S754_finite false m e))
          with (S754_finite false m e).
        change (inject_Z 0) with 0%Q. ring. }
      split; [reflexivity|]. split; [reflexivity|].
      split; [exact Vf|]. split; [|intros _ _ _; exact Eq].
      apply close_eq; [exact Eq|].
      change (inject_Z 0) with 0%Q. rewrite Qplus_0_l.
      apply Qlt_le_weak, to_Q_finite_positive.
  - destruct (of_int_normal (get_full_secs t) ltac:(lia))
      as (mf & ef & Ef & Vi & Nf & Bf & Qf).
    rewrite Ef.
    destruct (normalized_cases t N) as [[s E]|(m & e & E)]; rewrite E in *.
    + assert (Eq : (to_Q (Double.add (S754_finite false mf ef) (S754_zero s))
                    == inject_Z (get_full_secs t) + to_Q (S754_zero s))%Q).
      { change (Double.add (S754_finite false mf ef) (S754_zero s))
          with (S754_finite false mf ef).
        rewrite Qf. change (to_Q (S754_zero s)) with 0%Q. ring. }
      change (Double.add (S754_finite false mf ef) (S754_zero s))
        with (S754_finite false mf ef) in *.
      split; [reflexivity|]. split; [reflexivity|].
      split; [exact Vi|]. split; [|intros _ _ _; exact Eq].
      apply close_eq; [exact Eq|].
      change (to_Q (S754_zero s)) with 0%Q. rewrite Qplus_0_r.
      rewrite <- (Zle_Qle 0). lia.
    + assert (Be : e < -52).
      { apply (ltb_one_inv m e Vf). unfold normalized in N. rewrite E in N.
        now apply andb_prop in N as [_ N]. }
      destruct (add_close mf m ef e Vi Vf ltac:(lia) ltac:(lia))
        as (m' & e' & E' & V' & C').
      rewrite E'. split; [reflexivity|]. split; [reflexivity|].
      split; [exact V'|].
      split; [unfold close in *; now rewrite Qf in C'|].
      intros d Vd Hd.
      pose proof (fraction_below_one m e Vf Be) as [Hq0 Hq1].
      assert (HF : (inject_Z 1 <= inject_Z (get_full_secs t)
                    <= inject_Z (2 ^ 53 - 1))%Q)
        by (rewrite <- !Zle_Qle; lia).
      change (inject_Z (2 ^ 53 - 1)) with (9007199254740991 # 1)%Q in HF.
      change (inject_Z 1) with 1%Q in HF.
      assert (Hpos : (0 < to_Q d)%Q).
      { rewrite Hd. set (X := to_Q (S754_finite false m e)) in *.
        set (F := inject_Z (get_full_secs t)) in *. clearbody X F. lra. }
      destruct (to_Q_positive d Hpos) as (md & ed & ->).
      assert (Hed : ed < 2).
      { apply (exponent_below md ed 2 Vd ltac:(lia)).
        change (inject_Z (2 ^ (52 + 2))) with (18014398509481984 # 1)%Q.
        rewrite Hd. set (X := to_Q (S754_finite false m e)) in *.
        set (F := inject_Z (get_full_secs t)) in *. clearbody X F. lra. }
      rewrite <- Qf in Hd.
      pose proof (add_exact mf m ef e md ed Vi Vf Vd ltac:(lia) Hd) as Ed.
      rewrite E' in Ed. rewrite Ed, Hd, Qf. reflexivity.
Qed.

(** 3 s + 0.25 s: the double 3.25 *)
Lemma real_secs_value_witness :
  finite_or_zero (get_real_secs (mk_time_spec 3 (literal 1 4))) = true
  /\ (to_Q (get_real_secs (mk_time_spec 3 (literal 1 4))) == 13 # 4)%Q.
Proof.
  destruct (real_secs_value (mk_time_spec 3 (literal 1 4)))
    as (H1 & _ & _ & _ & H2); [reflexivity | reflexivity | cbn; lia |].
  split; [exact H1|].
  apply (Qeq_trans _ (time_value (mk_time_spec 3 (literal 1 4)))).
  - apply (H2 (literal 13 4)); vm_compute; reflexivity.
  - vm_compute. reflexivity.
Defined.

Section Differences.

Lemma binary_round_opp (n : positive) (e : Z) :
  binary_round 53 1024 true n e = SFopp (binary_round 53 1024 false n e).
Proof.
  unfold binary_round. destruct (shl_align n e _) as [mz ez].
  apply binary_round_aux_opp.
Qed.

(** Rounding a positive multiple of [2^ez] that is not above the largest
    double under 1. *)
Lemma binary_round_fraction (n : positive) (ez : Z) :
  -1074 <= ez <= -53 -> Zpos n <= (2 ^ 53 - 1) * 2 ^ (-53 - ez) ->
  exists m' e',
    binary_round 53 1024 false n ez = S754_finite false m' e'
    /\ Double.valid (S754_finite false m' e') = true
    /\ e' < -52
    /\ close (to_Q (S754_finite false m' e')) (inject_Z (Zpos n) * pow2 ez).
Proof.
  intros Hez Hn.
  set (U := 2 ^ (-53 - ez)) in *.
  assert (HU : 0 < U) by (apply Z.pow_pos_nonneg; lia).
  assert (HU2 : 2 ^ 53 * U = 2 ^ (- ez)).
  { unfold U. rewrite <- Z.pow_add_r by lia. f_equal. lia. }
  assert (Hn2 : Zpos n < 2 ^ (- ez)) by nia.
  assert (HS : Zpos n < 2 ^ (954 - ez)).
  { apply Z.lt_le_trans with (1 := Hn2). apply Z.pow_le_mono_r; lia. }
  pose proof (digits2_pos_le n (- ez) Hn2) as Hd.
  pose proof (Pos2Z.is_pos (digits2_pos n)) as Hd0.
  destruct (binary_round_close n ez ltac:(lia) HS)
    as (m' & e' & Hr & Hv & He' & Hc).
  exists m', e'. split; [exact Hr|]. split; [exact Hv|]. split; [|exact Hc].
  destruct (Z.lt_ge_cases e' (-52)) as [H|H]; [exact H|exfalso].
  assert (Hdig : Zpos (digits2_pos n) = - ez) by lia.
  assert (E52 : e' = -52) by lia.
  destruct (binary_round_faithful false n ez ltac:(lia))
    as (m2 & e2 & Hr2 & _ & [(H1 & H2 & H3)|(H1 & H2 & H3 & H4)]).
  { unfold fexp, SpecFloat.emin. change IntDef.Z.max with Z.max. lia. }
  - rewrite Hr in Hr2. injection Hr2 as <- <-.
    unfold fexp, SpecFloat.emin in H2. change IntDef.Z.max with Z.max in H2.
    lia.
  - rewrite Hr in Hr2. injection Hr2 as <- <-.
    assert (E0 : fexp 53 1024 (Zpos (digits2_pos n) + ez) = -53).
    { unfold fexp, SpecFloat.emin. change IntDef.Z.max with Z.max. lia. }
    rewrite E0 in H1, H3, H4. rewrite E52 in H3, H4. fold U in H3, H4.
    change (2 ^ (-52 - -53)) with 2 in H3, H4.
    pose proof (valid_finite_bounds _ _ _ Hv) as (_ & _ & Hnorm).
    specialize (Hnorm ltac:(unfold SpecFloat.emin; lia)).
    change (2 ^ 52) with 4503599627370496 in Hnorm.
    assert (Hq : Zpos n / U <= 2 ^ 53 - 1).
    { apply Z.div_le_upper_bound; lia. }
    change (2 ^ 53) with 9007199254740992 in Hq.
    assert (Eq : Zpos n / U = 9007199254740991) by lia.
    pose proof (Z.div_mod (Zpos n) U ltac:(lia)) as Hdm.
    pose proof (Z.mod_pos_bound (Zpos n) U HU) as Hmod.
    rewrite Eq in Hdm.
    change (2 ^ 53 - 1) with 9007199254740991 in Hn.
    assert (Em : Zpos n mod U = 0) by lia.
    specialize (H4 Em). lia.
Qed.

(** The double difference of two positive fractions below 1. *)
Lemma sub_fractions (mx my : positive) (ex ey : Z) :
  Double.valid (S754_finite false mx ex) = true ->
  Double.valid (S754_finite false my ey) = true ->
  ex < -52 -> ey < -52 ->
  let X := to_Q (S754_finite false mx ex) in
  let Y := to_Q (S754_finite false my ey) in
  let d := Double.sub (S754_finite false mx ex) (S754_finite false my ey) in
  (d = S754_zero false /\ X == Y)%Q
  \/ exists s m e,
       d = S754_finite s m e
       /\ Double.valid (S754_finite false m e) = true /\ e < -52
       /\ close (to_Q (S754_finite false m e)) (if s then Y - X else X - Y)%Q.
Proof.
  intros Vx Vy Hex Hey X Y d.
  pose proof (valid_finite_bounds _ _ _ Vx) as (Bx & Ex & _).
  pose proof (valid_finite_bounds _ _ _ Vy) as (By & Ey & _).
  unfold SpecFloat.emin in Ex, Ey.
  unfold d, Double.sub, Double.prec, Double.emax, SFsub. cbn [cond_Zopp].
  set (ez := Z.min ex ey).
  destruct (shl_align_le mx ex ez ltac:(unfold ez; lia)) as (_ & Hx' & _).
  destruct (shl_align_le my ey ez ltac:(unfold ez; lia)) as (_ & Hy' & _).
  set (ax := fst (shl_align mx ex ez)) in *.
  set (ay := fst (shl_align my ey ez)) in *.
  assert (EX : (X == inject_Z (Zpos ax) * pow2 ez)%Q).
  { unfold X. rewrite to_Q_pow2, Hx', inject_Z_mult.
    rewrite pow2_inject by (unfold ez; lia).
    rewrite <- Qmult_assoc, <- pow2_add.
    replace (ex - ez + ez) with ex by lia. reflexivity. }
  assert (EY : (Y == inject_Z (Zpos ay) * pow2 ez)%Q).
  { unfold Y. rewrite to_Q_pow2, Hy', inject_Z_mult.
    rewrite pow2_inject by (unfold ez; lia).
    rewrite <- Qmult_assoc, <- pow2_add.
    replace (ey - ez + ez) with ey by lia. reflexivity. }
  set (U := 2 ^ (-53 - ez)).
  assert (HU : 0 < U) by (apply Z.pow_pos_nonneg; unfold ez; lia).
  assert (Hax : Zpos ax <= (2 ^ 53 - 1) * U).
  { rewrite Hx'. assert (2 ^ (ex - ez) <= U)
      by (apply Z.pow_le_mono_r; unfold ez; lia).
    assert (0 < 2 ^ (ex - ez)) by (apply Z.pow_pos_nonneg; unfold ez; lia).
    nia. }
  assert (Hay : Zpos ay <= (2 ^ 53 - 1) * U).
  { rewrite Hy'. assert (2 ^ (ey - ez) <= U)
      by (apply Z.pow_le_mono_r; unfold ez; lia).
    assert (0 < 2 ^ (ey - ez)) by (apply Z.pow_pos_nonneg; unfold ez; lia).
    nia. }
  destruct (Zpos ax - Zpos ay) as [|n|n] eqn:En; cbn [binary_normalize].
  - left. split; [reflexivity|]. rewrite EX, EY.
    replace (Zpos ax) with (Zpos ay) by lia. reflexivity.
  - right.
    destruct (binary_round_fraction n ez ltac:(unfold ez; lia))
      as (m' & e' & Hr & Hv & He' & Hc); [fold U; lia|].
    exists false, m', e'. rewrite Hr.
    split; [reflexivity|]. split; [exact Hv|]. split; [exact He'|].
    unfold close in *.
    assert (EV : (inject_Z (Zpos n) * pow2 ez == X - Y)%Q).
    { rewrite EX, EY. replace (Zpos n) with (Zpos ax - Zpos ay) by lia.
      unfold Zminus. rewrite inject_Z_plus, inject_Z_opp. ring. }
    now rewrite EV in Hc.
  - right. rewrite binary_round_opp.
    destruct (binary_round_fraction n ez ltac:(unfold ez; lia))
      as (m' & e' & Hr & Hv & He' & Hc); [fold U; lia|].
    exists true, m', e'. rewrite Hr.
    split; [reflexivity|]. split; [exact Hv|]. split; [exact He'|].
    unfold close in *.
    assert (EV : (inject_Z (Zpos n) * pow2 ez == Y - X)%Q).
    { rewrite EX, EY. replace (Zpos n) with (Zpos ay - Zpos ax) by lia.
      unfold Zminus. rewrite inject_Z_plus, inject_Z_opp. ring. }
    now rewrite EV in Hc.
Qed.

(** The double difference of the fractional seconds of two normalized
    times: either it is itself a fraction in [0, 1), or it is negative and
    above -1. *)
Lemma fraction_difference (x y : double) :
  Double.valid x = true -> Double.valid y = true ->
  normalized (mk_time_spec 0 x) = true ->
  normalized (mk_time_spec 0 y) = true ->
  let d := Double.sub x y in
  (Double.valid d = true /\ normalized (mk_time_spec 0 d) = true
   /\ close (to_Q d) (to_Q x - to_Q y))
  \/ exists m e,
       d = S754_finite true m e
       /\ Double.valid (S754_finite false m e) = true /\ e < -52
       /\ close (to_Q (S754_finite false m e)) (to_Q y - to_Q x).
Proof.
  intros Vx Vy Nx Ny d.
  assert (Hexp : forall m e, Double.valid (S754_finite false m e) = true ->
                   normalized (mk_time_spec 0 (S754_finite false m e)) = true ->
                   e < -52).
  { intros m e V N. apply (ltb_one_inv m e V).
    unfold normalized in N. now apply andb_prop in N as [_ N]. }
  destruct (normalized_cases _ Nx) as [[sx Ex]|(mx & ex & Ex)];
    destruct (normalized_cases _ Ny) as [[sy Ey]|(my & ey & Ey)];
    cbn [get_frac_secs _frac_secs] in Ex, Ey; subst x y.
  - left. unfold d. destruct sx, sy; (split; [reflexivity|]);
      (split; [reflexivity|]); (apply close_eq; [reflexivity|apply Qle_refl]).
  - right. exists my, ey.
    split; [reflexivity|]. split; [exact Vy|].
    split; [now apply (Hexp my ey)|].
    pose proof (to_Q_finite_positive my ey) as Hp.
    change (to_Q (S754_zero sx)) with 0%Q.
    apply close_eq; [ring|lra].
  - left. split; [exact Vx|]. split; [exact Nx|].
    pose proof (to_Q_finite_positive mx ex) as Hp.
    change d with (S754_finite false mx ex).
    change (to_Q (S754_zero sy)) with 0%Q.
    apply close_eq; [ring|lra].
  - pose proof (Hexp _ _ Vx Nx) as Hex. pose proof (Hexp _ _ Vy Ny) as Hey.
    destruct (sub_fractions mx my ex ey Vx Vy Hex Hey)
      as [[E0 EQ]|(s & m & e & E & V & He & C)].
    + left. unfold d. rewrite E0. split; [reflexivity|]. split; [reflexivity|].
      change (to_Q (S754_zero false)) with 0%Q.
      apply close_eq; [rewrite EQ; ring|rewrite EQ; lra].
    + destruct s.
      * right. exists m, e. unfold d. auto.
      * left. unfold d. rewrite E. split; [exact V|]. split; [|exact C].
        unfold normalized. cbn [get_frac_secs _frac_secs].
        now rewrite (ltb_one_small_exp m e He).
Qed.

(** [set_from] on a negative fraction above -1 borrows one second. *)
Lemma set_from_negative_fraction (full : Z) (m : positive) (e : Z) :
  Double.valid (S754_finite false m e) = true -> e < -52 ->
  Int64.in_range full = true -> Int64.in_range (full - 1) = true ->
  set_from full (S754_finite true m e)
  = Value (mk_time_spec (full - 1)
             (Double.add (S754_finite true m e) Double.one)).
Proof.
  intros V He R R1. unfold set_from.
  rewrite (to_int_negative_fraction m e V He). cbn [bind].
  unfold Int64.add, Int64.sub, Int64.checked.
  rewrite Z.add_0_r, R. cbn [bind].
  change (Double.of_int 0) with (S754_zero false).
  replace (Double.sub (S754_finite true m e) (S754_zero false))
    with (S754_finite true m e) by reflexivity.
  replace (Double.ltb (S754_finite true m e) Double.zero)
    with true by reflexivity.
  now rewrite R1.
Qed.

End Differences.

(** ** Differences of normalized times *)

(** The difference of two normalized times is normalized, and its value is
    the difference of the values up to 2^-51 s, unless the fractional
    seconds of the first are below those of the second by less than 2^-51:
    [-] and [-=] then return the same time, whose fractional seconds are a
    valid double in [0, 1). The whole seconds of the difference, and one
    second less for the borrow, have to fit an [int64_t]. *)
Theorem difference_is_normalized (a b : time_spec_t) :
  well_formed a = true -> well_formed b = true ->
  normalized a = true -> normalized b = true ->
  Int64.in_range (get_full_secs a - get_full_secs b) = true ->
  Int64.in_range (get_full_secs a - get_full_secs b - 1) = true ->
  (to_Q (get_frac_secs b) <= to_Q (get_frac_secs a)
   \/ to_Q (get_frac_secs a) + (1 # 2251799813685248)
      <= to_Q (get_frac_secs b))%Q ->
  exists t,
    op_sub a b = Value t /\ op_sub_assign a b = Value t
    /\ normalized t = true /\ well_formed t = true
    /\ (time_value a - time_value b - (1 # 2251799813685248)
        <= time_value t
        <= time_value a - time_value b + (1 # 2251799813685248))%Q.
Proof.
  intros Wa Wb Na Nb R0 R1 Hgap.
  set (full := get_full_secs a - get_full_secs b) in *.
  assert (Va : Double.valid (get_frac_secs a) = true).
  { unfold well_formed in Wa. now apply andb_prop in Wa as [_ Wa]. }
  assert (Vb : Double.valid (get_frac_secs b) = true).
  { unfold well_formed in Wb. now apply andb_prop in Wb as [_ Wb]. }
  assert (Hop : op_sub a b
                = set_from full
                    (Double.sub (get_frac_secs a) (get_frac_secs b))).
  { unfold op_sub, time_spec, Int64.sub, Int64.checked. fold full.
    now rewrite R0. }
  assert (Hop' : op_sub_assign a b = op_sub a b).
  { rewrite Hop. unfold op_sub_assign, Int64.sub, Int64.checked. fold full.
    now rewrite R0. }
  rewrite Hop', Hop.
  assert (Ba : (0 <= to_Q (get_frac_secs a) < 1)%Q
               /\ (0 <= to_Q (get_frac_secs b) < 1)%Q).
  { split.
    - destruct (normalized_cases _ Na) as [[s E]|(m & e & E)]; rewrite E in *.
      + split; [apply Qle_refl|reflexivity].
      + assert (He : e < -52).
        { apply (ltb_one_inv m e Va). unfold normalized in Na.
          rewrite E in Na. now apply andb_prop in Na as [_ Na]. }
        pose proof (fraction_below_one m e Va He). lra.
    - destruct (normalized_cases _ Nb) as [[s E]|(m & e & E)]; rewrite E in *.
      + split; [apply Qle_refl|reflexivity].
      + assert (He : e < -52).
        { apply (ltb_one_inv m e Vb). unfold normalized in Nb.
          rewrite E in Nb. now apply andb_prop in Nb as [_ Nb]. }
        pose proof (fraction_below_one m e Vb He). lra. }
  destruct Ba as [Ba Bb].
  assert (Hfull : (inject_Z full
                   == inject_Z (get_full_secs a) - inject_Z (get_full_secs b))%Q).
  { unfold full, Zminus. rewrite inject_Z_plus, inject_Z_opp. reflexivity. }
  destruct (fraction_difference (get_frac_secs a) (get_frac_secs b) Va Vb Na Nb)
    as [(Vd & Nd & Cd)|(m & e & Ed & V & He & C)].
  - set (d := Double.sub (get_frac_secs a) (get_frac_secs b)) in *.
    exists (mk_time_spec full d).
    assert (Hw : well_formed (mk_time_spec full d) = true).
    { unfold well_formed.
      cbn [get_full_secs get_frac_secs _full_secs _frac_secs].
      now rewrite R0, Vd. }
    split; [now apply set_from_normalized|].
    split; [now apply set_from_normalized|].
    split; [exact Nd|]. split; [exact Hw|].
    unfold time_value.
    cbn [get_full_secs get_frac_secs _full_secs _frac_secs].
    rewrite Hfull. unfold close, eps in Cd.
    set (X := to_Q (get_frac_secs a)) in *.
    set (Y := to_Q (get_frac_secs b)) in *.
    set (D := to_Q d) in *.
    set (A := inject_Z (get_full_secs a)) in *.
    set (B := inject_Z (get_full_secs b)) in *.
    clearbody X Y D A B. split; lra.
  - rewrite Ed.
    rewrite (set_from_negative_fraction full m e V He R0 R1).
    destruct (one_minus_close m e V He) as (m' & e' & E' & V' & _ & C').
    rewrite E'.
    pose proof (to_Q_finite_positive m e) as Hq.
    assert (Hfull1 : (inject_Z (full - 1) == inject_Z full - 1)%Q).
    { unfold Zminus. rewrite inject_Z_plus, inject_Z_opp. reflexivity. }
    unfold close, eps in C, C'.
    set (X := to_Q (get_frac_secs a)) in *.
    set (Y := to_Q (get_frac_secs b)) in *.
    set (Q0 := to_Q (S754_finite false m e)) in *.
    assert (HF : (to_Q (S754_finite false m' e') < 1)%Q).
    { set (F := to_Q (S754_finite false m' e')) in *.
      clearbody X Y Q0 F. destruct Hgap; lra. }
    exists (mk_time_spec (full - 1) (S754_finite false m' e')).
    split; [reflexivity|]. split; [reflexivity|]. split; [|split].
    + unfold normalized. cbn [get_frac_secs _frac_secs].
      now rewrite (ltb_one_of_value m' e' V' HF).
    + unfold well_formed.
      cbn [get_full_secs get_frac_secs _full_secs _frac_secs].
      now rewrite R1, V'.
    + unfold time_value.
      cbn [get_full_secs get_frac_secs _full_secs _frac_secs].
      rewrite Hfull1, Hfull. fold X Y.
      set (F := to_Q (S754_finite false m' e')) in *.
      set (A := inject_Z (get_full_secs a)) in *.
      set (B := inject_Z (get_full_secs b)) in *.
      clearbody X Y Q0 F A B. split; lra.
Qed.

(** 0.25 s - 0.75 s *)
Lemma difference_is_normalized_witness :
  exists t,
    op_sub (mk_time_spec 0 (literal 1 4)) (mk_time_spec 0 (literal 3 4))
    = Value t
    /\ normalized t = true.
Proof.
  assert (W1 : well_formed (mk_time_spec 0 (literal 1 4)) = true)
    by (vm_compute; reflexivity).
  assert (W2 : well_formed (mk_time_spec 0 (literal 3 4)) = true)
    by (vm_compute; reflexivity).
  assert (N1 : normalized (mk_time_spec 0 (literal 1 4)) = true)
    by (vm_compute; reflexivity).
  assert (N2 : normalized (mk_time_spec 0 (literal 3 4)) = true)
    by (vm_compute; reflexivity).
  destruct (difference_is_normalized _ _ W1 W2 N1 N2)
    as (t & H1 & _ & H2 & _).
  - vm_compute. reflexivity.
  - vm_compute. reflexivity.
  - right. vm_compute. discriminate.
  - exists t. split; assumption.
Defined.


(** ** Operators with a [double] operand *)

Section DoubleOperand.

(** [std::trunc] of a positive double is the double of its integer part,
    and both are cast to the same [int64_t]. *)
Lemma trunc_positive (m : positive) (e : Z) :
  Double.valid (S754_finite false m e) = true ->
  exists z,
    Double.truncate (S754_finite false m e) = Some z
    /\ Double.trunc (S754_finite false m e) = Double.of_int z
    /\ Double.to_int (Double.of_int z)
       = Double.to_int (S754_finite false m e).
Proof.
  intros V. pose proof (valid_finite_bounds _ _ _ V) as (Hm & _ & _).
  destruct (Z.lt_ge_cases e 0) as [He|He].
  - destruct e as [|p|p]; try lia.
    pose proof (truncate_finite_neg_exp m p) as Ht.
    exists (Zpos m / 2 ^ Zpos p). split; [exact Ht|].
    split; [unfold Double.trunc; rewrite Ht; reflexivity|].
    assert (H2 : 0 < 2 ^ Zpos p) by (apply Z.pow_pos_nonneg; lia).
    assert (Hz : 0 <= Zpos m / 2 ^ Zpos p < 2 ^ 53).
    { split; [apply Z.div_pos; lia|].
      apply Z.div_lt_upper_bound; [lia|]. nia. }
    unfold Double.to_int at 2. rewrite Ht.
    rewrite (in_range_small (Zpos m / 2 ^ Zpos p)) by lia.
    destruct (Z.eq_dec (Zpos m / 2 ^ Zpos p) 0) as [E0|E0].
    + rewrite E0. reflexivity.
    + apply to_int_of_int. lia.
  - pose proof (truncate_finite_nonneg_exp m e He) as Ht.
    exists (Zpos m * 2 ^ e). split; [exact Ht|].
    split; [unfold Double.trunc; rewrite Ht; reflexivity|].
    now rewrite (of_int_integral m e V He).
Qed.

End DoubleOperand.

(** Adding or subtracting a [double] that is +0.0 or positive is adding or
    subtracting the time constructed from that double, undefined cases
    included. *)
Theorem double_operand_as_time (l : time_spec_t) (r : double) :
  Double.valid r = true ->
  r = Double.zero \/ Double.ltb Double.zero r = true ->
  op_add_double l r = (t <- time_spec_of_secs r ;; op_add l t)
  /\ op_sub_double l r = (t <- time_spec_of_secs r ;; op_sub l t).
Proof.
  intros V [->|Hpos].
  - split; reflexivity.
  - destruct r as [s|s| |s m e]; try discriminate.
    + destruct s; [discriminate|]. split; reflexivity.
    + destruct s; [discriminate|].
      destruct (trunc_positive m e V) as (z & Ht & Etr & Eti).
      unfold op_add_double, op_sub_double, time_spec_of_secs, time_spec.
      rewrite Etr, Eti.
      destruct (Double.to_int (S754_finite false m e)) as [z'|why] eqn:Ez.
      * assert (z' = z).
        { unfold Double.to_int in Ez. rewrite Ht in Ez.
          destruct (Int64.in_range z); congruence. }
        subst z'.
        assert (Rz : Int64.in_range (0 + z) = true).
        { unfold Double.to_int in Ez. rewrite Ht in Ez.
          destruct (Int64.in_range z) eqn:R; [exact R|discriminate]. }
        destruct (set_from_nonneg 0 (S754_finite false m e) z V
                    ltac:(reflexivity) Ez Rz) as [Hs _].
        rewrite Hs. cbn [bind]. unfold op_add, op_sub, time_spec.
        cbn [get_full_secs get_frac_secs _full_secs _frac_secs].
        rewrite Z.add_0_l. split; reflexivity.
      * unfold set_from. rewrite Ez. split; reflexivity.
Qed.

(** 0.5 s and the double 1.25 *)
Lemma double_operand_as_time_witness :
  op_add_double (mk_time_spec 0 Double.half) (literal 5 4)
  = (t <- time_spec_of_secs (literal 5 4) ;;
     op_add (mk_time_spec 0 Double.half) t).
Proof.
  apply (double_operand_as_time (mk_time_spec 0 Double.half) (literal 5 4));
    [vm_compute; reflexivity|right; vm_compute; reflexivity].
Defined.

(** ** Commutativity of the sum *)

Lemma double_add_comm (x y : double) : Double.add x y = Double.add y x.
Proof.
  unfold Double.add, SFadd.
  destruct x as [sx|sx| |sx mx ex], y as [sy|sy| |sy my ey];
    try reflexivity; try (now destruct sx, sy).
  rewrite (Z.min_comm ex ey). f_equal. apply Z.add_comm.
Qed.

(** The sum of two times does not depend on the order of the operands:
    [a + b] and [b + a] are the same time, or are both undefined for the
    same reason; so are [a += b] and [b += a]. *)
Theorem sum_commutes (a b : time_spec_t) :
  op_add a b = op_add b a /\ op_add_assign a b = op_add_assign b a.
Proof.
  unfold op_add, op_add_assign, Int64.add.
  rewrite (Z.add_comm (get_full_secs a)), (double_add_comm (get_frac_secs a)).
  split; reflexivity.
Qed.

(** ** Construction from negative fractional seconds *)

Section RepresentableFraction.

(** [frac + 1] for a negative fraction [frac] above -1, when the exact sum
    is a double. *)
Lemma one_minus_exact (m : positive) (e : Z) (d : double) :
  Double.valid (S754_finite false m e) = true -> e < -52 ->
  Double.valid d = true ->
  (to_Q d == 1 - to_Q (S754_finite false m e))%Q ->
  Double.add (S754_finite true m e) Double.one = d.
Proof.
  intros V He Vd Hd.
  pose proof (fraction_below_one m e V He) as [Hq0 Hq1].
  assert (Hpos : (0 < to_Q d)%Q).
  { rewrite Hd. set (X := to_Q (S754_finite false m e)) in *.
    clearbody X. lra. }
  destruct (to_Q_positive d Hpos) as (md & ed & ->).
  assert (Hlt1 : (to_Q (S754_finite false md ed) < 1)%Q).
  { rewrite Hd. set (X := to_Q (S754_finite false m e)) in *.
    clearbody X. lra. }
  pose proof (ltb_one_inv md ed Vd (ltb_one_of_value md ed Vd Hlt1)) as Hed.
  pose proof (valid_finite_bounds _ _ _ V) as (Hm & Hemin & _).
  unfold SpecFloat.emin in Hemin.
  change Double.one with (S754_finite false 4503599627370496 (-52)).
  unfold Double.add, Double.prec, Double.emax, SFadd. cbn [cond_Zopp].
  replace (Z.min e (-52)) with e by lia.
  destruct (shl_align_le m e e ltac:(lia)) as (_ & Hx & _).
  destruct (shl_align_le 4503599627370496 (-52) e ltac:(lia)) as (_ & Hy & _).
  set (ax := fst (shl_align m e e)) in *.
  set (ay := fst (shl_align 4503599627370496 (-52) e)) in *.
  rewrite Z.sub_diag, Z.mul_1_r in Hx.
  assert (Hy' : Zpos ay = 2 ^ (- e)).
  { rewrite Hy. change 4503599627370496 with (2 ^ 52).
    rewrite <- Z.pow_add_r by lia. f_equal. lia. }
  assert (H53 : 2 ^ 53 <= 2 ^ (- e)) by (apply Z.pow_le_mono_r; lia).
  destruct (- Zpos ax + Zpos ay) as [|n|n] eqn:En; try lia.
  cbn [binary_normalize].
  apply binary_round_representable; try assumption; try lia.
  rewrite Hd, to_Q_pow2.
  replace (Zpos n) with (2 ^ (- e) - Zpos m) by lia.
  unfold Zminus. rewrite inject_Z_plus, inject_Z_opp.
  rewrite pow2_inject by lia.
  assert (E1 : (pow2 (- e) * pow2 e == 1)%Q).
  { rewrite <- pow2_add. replace (- e + e) with 0 by lia. reflexivity. }
  rewrite Qmult_plus_distr_l, E1. ring.
Qed.

End RepresentableFraction.

Section NegativeSeconds.

Lemma opp_involutive (x : double) : SFopp (SFopp x) = x.
Proof. destruct x as [s|s| |s m e]; cbn [SFopp]; now rewrite ?negb_involutive. Qed.

(** Subtracting from a negative double its integer part gives the opposite
    of what it gives for the opposite double, when that is not zero. *)
Lemma sub_negated (m : positive) (e a : Z) :
  0 <= a ->
  let fr := Double.sub (S754_finite false m e) (Double.of_int a) in
  (Double.sub (S754_finite true m e) (Double.of_int (- a)) = S754_zero false
   /\ fr = S754_zero false)
  \/ Double.sub (S754_finite true m e) (Double.of_int (- a)) = SFopp fr.
Proof.
  intros Ha fr. unfold fr. destruct a as [|p|p]; try lia.
  - right. reflexivity.
  - change (- Zpos p) with (Zneg p). rewrite of_int_opp.
    destruct (Double.of_int (Zpos p)) as [s|s| |s mi ei].
    + right. reflexivity.
    + right. now destruct s.
    + right. reflexivity.
    + unfold Double.sub, Double.prec, Double.emax, SFopp, SFsub.
      set (ez := Z.min e ei).
      set (ax := Zpos (fst (shl_align m e ez))).
      set (ay := Zpos (fst (shl_align mi ei ez))).
      assert (E : cond_Zopp true ax - cond_Zopp (negb s) ay
                  = - (cond_Zopp false ax - cond_Zopp s ay)).
      { destruct s; cbn [cond_Zopp negb]; lia. }
      rewrite E.
      destruct (cond_Zopp false ax - cond_Zopp s ay) as [|n|n];
        cbn [Z.opp binary_normalize].
      * left. split; reflexivity.
      * right. rewrite binary_round_opp.
        now destruct (binary_round 53 1024 false n ez).
      * right. rewrite binary_round_opp.
        destruct (binary_round 53 1024 false n ez) as [s'|s'| |s' m' e'];
          cbn [SFopp]; now rewrite ?negb_involutive.
Qed.

(** [frac + 1] for a negative fraction [frac] of at most -2^-53: the sum is
    below 1. *)
Lemma one_minus_fraction (m : positive) (e : Z) :
  Double.valid (S754_finite false m e) = true -> e < -52 ->
  ((1 # 9007199254740992) <= to_Q (S754_finite false m e))%Q ->
  exists m' e',
    Double.add (S754_finite true m e) Double.one = S754_finite false m' e'
    /\ Double.valid (S754_finite false m' e') = true
    /\ e' < -52
    /\ close (to_Q (S754_finite false m' e'))
             (1 - to_Q (S754_finite false m e)).
Proof.
  intros V He Hq.
  pose proof (valid_finite_bounds _ _ _ V) as (Hm & Hemin & _).
  unfold SpecFloat.emin in Hemin.
  set (U := 2 ^ (-53 - e)).
  assert (HU : 0 < U) by (apply Z.pow_pos_nonneg; lia).
  assert (HU2 : 2 ^ 53 * U = 2 ^ (- e)).
  { unfold U. rewrite <- Z.pow_add_r by lia. f_equal. lia. }
  assert (HmU : U <= Zpos m).
  { rewrite Zle_Qle. unfold U. rewrite pow2_inject by lia.
    apply (Qmult_le_r _ _ (pow2 e)); [apply pow2_positive|].
    rewrite <- pow2_add. replace (-53 - e + e) with (-53) by lia.
    rewrite <- to_Q_pow2. exact Hq. }
  change Double.one with (S754_finite false 4503599627370496 (-52)).
  unfold Double.add, Double.prec, Double.emax, SFadd. cbn [cond_Zopp].
  replace (Z.min e (-52)) with e by lia.
  destruct (shl_align_le m e e ltac:(lia)) as (_ & Hx & _).
  destruct (shl_align_le 4503599627370496 (-52) e ltac:(lia)) as (_ & Hy & _).
  set (ax := fst (shl_align m e e)) in *.
  set (ay := fst (shl_align 4503599627370496 (-52) e)) in *.
  rewrite Z.sub_diag, Z.mul_1_r in Hx.
  assert (Hy' : Zpos ay = 2 ^ (- e)).
  { rewrite Hy. change 4503599627370496 with (2 ^ 52).
    rewrite <- Z.pow_add_r by lia. f_equal. lia. }
  assert (H53 : 2 ^ 53 <= 2 ^ (- e)) by (apply Z.pow_le_mono_r; lia).
  destruct (- Zpos ax + Zpos ay) as [|n|n] eqn:En; try lia.
  cbn [binary_normalize].
  destruct (binary_round_fraction n e ltac:(lia))
    as (m' & e' & Hr & Hv & He' & Hc); [fold U; nia|].
  exists m', e'. split; [exact Hr|]. split; [exact Hv|]. split; [exact He'|].
  unfold close in *.
  assert (EV : (inject_Z (Zpos n) * pow2 e
                == 1 - to_Q (S754_finite false m e))%Q).
  { rewrite to_Q_pow2.
    replace (Zpos n) with (2 ^ (- e) - Zpos m) by lia.
    unfold Zminus. rewrite inject_Z_plus, inject_Z_opp.
    rewrite pow2_inject by lia.
    assert (E1 : (pow2 (- e) * pow2 e == 1)%Q).
    { rewrite <- pow2_add. replace (- e + e) with 0 by lia. reflexivity. }
    rewrite Qmult_plus_distr_l, E1. ring. }
  now rewrite EV in Hc.
Qed.

(** [set_from] on negative fractional seconds [r], whose integer part is
    [z]: when [r] is an integer, or its fractional part is at most -2^-53,
    the time is normalized; its value is [s0 + r], exactly when [r] is an
    integer or [r - z + 1] is a double, and up to 2^-52 otherwise. *)
Lemma negative_seconds (s0 : Z) (m : positive) (e z : Z) :
  Double.valid (S754_finite true m e) = true ->
  Double.to_int (S754_finite true m e) = Value z ->
  Int64.in_range (s0 + z) = true -> Int64.in_range (s0 + z - 1) = true ->
  (to_Q (S754_finite true m e) == inject_Z z
   \/ to_Q (S754_finite true m e) + (1 # 9007199254740992) <= inject_Z z)%Q ->
  exists t,
    set_from s0 (S754_finite true m e) = Value t
    /\ normalized t = true /\ well_formed t = true
    /\ ((to_Q (S754_finite true m e) == inject_Z z)%Q
        \/ (exists d, Double.valid d = true
                      /\ to_Q d == 1 + to_Q (S754_finite true m e)
                                 - inject_Z z)%Q ->
        time_value t == inject_Z s0 + to_Q (S754_finite true m e))%Q
    /\ (inject_Z s0 + to_Q (S754_finite true m e) - (1 # 4503599627370496)
        <= time_value t
        <= inject_Z s0 + to_Q (S754_finite true m e)
           + (1 # 4503599627370496))%Q.
Proof.
  intros V Hz R R1 Hgap.
  assert (V' : Double.valid (S754_finite false m e) = true) by exact V.
  assert (Ht : exists a, Double.truncate (S754_finite false m e) = Some a
                         /\ 0 <= a /\ z = - a).
  { unfold Double.to_int in Hz. unfold Double.truncate in *.
    eexists. split; [reflexivity|].
    split.
    - destruct e as [|p|p]; try lia.
      + apply Z.shiftl_nonneg. lia.
      + apply Z.shiftr_nonneg. lia.
    - destruct (Int64.in_range _); congruence. }
  destruct Ht as (a & Ht & Ha & ->).
  pose proof (fractional_part_exact m e a V' Ht)
    as (F1 & F2 & F3 & F4 & F5).
  set (fr := Double.sub (S754_finite false m e) (Double.of_int a)) in *.
  assert (Hr : (to_Q (S754_finite true m e)
                == - to_Q (S754_finite false m e))%Q) by reflexivity.
  assert (Ez : (inject_Z (- a) == - inject_Z a)%Q)
    by (rewrite inject_Z_opp; reflexivity).
  assert (Es : (inject_Z (s0 + - a) == inject_Z s0 - inject_Z a)%Q).
  { rewrite inject_Z_plus, inject_Z_opp. reflexivity. }
  assert (Hzero : forall s,
             (to_Q (S754_finite false m e) == inject_Z a)%Q ->
             set_from s0 (S754_finite true m e)
             = Value (mk_time_spec (s0 + - a) (S754_zero s)) ->
             exists t,
               set_from s0 (S754_finite true m e) = Value t
               /\ normalized t = true /\ well_formed t = true
               /\ ((to_Q (S754_finite true m e) == inject_Z (- a))%Q
                   \/ (exists d, Double.valid d = true
                                 /\ to_Q d == 1 + to_Q (S754_finite true m e)
                                            - inject_Z (- a))%Q ->
                   time_value t == inject_Z s0 + to_Q (S754_finite true m e))%Q
               /\ (inject_Z s0 + to_Q (S754_finite true m e)
                   - (1 # 4503599627370496)
                   <= time_value t
                   <= inject_Z s0 + to_Q (S754_finite true m e)
                      + (1 # 4503599627370496))%Q).
  { intros s Hv Hs. eexists. split; [exact Hs|].
    split; [now destruct s|]. split; [|split].
    - unfold well_formed.
      cbn [get_full_secs get_frac_secs _full_secs _frac_secs].
      rewrite R. now destruct s.
    - intros _. unfold time_value.
      cbn [get_full_secs get_frac_secs _full_secs _frac_secs].
      change (to_Q (S754_zero s)) with 0%Q. rewrite Es, Hr, Hv. ring.
    - unfold time_value.
      cbn [get_full_secs get_frac_secs _full_secs _frac_secs].
      change (to_Q (S754_zero s)) with 0%Q. rewrite Es, Hr, Hv.
      set (A := inject_Z a). set (S0 := inject_Z s0).
      clearbody A S0. split; lra. }
  assert (Hset : forall fr',
             Double.sub (S754_finite true m e) (Double.of_int (- a)) = fr' ->
             set_from s0 (S754_finite true m e)
             = if Double.ltb fr' Double.zero then
                 full' <- Int64.sub (s0 + - a) 1 ;;
                 Value (mk_time_spec full' (Double.add fr' Double.one))
               else Value (mk_time_spec (s0 + - a) fr')).
  { intros fr' E. unfold set_from. rewrite Hz. cbn [bind].
    unfold Int64.add, Int64.checked. rewrite R. cbn [bind].
    now rewrite E. }
  destruct (sub_negated m e a Ha) as [[E1 E2]|E1].
  - fold fr in E2. apply (Hzero false).
    + rewrite <- F5, E2. change (to_Q (S754_zero false)) with 0%Q. ring.
    + now rewrite (Hset _ E1).
  - fold fr in E1. rewrite (Hset _ E1). clearbody fr.
    destruct fr as [s|s| |s mf ef];
      [|exfalso; now destruct s|exfalso; easy|].
    + rewrite <- (Hset _ E1). apply (Hzero (negb s)).
      * rewrite <- F5. change (to_Q (S754_zero s)) with 0%Q. ring.
      * rewrite (Hset _ E1). now destruct s.
    + destruct s; [discriminate|]. cbn [SFopp negb].
      replace (Double.ltb (S754_finite true mf ef) Double.zero)
        with true by reflexivity.
      unfold Int64.sub, Int64.checked. rewrite R1. cbn [bind].
      pose proof (ltb_one_inv mf ef F4 F3) as Hef.
      pose proof (fraction_below_one mf ef F4 Hef) as Hq.
      assert (Es1 : (inject_Z (s0 + - a - 1)
                     == inject_Z s0 - inject_Z a - 1)%Q).
      { unfold Zminus. rewrite !inject_Z_plus, !inject_Z_opp. reflexivity. }
      rewrite Hr, Ez in Hgap.
      assert (Hq53 : ((1 # 9007199254740992)
                      <= to_Q (S754_finite false mf ef))%Q).
      { set (Q0 := to_Q (S754_finite false mf ef)) in *.
        set (X := to_Q (S754_finite false m e)) in *.
        set (A := inject_Z a) in *.
        clearbody Q0 X A. destruct Hgap; lra. }
      destruct (one_minus_fraction mf ef F4 Hef Hq53)
        as (m' & e' & E' & Vr & He' & C').
      rewrite E'.
      unfold close, eps in C'.
      set (Q0 := to_Q (S754_finite false mf ef)) in *.
      set (X := to_Q (S754_finite false m e)) in *.
      set (A := inject_Z a) in *. set (S0 := inject_Z s0) in *.
      eexists. split; [reflexivity|]. split; [|split; [|split]].
      * unfold normalized. cbn [get_frac_secs _frac_secs].
        now rewrite (ltb_one_small_exp m' e' He').
      * unfold well_formed.
        cbn [get_full_secs get_frac_secs _full_secs _frac_secs].
        now rewrite R1, Vr.
      * intros [Hint|(d & Vd & Hd)].
        -- exfalso. rewrite Hr, Ez in Hint. fold X A in Hint.
           clearbody Q0 X A S0. lra.
        -- assert (Hd' : (to_Q d == 1 - to_Q (S754_finite false mf ef))%Q).
           { rewrite Hd, Hr, Ez. fold Q0 X A. clearbody Q0 X A S0. lra. }
           pose proof (one_minus_exact mf ef d F4 Hef Vd Hd') as Ed.
           rewrite E' in Ed. subst d. unfold time_value.
           cbn [get_full_secs get_frac_secs _full_secs _frac_secs].
           rewrite Es1, Hr, Hd'. fold S0 A X Q0.
           clearbody Q0 X A S0. lra.
      * unfold time_value.
        cbn [get_full_secs get_frac_secs _full_secs _frac_secs].
        rewrite Es1, Hr. fold S0 A X.
        set (F := to_Q (S754_finite false m' e')) in *.
        clearbody Q0 X A S0 F. split; lra.
Qed.

End NegativeSeconds.

(** Constructing a time from whole seconds [s0] and negative fractional
    seconds [r], whose integer part [z] fits an [int64_t] as do [s0 + z] and
    [s0 + z - 1]: the time is normalized, and its value is [s0 + r] up to
    2^-52 s, when [r] is an integer or its fractional part is not above
    -2^-52. *)
Theorem negative_construction (s0 : Z) (m : positive) (e z : Z) :
  Double.valid (S754_finite true m e) = true ->
  Double.to_int (S754_finite true m e) = Value z ->
  Int64.in_range (s0 + z) = true -> Int64.in_range (s0 + z - 1) = true ->
  (to_Q (S754_finite true m e) == inject_Z z
   \/ to_Q (S754_finite true m e) + (1 # 4503599627370496) <= inject_Z z)%Q ->
  exists t,
    time_spec s0 (S754_finite true m e) = Value t
    /\ normalized t = true /\ well_formed t = true
    /\ (inject_Z s0 + to_Q (S754_finite true m e) - (1 # 4503599627370496)
        <= time_value t
        <= inject_Z s0 + to_Q (S754_finite true m e)
           + (1 # 4503599627370496))%Q.
Proof.
  intros V Hz R R1 Hgap.
  destruct (negative_seconds s0 m e z V Hz R R1)
    as (t & H1 & H2 & H3 & _ & H4).
  { destruct Hgap as [H|H]; [now left|right].
    set (X := to_Q (S754_finite true m e)) in *.
    set (Z0 := inject_Z z) in *. clearbody X Z0. lra. }
  exists t. auto.
Qed.

(** [TimeSpec(4, -1.75)] *)
Lemma negative_construction_witness :
  exists t, time_spec 4 (SFopp (literal 7 4)) = Value t /\ normalized t = true.
Proof.
  destruct (negative_construction 4 7881299347898368 (-52) (-1))
    as (t & H1 & H2 & _).
  - vm_compute. reflexivity.
  - vm_compute. reflexivity.
  - vm_compute. reflexivity.
  - vm_compute. reflexivity.
  - right. vm_compute. discriminate.
  - exists t. split; [exact H1|exact H2].
Defined.

(** ** Construction from whole and fractional seconds (C3) *)

(** C3 fails on the code as worded: [TimeSpec(0, -0.3)], [-0.3] being the
    double of that literal, is normalized, with fractional seconds in
    [0, 1), but its whole and fractional seconds add up to [-0.3 - 2^-54]:
    the sum [-0.3 + 1] is not a double and is rounded. *)
Lemma construction_rounds :
  time_spec 0 (SFopp (literal 3 10))
  = Value (mk_time_spec (-1) (S754_finite false 6305039478318694 (-53)))
  /\ normalized (mk_time_spec (-1) (S754_finite false 6305039478318694 (-53)))
     = true
  /\ ~ (inject_Z (-1) + to_Q (S754_finite false 6305039478318694 (-53))
        == inject_Z 0 + to_Q (SFopp (literal 3 10)))%Q.
Proof.
  split; [vm_compute; reflexivity|]. split; [vm_compute; reflexivity|].
  intros H. vm_compute in H. discriminate H.
Qed.

(** C3, as the code has it. Constructing a time from whole seconds [s0] and
    finite fractional seconds [f] whose integer part [z] fits an [int64_t],
    as does [s0 + z]. When [f] is not negative the fractional seconds of the
    time are in [0, 1), and whole plus fractional seconds are exactly
    [s0 + f]. When [f] is negative, and [s0 + z - 1] fits an [int64_t] for
    the borrow, they are in [0, 1) if [f] is an integer or its fractional
    part is at most -2^-53; whole plus fractional seconds are then [s0 + f]
    exactly when [f] is an integer or when [f - z + 1], the fractional part
    plus 1, is a double, and within 2^-52 otherwise, the addition of 1 to
    the fractional part being rounded. [TimeSpec(5, 1.75)] is the time with
    6 whole seconds and the fractional seconds 0.75. *)
Theorem construction_normalizes :
  (forall (s0 : Z) (f : double) (z : Z),
      Double.valid f = true -> Double.leb Double.zero f = true ->
      Double.to_int f = Value z -> Int64.in_range (s0 + z) = true ->
      exists t,
        time_spec s0 f = Value t
        /\ normalized t = true
        /\ (inject_Z (get_full_secs t) + to_Q (get_frac_secs t)
            == inject_Z s0 + to_Q f)%Q)
  /\ (forall (s0 : Z) (m : positive) (e z : Z),
        Double.valid (S754_finite true m e) = true ->
        Double.to_int (S754_finite true m e) = Value z ->
        Int64.in_range (s0 + z) = true ->
        Int64.in_range (s0 + z - 1) = true ->
        (to_Q (S754_finite true m e) == inject_Z z
         \/ to_Q (S754_finite true m e) + (1 # 9007199254740992)
            <= inject_Z z)%Q ->
        exists t,
          time_spec s0 (S754_finite true m e) = Value t
          /\ normalized t = true
          /\ ((to_Q (S754_finite true m e) == inject_Z z)%Q
              \/ (exists d, Double.valid d = true
                            /\ to_Q d == 1 + to_Q (S754_finite true m e)
                                       - inject_Z z)%Q ->
              inject_Z (get_full_secs t) + to_Q (get_frac_secs t)
              == inject_Z s0 + to_Q (S754_finite true m e))%Q
          /\ (inject_Z s0 + to_Q (S754_finite true m e)
              - (1 # 4503599627370496)
              <= inject_Z (get_full_secs t) + to_Q (get_frac_secs t)
              <= inject_Z s0 + to_Q (S754_finite true m e)
                 + (1 # 4503599627370496))%Q)
  /\ time_spec 5 (literal 7 4) = Value (mk_time_spec 6 (literal 3 4)).
Proof.
  split; [|split; [|vm_compute; reflexivity]].
  - intros s0 f z Hv Hpos Hz Hr.
    destruct (set_from_nonneg s0 f z Hv Hpos Hz Hr)
      as (Hs & Hlt & Hle & Hone & Hvalid & Hsum).
    exists (mk_time_spec (s0 + z) (Double.sub f (Double.of_int z))).
    split; [exact Hs|]. split.
    + unfold normalized. cbn [get_frac_secs _frac_secs].
      now rewrite Hle, Hone.
    + cbn [get_full_secs get_frac_secs _full_secs _frac_secs].
      rewrite inject_Z_plus, <- Hsum. ring.
  - intros s0 m e z V Hz R R1 Hgap.
    destruct (negative_seconds s0 m e z V Hz R R1 Hgap)
      as (t & H1 & H2 & _ & H3 & H4).
    exists t. split; [exact H1|]. split; [exact H2|].
    split; [exact H3|exact H4].
Qed.

(** [TimeSpec(-3, 2.5)] and [TimeSpec(4, -1.75)] *)
Lemma construction_normalizes_witness :
  (exists t,
      time_spec (-3) (literal 5 2) = Value t
      /\ normalized t = true
      /\ (inject_Z (get_full_secs t) + to_Q (get_frac_secs t)
          == inject_Z (-3) + to_Q (literal 5 2))%Q)
  /\ (exists t,
        time_spec 4 (SFopp (literal 7 4)) = Value t
        /\ normalized t = true
        /\ (inject_Z (get_full_secs t) + to_Q (get_frac_secs t)
            == inject_Z 4 + to_Q (SFopp (literal 7 4)))%Q).
Proof.
  split.
  - apply (proj1 construction_normalizes (-3) (literal 5 2) 2);
      vm_compute; reflexivity.
  - destruct (proj1 (proj2 construction_normalizes)
                4 7881299347898368%positive (-52) (-1))
      as (t & H1 & H2 & H3 & _).
    + vm_compute. reflexivity.
    + vm_compute. reflexivity.
    + vm_compute. reflexivity.
    + vm_compute. reflexivity.
    + right. vm_compute. discriminate.
    + exists t. split; [exact H1|]. split; [exact H2|].
      apply H3. right. exists (literal 1 4).
      split; vm_compute; reflexivity.
Defined.

(** * Rounding products and sums with 0.5 (C5) *)

Section Outcomes.

(** Rounding a positive mantissa [m] with enough digits at the exponent
    [e], whatever the magnitude: the result is a zero, an infinity when the
    exponent of the format is beyond the largest one, or a valid double as
    [binary_round_aux_faithful] says. *)
Lemma binary_round_aux_outcomes (s : bool) (m : positive) (e : Z) (l : location) :
  let e0 := fexp 53 1024 (Zpos (digits2_pos m) + e) in
  let q := Zpos m / 2 ^ (e0 - e) in
  e <= e0 ->
  (binary_round_aux 53 1024 s (Zpos m) e l = S754_zero s /\ q = 0)
  \/ (binary_round_aux 53 1024 s (Zpos m) e l = S754_infinity s /\ 971 <= e0)
  \/ exists m' e',
       binary_round_aux 53 1024 s (Zpos m) e l = S754_finite s m' e'
       /\ Double.valid (S754_finite s m' e') = true
       /\ e0 <= e' <= e0 + 1
       /\ q <= Zpos m' * 2 ^ (e' - e0) <= q + 1.
Proof.
  intros e0 q Hle.
  assert (He0 : e0 = Z.max (Zpos (digits2_pos m) + e - 53) (-1074)).
  { unfold e0, fexp, SpecFloat.emin. now change IntDef.Z.max with Z.max. }
  set (n := e0 - e) in *.
  assert (Hn : 0 <= n) by (unfold n; lia).
  assert (H2n : 0 < 2 ^ n) by (apply Z.pow_pos_nonneg; lia).
  pose proof (digits2_pos_spec m) as [Hdl Hdu].
  set (d := Zpos (digits2_pos m)) in *.
  assert (Hq53 : q < 2 ^ 53).
  { apply Z.div_lt_upper_bound; [assumption|].
    rewrite <- Z.pow_add_r by lia.
    apply Z.lt_le_trans with (1 := Hdu). apply Z.pow_le_mono_r; lia. }
  assert (Hq0 : 0 <= q) by (apply Z.div_pos; lia).
  assert (Hq52 : -1074 < e0 -> 2 ^ 52 <= q).
  { intros H. apply Z.div_le_lower_bound; [assumption|].
    rewrite <- Z.pow_add_r by lia.
    replace (n + 52) with (d - 1) by (unfold n; lia). exact Hdl. }
  unfold binary_round_aux, shr_fexp. cbn [Zdigits2]. fold d e0 n.
  destruct (shr_spec m l e n Hn) as (Hm1 & He1 & _).
  destruct (shr (shr_record_of_loc (Zpos m) l) e n) as [mrs' e1].
  cbn [fst snd] in Hm1, He1. fold q in Hm1.
  assert (E1 : e1 = e0) by (unfold n in He1; lia). clear He1. subst e1.
  pose proof (round_nearest_even_bounds (shr_m mrs') (loc_of_shr_record mrs'))
    as Hr.
  set (m1 := round_nearest_even (shr_m mrs') (loc_of_shr_record mrs')) in *.
  rewrite Hm1 in Hr. clear Hm1.
  destruct m1 as [|p1|p1] eqn:Em1; try lia.
  - left. cbn [Zdigits2 shr_record_of_loc].
    assert (Hz : fexp 53 1024 (0 + e0) - e0 <= 0).
    { unfold fexp, SpecFloat.emin. change IntDef.Z.max with Z.max. lia. }
    destruct (fexp 53 1024 (0 + e0) - e0) as [|z|z] eqn:Ez; try lia;
      cbn [shr shr_m]; split; try reflexivity; lia.
  - right. pose proof (digits2_pos_spec p1) as [Hl1 Hu1].
    destruct (Z.lt_ge_cases (Zpos p1) (2 ^ 53)) as [Hlt|Hge].
    + assert (Hd1 : Zpos (digits2_pos p1) <= 53)
        by (apply digits2_pos_le; assumption).
      assert (Hc : fexp 53 1024 (Zpos (digits2_pos p1) + e0) = e0).
      { unfold fexp, SpecFloat.emin. change IntDef.Z.max with Z.max.
        destruct (Z.eq_dec e0 (-1074)) as [E|N]; [lia|].
        assert (H52 : 2 ^ 52 <= Zpos p1) by (specialize (Hq52 ltac:(lia)); lia).
        assert (Zpos (digits2_pos p1) = 53); [|lia].
        apply digits2_pos_unique. split; [exact H52|exact Hlt]. }
      cbn [Zdigits2 shr_record_of_loc].
      rewrite Hc, Z.sub_diag. cbn [shr shr_m].
      destruct (Z.leb_spec e0 (1024 - 53)) as [H971|H971].
      * right. exists p1, e0.
        split; [reflexivity|].
        split; [apply canonical_valid; [exact Hc|lia]|].
        change (2 ^ 0) with 1. rewrite Z.sub_diag, Z.mul_1_r.
        change (2 ^ 0) with 1. split; lia.
      * left. split; [reflexivity|lia].
    + assert (E53 : Zpos p1 = 2 ^ 53) by lia.
      assert (Hp1 : p1 = Pos.iter xO 4503599627370496%positive 1%positive).
      { apply Pos2Z.inj. rewrite E53. reflexivity. }
      assert (Hd1 : Zpos (digits2_pos p1) = 54).
      { apply digits2_pos_unique. rewrite E53. split; [lia|].
        apply Z.pow_lt_mono_r; lia. }
      assert (Hc : fexp 53 1024 (Zpos (digits2_pos p1) + e0) - e0 = 1).
      { rewrite Hd1. unfold fexp, SpecFloat.emin.
        change IntDef.Z.max with Z.max. lia. }
      cbn [Zdigits2 shr_record_of_loc]. rewrite Hc. cbn [shr].
      rewrite Hp1. change (Pos.iter xO 4503599627370496%positive 1%positive)
        with (4503599627370496~0)%positive.
      cbn [iter_pos shr_1 shr_m].
      destruct (Z.leb_spec (e0 + 1) (1024 - 53)) as [H971|H971].
      * right. exists 4503599627370496%positive, (e0 + 1).
        split; [reflexivity|]. split.
        { apply canonical_valid; [|lia].
          unfold fexp, SpecFloat.emin. change IntDef.Z.max with Z.max.
          change (Zpos (digits2_pos 4503599627370496)) with 53. lia. }
        replace (e0 + 1 - e0) with 1 by lia.
        change (Zpos 4503599627370496 * 2 ^ 1) with (2 ^ 53).
        split; lia.
      * left. split; [reflexivity|lia].
Qed.

End Outcomes.

Section ShiftedDigits.

Lemma shr_1_bits (m : Z) (r s : bool) :
  0 <= m ->
  shr_1 (Build_shr_record m r s)
  = Build_shr_record (m / 2) (Z.odd m) (r || s).
Proof.
  intros Hm. destruct m as [|[p|p|]|p]; cbn [shr_1 Z.odd]; try lia.
  - reflexivity.
  - f_equal. apply Z.div_unique with (r := 1); lia.
  - f_equal. apply Z.div_unique with (r := 0); lia.
  - reflexivity.
Qed.

(** The digits shifted out of a mantissa: the record keeps the last one and
    whether any digit before it was 1. *)
Lemma shr_bits (M : Z) (n : positive) :
  0 <= M ->
  iter_pos shr_1 n (Build_shr_record M false false)
  = Build_shr_record (M / 2 ^ Zpos n)
      (Z.odd (M / 2 ^ (Zpos n - 1)))
      (negb (M mod 2 ^ (Zpos n - 1) =? 0)).
Proof.
  intros HM. rewrite iter_pos_eq.
  induction n as [|n IH] using Pos.peano_ind.
  - cbn [Pos.iter]. rewrite shr_1_bits by assumption.
    change (Zpos 1 - 1) with 0. change (2 ^ 0) with 1.
    rewrite Z.div_1_r, Z.mod_1_r. reflexivity.
  - rewrite Pos.iter_succ, IH.
    assert (H2 : 0 < 2 ^ (Zpos n - 1)) by (apply Z.pow_pos_nonneg; lia).
    assert (H2n : 2 ^ Zpos n = 2 ^ (Zpos n - 1) * 2).
    { replace (Zpos n) with (Z.succ (Zpos n - 1)) at 1 by lia.
      rewrite Z.pow_succ_r by lia. lia. }
    rewrite shr_1_bits by (apply Z.div_pos; lia).
    rewrite Pos2Z.inj_succ.
    replace (Z.succ (Zpos n) - 1) with (Zpos n) by lia.
    rewrite Z.pow_succ_r by lia.
    rewrite Z.div_div by lia. rewrite (Z.mul_comm (2 ^ Zpos n) 2).
    f_equal.
    rewrite H2n, Z.rem_mul_r by lia.
    set (D := M / 2 ^ (Zpos n - 1)).
    pose proof (Z.mod_pos_bound M (2 ^ (Zpos n - 1)) H2) as Hb.
    pose proof (Z.mod_pos_bound D 2 ltac:(lia)) as Hd.
    pose proof (Zmod_odd D) as Ho.
    set (A := M mod 2 ^ (Zpos n - 1)) in *. set (B := D mod 2) in *.
    set (P := 2 ^ (Zpos n - 1)) in *.
    destruct (Z.odd D), (Z.eqb_spec A 0), (Z.eqb_spec (A + P * B) 0);
      cbn [negb orb]; try reflexivity; exfalso; nia.
Qed.

End ShiftedDigits.

Section HalfUp.

(** Adding 0.5 to a double of at least 2^52, an integer, returns that
    double, unless it is an odd integer below 2^53: the sum is then halfway
    between two doubles and is rounded to the even one. *)
Lemma add_half_large (m : positive) (e : Z) :
  Double.valid (S754_finite false m e) = true -> 0 <= e ->
  (e = 0 -> Z.even (Zpos m) = true) ->
  Double.add (S754_finite false m e) Double.half = S754_finite false m e.
Proof.
  intros V He Heven.
  pose proof (valid_finite_bounds _ _ _ V) as (Hm & (_ & He971) & Hn).
  specialize (Hn ltac:(unfold SpecFloat.emin; lia)).
  unfold Double.half, Double.add, Double.prec, Double.emax, SFadd.
  cbn [cond_Zopp]. replace (Z.min e (-53)) with (-53) by lia.
  destruct (shl_align_le m e (-53) ltac:(lia)) as (_ & Hx & _).
  destruct (shl_align_le 4503599627370496 (-53) (-53) ltac:(lia))
    as (_ & Hy & _).
  set (ax := fst (shl_align m e (-53))) in *.
  set (ay := fst (shl_align 4503599627370496 (-53) (-53))) in *.
  change (Zpos ax + Zpos ay) with (Zpos (ax + ay)). cbn [binary_normalize].
  set (n := e + 53).
  assert (Hn0 : 54 <= n \/ n = 53) by (unfold n; lia).
  assert (H2n : 0 < 2 ^ n) by (apply Z.pow_pos_nonneg; lia).
  assert (H52n : 2 ^ 52 < 2 ^ n) by (apply Z.pow_lt_mono_r; lia).
  assert (HN : Zpos (ax + ay) = Zpos m * 2 ^ n + 2 ^ 52).
  { rewrite Pos2Z.inj_add, Hx, Hy. unfold n.
    replace (e - -53) with (e + 53) by lia.
    change (-53 - -53) with 0. change (2 ^ 0) with 1. lia. }
  assert (Hdig : Zpos (digits2_pos (ax + ay)) = 53 + n).
  { apply digits2_pos_unique. rewrite HN.
    replace (53 + n - 1) with (52 + n) by lia.
    rewrite !Z.pow_add_r by lia. split; nia. }
  assert (Hfexp : fexp 53 1024 (Zpos (digits2_pos (ax + ay)) + -53) = e).
  { rewrite Hdig. unfold fexp, SpecFloat.emin, n.
    change IntDef.Z.max with Z.max. lia. }
  unfold binary_round. rewrite Hfexp, shl_align_gt by lia.
  unfold binary_round_aux, shr_fexp. cbn [Zdigits2]. rewrite Hfexp.
  replace (e - -53) with n by (unfold n; lia).
  destruct n as [|p|p] eqn:En; try lia. cbn [shr shr_record_of_loc].
  rewrite shr_bits by lia. rewrite <- En in *.
  assert (Hq : Zpos (ax + ay) / 2 ^ n = Zpos m).
  { rewrite HN. rewrite Z.div_add_l by lia. rewrite Z.div_small by lia. lia. }
  rewrite Hq.
  assert (Hround :
            round_nearest_even (Zpos m)
              (loc_of_shr_record
                 {| shr_m := Zpos m;
                    shr_r := Z.odd (Zpos (ax + ay) / 2 ^ (n - 1));
                    shr_s := negb (Zpos (ax + ay) mod 2 ^ (n - 1) =? 0) |})
            = Zpos m).
  { assert (H2n1 : 2 ^ n = 2 * 2 ^ (n - 1)).
    { replace n with (Z.succ (n - 1)) at 1 by lia.
      rewrite Z.pow_succ_r by lia. reflexivity. }
    assert (Hp1 : 0 < 2 ^ (n - 1)) by (apply Z.pow_pos_nonneg; lia).
    destruct Hn0 as [H54|H53].
    - (* the digit after the last one kept is 0 *)
      assert (H52 : 2 ^ 52 < 2 ^ (n - 1)) by (apply Z.pow_lt_mono_r; lia).
      assert (Ed : Zpos (ax + ay) / 2 ^ (n - 1) = 2 * Zpos m).
      { rewrite HN, H2n1.
        replace (Zpos m * (2 * 2 ^ (n - 1)))
          with (2 * Zpos m * 2 ^ (n - 1)) by ring.
        rewrite Z.div_add_l by lia. rewrite Z.div_small by lia. lia. }
      assert (Em : Zpos (ax + ay) mod 2 ^ (n - 1) = 2 ^ 52).
      { rewrite HN, H2n1.
        replace (Zpos m * (2 * 2 ^ (n - 1)) + 2 ^ 52)
          with (2 ^ 52 + 2 * Zpos m * 2 ^ (n - 1)) by ring.
        rewrite Z.mod_add by lia. apply Z.mod_small. lia. }
      rewrite Ed, Em. rewrite Z.odd_mul. reflexivity.
    - (* a tie *)
      assert (E52 : n - 1 = 52) by lia. rewrite E52.
      assert (Ed : Zpos (ax + ay) / 2 ^ 52 = 1 + 2 * Zpos m).
      { rewrite HN, H2n1, E52.
        replace (Zpos m * (2 * 2 ^ 52) + 2 ^ 52)
          with ((1 + 2 * Zpos m) * 2 ^ 52) by ring.
        apply Z.div_mul. lia. }
      assert (Em : Zpos (ax + ay) mod 2 ^ 52 = 0).
      { rewrite HN, H2n1, E52.
        replace (Zpos m * (2 * 2 ^ 52) + 2 ^ 52)
          with ((2 * Zpos m + 1) * 2 ^ 52) by ring.
        apply Z.mod_mul. lia. }
      rewrite Ed, Em. rewrite Z.odd_add_mul_2.
      cbn [Z.odd Z.eqb negb loc_of_shr_record round_nearest_even].
      rewrite (Heven ltac:(lia)). reflexivity. }
  cbn [shr_m]. rewrite Hround. cbn [Zdigits2].
  assert (Hd53 : Zpos (digits2_pos m) = 53)
    by (apply digits2_pos_unique; split; assumption).
  replace (-53 + n) with e by lia.
  assert (Hc : fexp 53 1024 (Zpos (digits2_pos m) + e) - e = 0).
  { rewrite Hd53. unfold fexp, SpecFloat.emin.
    change IntDef.Z.max with Z.max. lia. }
  rewrite Hc. cbn [shr shr_record_of_loc shr_m].
  replace (e <=? 1024 - 53) with true by (symmetry; apply Z.leb_le; lia).
  reflexivity.
Qed.

Lemma Qfloor_pow2 (a j : Z) :
  0 <= j -> Qfloor (inject_Z a * pow2 (- j)) = a / 2 ^ j.
Proof.
  intros Hj.
  assert (H2 : 0 < 2 ^ j) by (apply Z.pow_pos_nonneg; lia).
  pose proof (Z.div_mod a (2 ^ j) ltac:(lia)) as Hdm.
  pose proof (Z.mod_pos_bound a (2 ^ j) H2) as Hmod.
  assert (E : forall n, (inject_Z n
                         == inject_Z (n * 2 ^ j) * pow2 (- j))%Q).
  { intros n. rewrite inject_Z_mult, pow2_inject by lia.
    rewrite <- Qmult_assoc, <- pow2_add.
    replace (j + - j) with 0 by lia. change (pow2 0) with 1%Q. ring. }
  apply Qfloor_unique.
  - rewrite (E (a / 2 ^ j)).
    apply Qmult_le_compat_r; [|apply Qlt_le_weak, pow2_positive].
    rewrite <- Zle_Qle. lia.
  - rewrite (E (a / 2 ^ j + 1)).
    apply Qmult_lt_compat_r; [apply pow2_positive|].
    rewrite <- Zlt_Qlt. lia.
Qed.

Lemma value_below_half (m : positive) (e : Z) :
  Double.valid (S754_finite false m e) = true -> e <= -54 ->
  (0 < to_Q (S754_finite false m e) < 1 # 2)%Q.
Proof.
  intros V He. split; [apply to_Q_finite_positive|].
  pose proof (valid_finite_bounds _ _ _ V) as (Hm & _ & _).
  rewrite to_Q_pow2.
  assert (Hp : (pow2 (-54) == pow2 e * inject_Z (2 ^ (-54 - e)))%Q).
  { rewrite pow2_inject by lia. rewrite <- pow2_add.
    replace (e + (-54 - e)) with (-54) by lia. reflexivity. }
  assert (HK : (1 <= inject_Z (2 ^ (-54 - e)))%Q).
  { rewrite <- (Zle_Qle 1).
    apply (Z.pow_le_mono_r 2 0 (-54 - e)); lia. }
  assert (HM : (inject_Z (Zpos m) <= 9007199254740991 # 1)%Q).
  { change (9007199254740991 # 1)%Q with (inject_Z (2 ^ 53 - 1)).
    rewrite <- Zle_Qle. lia. }
  assert (HP : (0 < pow2 e)%Q) by apply pow2_positive.
  assert (H1 : (inject_Z (Zpos m) * pow2 e
                <= (9007199254740991 # 1) * pow2 e)%Q).
  { apply Qmult_le_compat_r; [exact HM|]. now apply Qlt_le_weak. }
  assert (H2 : (1 * pow2 e <= inject_Z (2 ^ (-54 - e)) * pow2 e)%Q).
  { apply Qmult_le_compat_r; [exact HK|]. now apply Qlt_le_weak. }
  rewrite (Qmult_comm (inject_Z _) (pow2 e)), <- Hp in H2.
  change (pow2 (-54)) with (1 # 18014398509481984)%Q in H2.
  set (P := pow2 e) in *. set (M := inject_Z (Zpos m)) in *.
  clearbody P M. lra.
Qed.

(** The sum of 0.5 and a double below 0.5, other than the largest one, is
    below 1 after rounding. *)
Lemma add_half_small (m : positive) (e : Z) :
  Double.valid (S754_finite false m e) = true -> e <= -54 ->
  S754_finite false m e <> pred_half ->
  exists m' e',
    Double.add (S754_finite false m e) Double.half = S754_finite false m' e'
    /\ Double.valid (S754_finite false m' e') = true /\ e' < -52.
Proof.
  intros V He Hne.
  pose proof (valid_finite_bounds _ _ _ V) as (Hm & (Hemin & _) & _).
  unfold SpecFloat.emin in Hemin.
  unfold Double.half, Double.add, Double.prec, Double.emax, SFadd.
  cbn [cond_Zopp]. replace (Z.min e (-53)) with e by lia.
  destruct (shl_align_le m e e ltac:(lia)) as (_ & Hx & _).
  destruct (shl_align_le 4503599627370496 (-53) e ltac:(lia))
    as (_ & Hy & _).
  set (ax := fst (shl_align m e e)) in *.
  set (ay := fst (shl_align 4503599627370496 (-53) e)) in *.
  rewrite Z.sub_diag, Z.mul_1_r in Hx.
  change (Zpos ax + Zpos ay) with (Zpos (ax + ay)). cbn [binary_normalize].
  set (U := 2 ^ (-53 - e)) in *.
  assert (HU : 2 <= U).
  { change 2 with (2 ^ 1) at 1. apply Z.pow_le_mono_r; lia. }
  assert (HN : Zpos (ax + ay) <= (2 ^ 53 - 1) * U).
  { rewrite Pos2Z.inj_add, Hx, Hy.
    destruct (Z.eq_dec e (-54)) as [E|E].
    - assert (Zpos m <> 9007199254740991).
      { intros Em. apply Hne. unfold pred_half. subst e.
        f_equal. now apply Pos2Z.inj. }
      subst e. change U with 2 in *. lia.
    - assert (4 <= U).
      { change 4 with (2 ^ 2) at 1. apply Z.pow_le_mono_r; lia. }
      nia. }
  destruct (binary_round_fraction (ax + ay) e ltac:(lia) HN)
    as (m' & e' & Hr & Hv & He' & _).
  exists m', e'. auto.
Qed.

End HalfUp.

Section HalfUpMiddle.

Lemma Zdiv_between (a b c : Z) :
  0 < b -> c * b <= a < (c + 1) * b -> a / b = c.
Proof.
  intros Hb [H1 H2]. symmetry.
  apply (Z.div_unique a b c (a - c * b)); lia.
Qed.

(** The integer part of a positive double written on a finer grid. *)
Lemma Qfloor_scaled (m : positive) (e E : Z) :
  E <= e -> E <= 0 ->
  Qfloor (to_Q (S754_finite false m e)) = (Zpos m * 2 ^ (e - E)) / 2 ^ (- E).
Proof.
  intros H1 H2. rewrite <- Qfloor_pow2 by lia. apply Qfloor_comp.
  rewrite to_Q_pow2, inject_Z_mult, pow2_inject by lia.
  rewrite <- Qmult_assoc, <- pow2_add.
  replace (e - E + - - E) with e by lia. reflexivity.
Qed.

(** Between 0.5 and 2^52 the sum with 0.5 may be rounded, and the integer
    part of the rounded sum is that of the exact sum. *)
Lemma add_half_middle (m : positive) (e : Z) :
  Double.valid (S754_finite false m e) = true -> -53 <= e <= -1 ->
  exists m' e',
    Double.add (S754_finite false m e) Double.half = S754_finite false m' e'
    /\ Qfloor (to_Q (S754_finite false m' e'))
       = (Zpos m + 2 ^ (- e - 1)) / 2 ^ (- e).
Proof.
  intros V He.
  pose proof (valid_finite_bounds _ _ _ V) as (Hm & _ & Hn).
  specialize (Hn ltac:(unfold emin; lia)).
  unfold Double.half, Double.add, Double.prec, Double.emax, SFadd.
  cbn [cond_Zopp]. replace (Z.min e (-53)) with (-53) by lia.
  destruct (shl_align_le m e (-53) ltac:(lia)) as (_ & Hx & _).
  destruct (shl_align_le 4503599627370496 (-53) (-53) ltac:(lia))
    as (_ & Hy & _).
  set (ax := fst (shl_align m e (-53))) in *.
  set (ay := fst (shl_align 4503599627370496 (-53) (-53))) in *.
  rewrite Z.sub_diag, Z.mul_1_r in Hy.
  change (Zpos ax + Zpos ay) with (Zpos (ax + ay)). cbn [binary_normalize].
  set (k := e + 53).
  replace (e - -53) with k in Hx by (unfold k; lia).
  set (j := - e - 1).
  assert (HJK : 2 ^ j * 2 ^ k = 2 ^ 52).
  { rewrite <- Z.pow_add_r by (unfold j, k; lia). f_equal. unfold j, k. lia. }
  assert (HJ : 0 < 2 ^ j) by (apply Z.pow_pos_nonneg; unfold j; lia).
  assert (HK : 0 < 2 ^ k) by (apply Z.pow_pos_nonneg; unfold k; lia).
  assert (HJ2 : 2 ^ (- e) = 2 * 2 ^ j).
  { replace (- e) with (Z.succ j) by (unfold j; lia).
    apply Z.pow_succ_r. unfold j. lia. }
  assert (HK2 : 2 ^ (k + 1) = 2 * 2 ^ k).
  { replace (k + 1) with (Z.succ k) by lia.
    apply Z.pow_succ_r. unfold k. lia. }
  assert (H53k : 2 ^ (53 + k) = 2 ^ 53 * 2 ^ k).
  { apply Z.pow_add_r; unfold k; lia. }
  assert (H52k : 2 ^ (52 + k) = 2 ^ 52 * 2 ^ k).
  { apply Z.pow_add_r; unfold k; lia. }
  assert (H54k : 2 ^ (54 + k) = 2 ^ 54 * 2 ^ k).
  { apply Z.pow_add_r; unfold k; lia. }
  assert (HN : Zpos (ax + ay) = (Zpos m + 2 ^ j) * 2 ^ k).
  { rewrite Pos2Z.inj_add, Hx, Hy. lia. }
  set (J := 2 ^ j) in *. set (K := 2 ^ k) in *.
  rewrite HJ2.
  destruct (Z_lt_le_dec (Zpos m + J) (2 ^ 53)) as [Hlt|Hge].
  - (* the sum keeps the exponent of the addend *)
    assert (Hd : Zpos (digits2_pos (ax + ay)) = 53 + k).
    { apply digits2_pos_unique. rewrite HN.
      replace (53 + k - 1) with (52 + k) by lia. rewrite H52k, H53k.
      split; nia. }
    pose proof (binary_round_faithful false (ax + ay) (-53)) as H.
    cbv zeta in H. rewrite Hd in H.
    assert (He0 : fexp 53 1024 (53 + k + -53) = e).
    { unfold fexp, SpecFloat.emin. change IntDef.Z.max with Z.max.
      unfold k. lia. }
    rewrite He0 in H.
    destruct (H ltac:(lia) ltac:(lia)) as (m' & e' & Hr & Hv & Hc).
    exists m', e'. split; [exact Hr|].
    assert (HM : Zpos m' * 2 ^ (e' - e) = Zpos m + J).
    { destruct Hc as [(Hle & -> & HM)|(Hlt' & Hrange & Hq & Hex)].
      - assert (EK : K = 1).
        { unfold K. replace k with 0 by (unfold k; lia). reflexivity. }
        replace (-53 - e) with 0 in HM by lia.
        rewrite Z.sub_diag. rewrite HM, HN, EK. change (2 ^ 0) with 1. lia.
      - replace (e - -53) with k in Hq, Hex by (unfold k; lia).
        fold K in Hex, Hq.
        rewrite Hex; rewrite HN.
        + now apply Z.div_mul; lia.
        + apply Z.mod_mul. lia. }
    rewrite (Qfloor_scaled m' e' e) by (destruct Hc; lia).
    rewrite HM, HJ2. reflexivity.
  - (* the sum crosses a power of two *)
    assert (Hd : Zpos (digits2_pos (ax + ay)) = 54 + k).
    { apply digits2_pos_unique. rewrite HN.
      replace (54 + k - 1) with (53 + k) by lia. rewrite H53k, H54k.
      split; nia. }
    pose proof (binary_round_faithful false (ax + ay) (-53)) as H.
    cbv zeta in H. rewrite Hd in H.
    assert (He0 : fexp 53 1024 (54 + k + -53) = e + 1).
    { unfold fexp, SpecFloat.emin. change IntDef.Z.max with Z.max.
      unfold k. lia. }
    rewrite He0 in H.
    destruct (H ltac:(lia) ltac:(lia)) as (m' & e' & Hr & Hv & Hc).
    exists m', e'. split; [exact Hr|].
    destruct Hc as [(Hle & _)|(Hlt' & Hrange & Hq & Hex)]; [lia|].
    replace (e + 1 - -53) with (k + 1) in Hq, Hex by (unfold k; lia).
    rewrite HK2 in Hq, Hex. rewrite HN in Hq, Hex.
    assert (Hq' : (Zpos m + J) * K / (2 * K) = (Zpos m + J) / 2).
    { rewrite (Z.mul_comm 2 K), <- Z.div_div by lia.
      now rewrite Z.div_mul by lia. }
    rewrite Hq' in Hq, Hex.
    rewrite (Qfloor_scaled m' e' (e + 1)) by lia.
    replace (- (e + 1)) with j by (unfold j; lia). fold J.
    set (M := Zpos m' * 2 ^ (e' - (e + 1))) in *.
    pose proof (Z.div_mod (Zpos m + J) 2 ltac:(lia)) as Hdm.
    pose proof (Z.mod_pos_bound (Zpos m + J) 2 ltac:(lia)) as Hmod.
    set (q := (Zpos m + J) / 2) in *.
    transitivity K.
    + apply Zdiv_between; [lia|].
      destruct (Z.eq_dec J 1) as [EJ|NJ].
      * rewrite EJ in *.
        assert (Em : Zpos m + 1 = 2 ^ 53) by lia.
        rewrite Hex.
        -- unfold q. rewrite EJ, Em. change (2 ^ 53 / 2) with (2 ^ 52). lia.
        -- rewrite Em. replace (2 ^ 53 * K) with (2 ^ 52 * (2 * K)) by lia.
           apply Z.mod_mul. lia.
      * clearbody M q J K. nia.
    + symmetry. apply Zdiv_between; [lia|]. clearbody J K. nia.
Qed.

End HalfUpMiddle.

Section TickCountRounding.

Lemma round_half_up_integer (n : Z) : round_half_up (inject_Z n) = n.
Proof.
  unfold round_half_up. apply Qfloor_unique.
  - set (X := inject_Z n). clearbody X. lra.
  - rewrite inject_Z_plus. change (inject_Z 1) with 1%Q.
    set (X := inject_Z n). clearbody X. lra.
Qed.

Lemma digits2_pos_mul (a b : positive) :
  Zpos (digits2_pos a) + Zpos (digits2_pos b) - 1
  <= Zpos (digits2_pos (a * b)).
Proof.
  pose proof (digits2_pos_spec a) as [Ha _].
  pose proof (digits2_pos_spec b) as [Hb _].
  pose proof (digits2_pos_spec (a * b)) as [_ Hab].
  set (da := Zpos (digits2_pos a)) in *.
  set (db := Zpos (digits2_pos b)) in *.
  set (d := Zpos (digits2_pos (a * b))) in *.
  assert (H1 : 0 < 2 ^ (da - 1)) by (apply Z.pow_pos_nonneg; unfold da; lia).
  assert (H2 : 0 < 2 ^ (db - 1)) by (apply Z.pow_pos_nonneg; unfold db; lia).
  assert (H : 2 ^ (da - 1 + (db - 1)) < 2 ^ d).
  { rewrite Z.pow_add_r by (unfold da, db; lia).
    rewrite Pos2Z.inj_mul in Hab. nia. }
  apply Z.pow_lt_mono_r_iff in H; [lia|lia|unfold d; lia].
Qed.

(** The product of two positive doubles is a zero, an infinity or a
    double. *)
Lemma mul_outcomes (ma : positive) (ea : Z) (mb : positive) (eb : Z) :
  Double.valid (S754_finite false ma ea) = true ->
  Double.valid (S754_finite false mb eb) = true ->
  let x := Double.mul (S754_finite false ma ea) (S754_finite false mb eb) in
  x = S754_zero false \/ x = S754_infinity false
  \/ exists m e, x = S754_finite false m e
                 /\ Double.valid (S754_finite false m e) = true.
Proof.
  intros Va Vb x. unfold x, Double.mul, SFmul, Double.prec, Double.emax.
  cbn [xorb].
  apply valid_finite in Va as [Ea _]. apply valid_finite in Vb as [Eb _].
  pose proof (digits2_pos_mul ma mb) as Hd.
  pose proof (binary_round_aux_outcomes false (ma * mb) (ea + eb) loc_Exact)
    as H.
  cbv zeta in H.
  assert (Hle : ea + eb
                <= fexp 53 1024 (Zpos (digits2_pos (ma * mb)) + (ea + eb))).
  { unfold fexp, SpecFloat.emin. change IntDef.Z.max with Z.max.
    unfold emin in *.
    assert (0 < Zpos (digits2_pos ma)) by lia.
    assert (0 < Zpos (digits2_pos mb)) by lia. lia. }
  destruct (H Hle) as [[-> _]|[[-> _]|(m & e & -> & V & _)]].
  - now left.
  - right. now left.
  - right. right. exists m, e. now split.
Qed.

Lemma ltb_two63_inv (m : positive) (e : Z) :
  Double.valid (S754_finite false m e) = true ->
  Double.ltb (S754_finite false m e) (Double.of_int (2 ^ 63)) = true ->
  e <= 10.
Proof.
  intros Hv H1.
  assert (E : Double.of_int (2 ^ 63) = S754_finite false 4503599627370496 11)
    by (vm_compute; reflexivity).
  rewrite E in H1.
  unfold Double.ltb, SFltb in H1. cbn [SFcompare] in H1.
  apply valid_finite_bounds in Hv as (Hm & He & Hn).
  rewrite compare_cont_Eq in H1.
  destruct (Z.compare_spec e 11) as [->|?|?]; try discriminate; [|lia].
  destruct (Z.compare_spec (Zpos m) 4503599627370496); try discriminate.
  assert (2 ^ 52 <= Zpos m) by (apply Hn; unfold emin; lia). lia.
Qed.

(** [fast_llround] on a positive double below 2^63, other than the largest
    double below 0.5 and the odd integers from 2^52 on. *)
Lemma fast_llround_half_up (m : positive) (e : Z) :
  Double.valid (S754_finite false m e) = true -> e <= 10 ->
  S754_finite false m e <> pred_half ->
  (e = 0 -> Z.even (Zpos m) = true) ->
  fast_llround (S754_finite false m e)
  = Value (round_half_up (to_Q (S754_finite false m e))).
Proof.
  intros V He Hne Hev. unfold fast_llround.
  pose proof (valid_finite_bounds _ _ _ V) as (Hm & _ & _).
  destruct (Z_le_gt_dec 0 e) as [H0|H0];
    [|destruct (Z_le_gt_dec e (-54)) as [H1|H1]].
  - rewrite add_half_large by assumption.
    assert (E : (to_Q (S754_finite false m e)
                 == inject_Z (Zpos m * 2 ^ e))%Q).
    { rewrite to_Q_pow2, inject_Z_mult, pow2_inject by lia. reflexivity. }
    unfold Double.to_int. rewrite truncate_floor.
    unfold round_half_up.
    rewrite (Qfloor_comp (to_Q (S754_finite false m e) + (1 # 2))
               (inject_Z (Zpos m * 2 ^ e) + (1 # 2)))
      by (now rewrite E).
    fold (round_half_up (inject_Z (Zpos m * 2 ^ e))).
    rewrite round_half_up_integer, (Qfloor_comp _ _ E), Qfloor_Z.
    rewrite in_range_small; [reflexivity|].
    assert (0 < 2 ^ e) by (apply Z.pow_pos_nonneg; lia).
    assert (2 ^ e <= 2 ^ 10) by (apply Z.pow_le_mono_r; lia).
    change (2 ^ 63) with (2 ^ 53 * 2 ^ 10). nia.
  - destruct (add_half_small m e V H1 Hne) as (m' & e' & -> & V' & He').
    destruct (fraction_below_one m' e' V' He') as [Hl Hu].
    destruct (value_below_half m e V H1) as [Hxl Hxu].
    unfold Double.to_int. rewrite truncate_floor.
    rewrite (Qfloor_unique _ 0);
      [|now apply Qlt_le_weak|exact Hu].
    unfold round_half_up. rewrite (Qfloor_unique _ 0); [reflexivity| |].
    + change (inject_Z 0) with 0%Q.
      set (X := to_Q (S754_finite false m e)) in *. clearbody X. lra.
    + change (inject_Z (0 + 1)) with 1%Q.
      set (X := to_Q (S754_finite false m e)) in *. clearbody X. lra.
  - destruct (add_half_middle m e V ltac:(lia)) as (m' & e' & -> & Hfl).
    unfold Double.to_int. rewrite truncate_floor, Hfl.
    assert (HJ : 0 < 2 ^ (- e - 1)) by (apply Z.pow_pos_nonneg; lia).
    assert (HJ2 : 2 ^ (- e) = 2 * 2 ^ (- e - 1)).
    { replace (- e) with (Z.succ (- e - 1)) at 1 by lia.
      apply Z.pow_succ_r. lia. }
    assert (E : (to_Q (S754_finite false m e) + (1 # 2)
                 == inject_Z (Zpos m + 2 ^ (- e - 1)) * pow2 (- - e))%Q).
    { rewrite to_Q_pow2, inject_Z_plus, pow2_inject by lia.
      rewrite Qmult_plus_distr_l, <- pow2_add.
      replace (- e - 1 + - - e) with (-1) by lia.
      replace (- - e) with e by lia. reflexivity. }
    unfold round_half_up. rewrite (Qfloor_comp _ _ E), Qfloor_pow2 by lia.
    rewrite in_range_small; [reflexivity|].
    rewrite HJ2. set (J := 2 ^ (- e - 1)) in *.
    split.
    + apply Z.le_trans with 0; [lia|]. apply Z.div_pos; lia.
    + assert ((Zpos m + J) / (2 * J) <= 2 ^ 53); [|lia].
      apply Z.div_le_upper_bound; [lia|].
      clearbody J. nia.
Qed.

Lemma fast_llround_zero (s : bool) :
  fast_llround (S754_zero s) = Value (round_half_up (to_Q (S754_zero s))).
Proof. destruct s; vm_compute; reflexivity. Qed.

End TickCountRounding.

(** C5, as the code has it. For a normalized time and a tick rate that is
    not negative, whenever the product [frac * tick_rate] (a double) is below
    2^63, is not the largest double below 0.5 and is not an odd integer from
    2^52 on, [get_tick_count] returns that product rounded half up: the
    addition of 0.5 may round, and the cast of the rounded sum is still the
    half-up value. *)
Theorem get_tick_count_rounds_half_up (t : time_spec_t) (tick_rate : double) :
  let x := Double.mul (get_frac_secs t) tick_rate in
  Double.valid (get_frac_secs t) = true -> normalized t = true ->
  Double.valid tick_rate = true -> Double.leb Double.zero tick_rate = true ->
  Double.ltb x (Double.of_int (2 ^ 63)) = true ->
  x <> pred_half ->
  (forall m, x = S754_finite false m 0 -> Z.even (Zpos m) = true) ->
  get_tick_count t tick_rate = Value (round_half_up (to_Q x)).
Proof.
  intros x Vf Hn Vr Hr Hlt Hne Hev.
  unfold get_tick_count. fold x.
  assert (Hx : (exists s, x = S754_zero s)
               \/ exists m e, x = S754_finite false m e
                              /\ Double.valid (S754_finite false m e) = true).
  { unfold x in *.
    destruct (normalized_cases t Hn) as [[s E]|(mf & ef & E)];
      rewrite E in *.
    - destruct tick_rate as [sr|sr| |sr mr er]; try discriminate;
        cbn [Double.mul SFmul]; eauto.
    - destruct tick_rate as [sr|sr| |[] mr er]; try discriminate.
      + cbn [Double.mul SFmul]. eauto.
      + destruct sr; discriminate.
      + destruct (mul_outcomes mf ef mr er Vf Vr) as [H|[H|H]].
        * left. eauto.
        * rewrite H in Hlt. discriminate.
        * right. exact H. }
  destruct Hx as [[s E]|(m & e & E & V)].
  - rewrite E. apply fast_llround_zero.
  - rewrite E in *. apply fast_llround_half_up.
    + exact V.
    + exact (ltb_two63_inv m e V Hlt).
    + exact Hne.
    + intros ->. now apply Hev.
Qed.

(** The time 0.9 s holds 1.8 ticks at 2 ticks per second: the sum with 0.5
    is rounded, and 2 is returned. *)
Lemma get_tick_count_rounds_half_up_witness :
  get_tick_count (mk_time_spec 0 (literal 9 10)) (Double.of_int 2) = Value 2.
Proof.
  apply (get_tick_count_rounds_half_up
           (mk_time_spec 0 (literal 9 10)) (Double.of_int 2));
    try (vm_compute; reflexivity).
  - vm_compute. discriminate.
  - vm_compute. intros m H. discriminate H.
Defined.

(** C5 fails on the code where the addition of 0.5 rounds to the next
    integer, and where the product is too large for an [int64_t]. At a tick
    rate of 1 the fractional seconds just below 0.5 give the tick count 1
    and not 0; at the tick rate 2^53 + 2 the time 0.5 s holds 2^52 + 1
    ticks exactly and 2^52 + 2 are returned; at the tick rate 2^64 the cast
    of the product 2^63 is undefined. *)
Lemma get_tick_count_sum_rounds :
  (normalized (mk_time_spec 0 pred_half) = true
   /\ get_tick_count (mk_time_spec 0 pred_half) Double.one = Value 1
   /\ round_half_up (to_Q pred_half * to_Q Double.one) = 0)
  /\ (normalized (mk_time_spec 0 Double.half) = true
      /\ Double.valid (Double.of_int (2 ^ 53 + 2)) = true
      /\ get_tick_count (mk_time_spec 0 Double.half)
           (Double.of_int (2 ^ 53 + 2)) = Value (2 ^ 52 + 2)
      /\ round_half_up (to_Q Double.half * to_Q (Double.of_int (2 ^ 53 + 2)))
         = 2 ^ 52 + 1)
  /\ (Double.valid (Double.of_int (2 ^ 64)) = true
      /\ get_tick_count (mk_time_spec 0 Double.half) (Double.of_int (2 ^ 64))
         = Undefined Float_to_int_overflow).
Proof. vm_compute. repeat split. Qed.

(** * The round trip through ticks at any rate (C1) *)

Section GeneralRates.

(** A zero, or a positive double whose exponent lies between [lo] and
    [hi]. *)
Definition nonneg_in (lo hi : Z) (x : double) : Prop :=
  (exists s, x = S754_zero s)
  \/ exists m e, x = S754_finite false m e
                 /\ Double.valid (S754_finite false m e) = true
                 /\ lo <= e <= hi.

Lemma nonneg_in_weaken (lo hi lo' hi' : Z) (x : double) :
  nonneg_in lo hi x -> lo' <= lo -> hi <= hi' -> nonneg_in lo' hi' x.
Proof.
  intros [H|(m & e & E & V & B)] H1 H2; [now left|right].
  exists m, e. repeat split; try assumption; lia.
Qed.

Lemma nonneg_in_value (lo hi : Z) (x : double) :
  nonneg_in lo hi x -> (0 <= to_Q x)%Q.
Proof.
  intros [[s ->]|(m & e & -> & _)]; [apply Qle_refl|].
  apply Qlt_le_weak, to_Q_finite_positive.
Qed.

Lemma normal_mantissa (m : positive) (e : Z) :
  Double.valid (S754_finite false m e) = true -> -1074 < e ->
  2 ^ 52 <= Zpos m < 2 ^ 53.
Proof.
  intros V He. pose proof (valid_finite_bounds _ _ _ V) as (Hm & _ & Hn).
  split; [apply Hn; unfold emin; lia|exact Hm].
Qed.

Lemma mul_nn (lo1 hi1 lo2 hi2 : Z) (x y : double) :
  nonneg_in lo1 hi1 x -> nonneg_in lo2 hi2 y ->
  -1074 < lo1 -> -1074 < lo2 -> -1000 <= lo1 + lo2 -> hi1 + hi2 <= 800 ->
  nonneg_in (lo1 + lo2 + 52) (hi1 + hi2 + 54) (Double.mul x y)
  /\ close (to_Q (Double.mul x y)) (to_Q x * to_Q y).
Proof.
  intros [[sx ->]|(mx & ex & -> & Vx & Bx)]
         [[sy ->]|(my & ey & -> & Vy & By)] L1 L2 L H.
  - split; [left; eexists; reflexivity|].
    apply close_eq; [|apply Qle_refl]. reflexivity.
  - split; [left; eexists; reflexivity|].
    change (to_Q (Double.mul (S754_zero sx) (S754_finite false my ey)))
      with 0%Q.
    change (to_Q (S754_zero sx)) with 0%Q.
    apply close_eq; [ring|]. rewrite Qmult_0_l. apply Qle_refl.
  - split; [left; eexists; reflexivity|].
    change (to_Q (Double.mul (S754_finite false mx ex) (S754_zero sy)))
      with 0%Q.
    change (to_Q (S754_zero sy)) with 0%Q.
    apply close_eq; [ring|]. rewrite Qmult_0_r. apply Qle_refl.
  - destruct (mul_close mx my ex ey) as (m' & e' & E & V & B & C).
    + apply (normal_mantissa mx ex Vx). lia.
    + apply (normal_mantissa my ey Vy). lia.
    + lia.
    + rewrite E. split; [|exact C]. right. exists m', e'.
      repeat split; try assumption; lia.
Qed.

Lemma add_nn (lo1 hi1 lo2 hi2 : Z) (x y : double) :
  nonneg_in lo1 hi1 x -> nonneg_in lo2 hi2 y -> hi1 <= 900 -> hi2 <= 900 ->
  ((exists s, Double.add x y = S754_zero s)
   \/ exists m e, Double.add x y = S754_finite false m e
                  /\ Double.valid (S754_finite false m e) = true)
  /\ close (to_Q (Double.add x y)) (to_Q x + to_Q y).
Proof.
  intros [[sx ->]|(mx & ex & -> & Vx & Bx)]
         [[sy ->]|(my & ey & -> & Vy & By)] H1 H2.
  - split; [left; destruct sx, sy; eexists; reflexivity|].
    apply close_eq; [|apply Qle_refl].
    destruct sx, sy; reflexivity.
  - change (Double.add (S754_zero sx) (S754_finite false my ey))
      with (S754_finite false my ey).
    split; [right; eauto|].
    change (to_Q (S754_zero sx)) with 0%Q.
    apply close_eq; [ring|]. rewrite Qplus_0_l.
    apply Qlt_le_weak, to_Q_finite_positive.
  - change (Double.add (S754_finite false mx ex) (S754_zero sy))
      with (S754_finite false mx ex).
    split; [right; eauto|].
    change (to_Q (S754_zero sy)) with 0%Q.
    apply close_eq; [ring|]. rewrite Qplus_0_r.
    apply Qlt_le_weak, to_Q_finite_positive.
  - destruct (add_close mx my ex ey Vx Vy ltac:(lia) ltac:(lia))
      as (m' & e' & E & V & C).
    rewrite E. split; [right; eauto|exact C].
Qed.

Lemma of_int_nn (z : Z) :
  0 <= z < 2 ^ 53 ->
  nonneg_in (-52) 0 (Double.of_int z)
  /\ (to_Q (Double.of_int z) == inject_Z z)%Q.
Proof.
  intros Hz. destruct (Z.eq_dec z 0) as [->|Hn].
  - split; [left; exists false; reflexivity|reflexivity].
  - destruct (of_int_normal z ltac:(lia)) as (m & e & E & V & N & B & Q0).
    rewrite E. split; [|exact Q0]. right. exists m, e. auto.
Qed.

(** The difference of two positive doubles: the rounded value of the
    exact difference, with its sign. *)
Lemma sub_close (mx my : positive) (ex ey : Z) :
  Double.valid (S754_finite false mx ex) = true ->
  Double.valid (S754_finite false my ey) = true ->
  -1000 <= ex <= 800 -> -1000 <= ey <= 800 ->
  let X := to_Q (S754_finite false mx ex) in
  let Y := to_Q (S754_finite false my ey) in
  let d := Double.sub (S754_finite false mx ex) (S754_finite false my ey) in
  (d = S754_zero false /\ X == Y)%Q
  \/ exists s m e,
       d = S754_finite s m e
       /\ Double.valid (S754_finite false m e) = true
       /\ Z.min ex ey - 52 <= e <= Z.max ex ey + 1
       /\ close (to_Q (S754_finite false m e)) (if s then Y - X else X - Y)%Q.
Proof.
  intros Vx Vy Hex Hey X Y d.
  pose proof (valid_finite_bounds _ _ _ Vx) as (Bx & _ & _).
  pose proof (valid_finite_bounds _ _ _ Vy) as (By & _ & _).
  unfold d, Double.sub, Double.prec, Double.emax, SFsub. cbn [cond_Zopp].
  set (ez := Z.min ex ey).
  destruct (shl_align_le mx ex ez ltac:(unfold ez; lia)) as (_ & Hx' & _).
  destruct (shl_align_le my ey ez ltac:(unfold ez; lia)) as (_ & Hy' & _).
  set (ax := fst (shl_align mx ex ez)) in *.
  set (ay := fst (shl_align my ey ez)) in *.
  assert (EX : (X == inject_Z (Zpos ax) * pow2 ez)%Q).
  { unfold X. rewrite to_Q_pow2, Hx', inject_Z_mult.
    rewrite pow2_inject by (unfold ez; lia).
    rewrite <- Qmult_assoc, <- pow2_add.
    replace (ex - ez + ez) with ex by lia. reflexivity. }
  assert (EY : (Y == inject_Z (Zpos ay) * pow2 ez)%Q).
  { unfold Y. rewrite to_Q_pow2, Hy', inject_Z_mult.
    rewrite pow2_inject by (unfold ez; lia).
    rewrite <- Qmult_assoc, <- pow2_add.
    replace (ey - ez + ez) with ey by lia. reflexivity. }
  set (em := Z.max ex ey).
  set (U := 2 ^ (em - ez)).
  assert (HU : 0 < U) by (apply Z.pow_pos_nonneg; unfold em, ez; lia).
  assert (H53U : 2 ^ (53 + em - ez) = 2 ^ 53 * U).
  { unfold U. rewrite <- Z.pow_add_r by (unfold em, ez; lia).
    f_equal. lia. }
  assert (Hax : Zpos ax < 2 ^ 53 * U).
  { rewrite Hx'. assert (2 ^ (ex - ez) <= U)
      by (apply Z.pow_le_mono_r; unfold em, ez; lia).
    assert (0 < 2 ^ (ex - ez)) by (apply Z.pow_pos_nonneg; unfold ez; lia).
    nia. }
  assert (Hay : Zpos ay < 2 ^ 53 * U).
  { rewrite Hy'. assert (2 ^ (ey - ez) <= U)
      by (apply Z.pow_le_mono_r; unfold em, ez; lia).
    assert (0 < 2 ^ (ey - ez)) by (apply Z.pow_pos_nonneg; unfold ez; lia).
    nia. }
  assert (Hround : forall n : positive,
             Zpos n < 2 ^ 53 * U ->
             exists m' e',
               binary_round 53 1024 false n ez = S754_finite false m' e'
               /\ Double.valid (S754_finite false m' e') = true
               /\ ez - 52 <= e' <= em + 1
               /\ close (to_Q (S754_finite false m' e'))
                        (inject_Z (Zpos n) * pow2 ez)).
  { intros n Hn.
    destruct (binary_round_close n ez ltac:(unfold ez; lia))
      as (m' & e' & Hr & Hv & He' & Hc).
    - apply Z.lt_le_trans with (1 := Hn). rewrite <- H53U.
      apply Z.pow_le_mono_r; unfold em, ez; lia.
    - exists m', e'. repeat split; try assumption.
      + lia.
      + assert (Zpos (digits2_pos n) <= 53 + em - ez).
        { apply digits2_pos_le. now rewrite H53U. }
        unfold em, ez in *. lia.
      + apply Hc.
      + apply Hc. }
  destruct (Zpos ax - Zpos ay) as [|n|n] eqn:En; cbn [binary_normalize].
  - left. split; [reflexivity|]. rewrite EX, EY.
    replace (Zpos ax) with (Zpos ay) by lia. reflexivity.
  - right. destruct (Hround n ltac:(lia)) as (m' & e' & Hr & Hv & He' & Hc).
    exists false, m', e'. rewrite Hr.
    split; [reflexivity|]. split; [exact Hv|]. split; [exact He'|].
    unfold close in *.
    assert (EV : (inject_Z (Zpos n) * pow2 ez == X - Y)%Q).
    { rewrite EX, EY. replace (Zpos n) with (Zpos ax - Zpos ay) by lia.
      unfold Zminus. rewrite inject_Z_plus, inject_Z_opp. ring. }
    now rewrite EV in Hc.
  - right. rewrite binary_round_opp.
    destruct (Hround n ltac:(lia)) as (m' & e' & Hr & Hv & He' & Hc).
    exists true, m', e'. rewrite Hr.
    split; [reflexivity|]. split; [exact Hv|]. split; [exact He'|].
    unfold close in *.
    assert (EV : (inject_Z (Zpos n) * pow2 ez == Y - X)%Q).
    { rewrite EX, EY. replace (Zpos n) with (Zpos ay - Zpos ax) by lia.
      unfold Zminus. rewrite inject_Z_plus, inject_Z_opp. ring. }
    now rewrite EV in Hc.
Qed.

(** A double below 2^52 has a negative exponent. *)
Lemma exponent_of_small (m : positive) (e : Z) :
  Double.valid (S754_finite false m e) = true ->
  (to_Q (S754_finite false m e) < 4503599627370496 # 1)%Q -> e < 0.
Proof.
  intros V H. destruct (Z_lt_le_dec e 0) as [|He]; [assumption|exfalso].
  pose proof (normal_mantissa m e V ltac:(lia)) as [Hm _].
  assert (E : (to_Q (S754_finite false m e) == inject_Z (Zpos m * 2 ^ e))%Q).
  { rewrite to_Q_pow2, inject_Z_mult, pow2_inject by lia. reflexivity. }
  rewrite E in H.
  change (4503599627370496 # 1)%Q with (inject_Z (2 ^ 52)) in H.
  rewrite <- Zlt_Qlt in H.
  assert (0 < 2 ^ e) by (apply Z.pow_pos_nonneg; lia). nia.
Qed.

(** A tick rate from 1 up to 2^47: its integer part [i] and the double
    [tick_rate - i], which is its fractional part. *)
Lemma rate_parts (r : double) (i : Z) :
  Double.valid r = true -> Double.to_int r = Value i -> 1 <= i < 2 ^ 47 ->
  (exists m e, r = S754_finite false m e
               /\ Double.valid (S754_finite false m e) = true
               /\ -52 <= e <= -6)
  /\ nonneg_in (-105) (-53) (Double.sub r (Double.of_int i))
  /\ (to_Q r == inject_Z i + to_Q (Double.sub r (Double.of_int i)))%Q
  /\ (to_Q (Double.sub r (Double.of_int i)) < 1)%Q.
Proof.
  intros V Hi Bi.
  destruct r as [s|s| |s m e].
  - vm_compute in Hi. injection Hi as <-. lia.
  - vm_compute in Hi. discriminate.
  - vm_compute in Hi. discriminate.
  - destruct s.
    + exfalso. unfold Double.to_int, Double.truncate in Hi.
      assert (Ha : 0 <= match e with
                        | 0 => Zpos m
                        | Zpos _ => Z.shiftl (Zpos m) e
                        | Zneg _ => Z.shiftr (Zpos m) (- e)
                        end).
      { destruct e as [|p|p]; try lia.
        - apply Z.shiftl_nonneg. lia.
        - apply Z.shiftr_nonneg. lia. }
      destruct (Int64.in_range _); [|discriminate].
      injection Hi as Hi. lia.
    + pose proof (valid_finite_bounds _ _ _ V) as (Hm & _ & Hn).
      assert (Ht : Double.truncate (S754_finite false m e) = Some i).
      { unfold Double.to_int in Hi.
        destruct (Double.truncate (S754_finite false m e)) as [z|];
          [|discriminate].
        destruct (Int64.in_range z); [|discriminate]. congruence. }
      assert (He : -52 <= e <= -6).
      { destruct (Z_lt_le_dec e 0) as [Hneg|Hpos].
        - destruct e as [|p|p]; try lia.
          rewrite truncate_finite_neg_exp in Ht.
          assert (Ht' : Zpos m / 2 ^ Zpos p = i) by congruence.
          assert (HP : 0 < 2 ^ Zpos p) by (apply Z.pow_pos_nonneg; lia).
          pose proof (Z.div_mod (Zpos m) (2 ^ Zpos p) ltac:(lia)) as Hdm.
          pose proof (Z.mod_pos_bound (Zpos m) (2 ^ Zpos p) HP) as Hmod.
          rewrite Ht' in Hdm.
          assert (Hp52 : Zpos p <= 52).
          { destruct (Z_le_gt_dec (Zpos p) 52); [assumption|exfalso].
            assert (2 ^ 53 <= 2 ^ Zpos p)
              by (apply Z.pow_le_mono_r; lia).
            nia. }
          assert (Hp9 : 6 <= Zpos p).
          { destruct (Z_le_gt_dec 6 (Zpos p)); [assumption|exfalso].
            assert (2 ^ Zpos p <= 2 ^ 5)
              by (apply Z.pow_le_mono_r; lia).
            assert (2 ^ 52 <= Zpos m) by (apply Hn; unfold emin; lia).
            change (2 ^ 52) with (2 ^ 47 * 2 ^ 5) in *. nia. }
          lia.
        - exfalso. rewrite truncate_finite_nonneg_exp in Ht by assumption.
          assert (Ht' : Zpos m * 2 ^ e = i) by congruence.
          assert (2 ^ 52 <= Zpos m) by (apply Hn; unfold emin; lia).
          assert (0 < 2 ^ e) by (apply Z.pow_pos_nonneg; lia).
          assert (2 ^ 47 < 2 ^ 52) by reflexivity. nia. }
      pose proof (fractional_part_exact m e i V Ht)
        as (F1 & F2 & F3 & F4 & F5).
      set (rho := Double.sub (S754_finite false m e) (Double.of_int i)) in *.
      split; [exists m, e; auto|].
      assert (Hlt : (to_Q rho < 1)%Q).
      { clearbody rho. destruct rho as [s|s| |s mf ef]; try reflexivity.
        destruct s; [discriminate|].
        apply fraction_below_one; [exact F4|].
        exact (ltb_one_inv mf ef F4 F3). }
      split; [|split; [now rewrite F5|exact Hlt]].
      clearbody rho. destruct rho as [s|s| |s mf ef].
      * left. eauto.
      * exfalso. now destruct s.
      * exfalso. easy.
      * destruct s; [discriminate|].
        pose proof (ltb_one_inv mf ef F4 F3) as Hef.
        right. exists mf, ef. split; [reflexivity|]. split; [exact F4|].
        split; [|lia].
        destruct (Z_le_gt_dec (-105) ef) as [|Hsmall]; [assumption|exfalso].
        destruct e as [|p|p]; try lia. destruct ef as [|q|q]; try lia.
        pose proof (valid_finite_bounds _ _ _ F4) as (Hmf & _ & _).
        cbn [to_Q] in F5. unfold Qeq, Qplus, inject_Z in F5.
        cbn [Qnum Qden] in F5.
        rewrite ?Pos.mul_1_l, ?Pos.mul_1_r, ?Pos2Z.inj_mul, ?pow2_pos in F5.
        assert (HP : 0 < 2 ^ Zpos p) by (apply Z.pow_pos_nonneg; lia).
        assert (HP52 : 2 ^ Zpos p <= 2 ^ 52)
          by (apply Z.pow_le_mono_r; lia).
        assert (HQ : 2 ^ 106 <= 2 ^ Zpos q)
          by (apply Z.pow_le_mono_r; lia).
        set (P := 2 ^ Zpos p) in *. set (Q0 := 2 ^ Zpos q) in *.
        assert (Hc : Zpos mf * P = (Zpos m - i * P) * Q0) by lia.
        assert (1 <= Zpos m - i * P) by nia.
        assert (Zpos mf * P < 2 ^ 53 * 2 ^ 52) by nia.
        change (2 ^ 53 * 2 ^ 52) with (2 ^ 105) in *.
        assert (2 ^ 105 < 2 ^ 106) by reflexivity.
        clearbody P Q0. nia.
Qed.

End GeneralRates.

Section GeneralToTicks.

Lemma Qmult_le_one (a b : Q) : (0 <= a -> b <= 1 -> a * b <= a)%Q.
Proof.
  intros Ha H1. rewrite <- (Qmult_1_r a) at 2.
  rewrite (Qmult_comm a b), (Qmult_comm a 1).
  now apply Qmult_le_compat_r.
Qed.

Lemma integer_cases (n : Z) :
  0 <= n -> n = 0 \/ (1 <= inject_Z n)%Q.
Proof.
  intros H. destruct (Z.eq_dec n 0) as [|Hn]; [now left|right].
  rewrite <- (Zle_Qle 1). lia.
Qed.

(** [fast_llround] on a double within three eighths of the integer [n]. *)
Lemma llround_near (x : double) (n : Z) :
  ((exists s, x = S754_zero s)
   \/ exists m e, x = S754_finite false m e
                  /\ Double.valid (S754_finite false m e) = true) ->
  0 <= n < 2 ^ 52 - 1 ->
  (inject_Z n - (3 # 8) <= to_Q x <= inject_Z n + (3 # 8))%Q ->
  fast_llround x = Value n.
Proof.
  intros Hx Hn Hc.
  assert (HN : (inject_Z n <= inject_Z (2 ^ 52 - 2))%Q)
    by (rewrite <- Zle_Qle; lia).
  change (inject_Z (2 ^ 52 - 2)) with (4503599627370494 # 1)%Q in HN.
  destruct Hx as [[s ->]|(m & e & -> & V)].
  - change (to_Q (S754_zero s)) with 0%Q in Hc.
    destruct (integer_cases n ltac:(lia)) as [->|H1].
    + now destruct s.
    + exfalso. set (N := inject_Z n) in *. clearbody N. lra.
  - assert (He : e < 0).
    { apply (exponent_of_small m e V).
      set (X := to_Q (S754_finite false m e)) in *.
      set (N := inject_Z n) in *. clearbody X N. lra. }
    rewrite fast_llround_half_up; try assumption; try lia.
    + f_equal. unfold round_half_up. apply Qfloor_unique.
      * set (X := to_Q (S754_finite false m e)) in *.
        set (N := inject_Z n) in *. clearbody X N. lra.
      * rewrite inject_Z_plus. change (inject_Z 1) with 1%Q.
        set (X := to_Q (S754_finite false m e)) in *.
        set (N := inject_Z n) in *. clearbody X N. lra.
    + intros E. unfold pred_half in E. injection E as -> ->.
      change (to_Q (S754_finite false 9007199254740991 (-54)))
        with (9007199254740991 # 18014398509481984)%Q in Hc.
      destruct (integer_cases n ltac:(lia)) as [->|H1].
      * change (inject_Z 0) with 0%Q in Hc. lra.
      * set (N := inject_Z n) in *. clearbody N. lra.
Qed.

(** [to_ticks] on a time of [F] whole seconds and the fractional seconds
    [f] whose value in ticks, at a rate from 1 up to 2^47, is within 9/64
    of the integer [k]. *)
Lemma to_ticks_general (r : double) (i F k : Z) (f : double) :
  Double.valid r = true -> Double.to_int r = Value i -> 1 <= i < 2 ^ 47 ->
  0 <= F < 2 ^ 47 -> nonneg_in (-400) (-52) f -> (to_Q f <= 2)%Q ->
  Int64.in_range k = true ->
  (inject_Z k - (9 # 64) <= inject_Z F * to_Q r + to_Q f * to_Q r
   <= inject_Z k + (9 # 64))%Q ->
  to_ticks (mk_time_spec F f) r = Value k.
Proof.
  intros V Hi Bi BF Hf Hf2 Rk Hc.
  destruct (rate_parts r i V Hi Bi)
    as ((mr & er & Er & Vr & Ber) & Hrho & HR & Hrho1).
  set (rho := Double.sub r (Double.of_int i)) in *.
  assert (Nr : nonneg_in (-52) (-6) r).
  { right. exists mr, er. auto. }
  destruct (of_int_nn F ltac:(lia)) as [NF QF].
  destruct (mul_nn (-52) 0 (-105) (-53) _ _ NF Hrho) as [NA CA]; try lia.
  destruct (mul_nn (-400) (-52) (-52) (-6) _ _ Hf Nr) as [NB CB]; try lia.
  destruct (add_nn _ _ _ _ _ _ NA NB) as [NS CS]; try lia.
  set (A := Double.mul (Double.of_int F) rho) in *.
  set (B := Double.mul f r) in *.
  set (S := Double.add A B) in *.
  pose proof (nonneg_in_value _ _ _ Hrho) as Hrho0.
  pose proof (nonneg_in_value _ _ _ Hf) as Hf0.
  pose proof (in_range_bounds k Rk) as Bk.
  set (n := k - F * i).
  assert (HFQ : (0 <= inject_Z F <= 140737488355328 # 1)%Q).
  { change (140737488355328 # 1)%Q with (inject_Z (2 ^ 47)).
    change 0%Q with (inject_Z 0). rewrite <- !Zle_Qle. lia. }
  assert (HIQ : (1 <= inject_Z i <= 140737488355328 # 1)%Q).
  { change (140737488355328 # 1)%Q with (inject_Z (2 ^ 47)).
    change 1%Q with (inject_Z 1). rewrite <- !Zle_Qle. lia. }
  assert (HX1 : (inject_Z F * to_Q rho <= inject_Z F)%Q).
  { apply Qmult_le_one; [apply HFQ|]. now apply Qlt_le_weak. }
  assert (HX1' : (0 <= inject_Z F * to_Q rho)%Q).
  { apply Qmult_le_0_compat; [apply HFQ|exact Hrho0]. }
  assert (HX2 : (to_Q f * to_Q r <= 2 * to_Q r)%Q).
  { apply Qmult_le_compat_r; [exact Hf2|]. apply (nonneg_in_value _ _ _ Nr). }
  assert (HX2' : (0 <= to_Q f * to_Q r)%Q).
  { apply Qmult_le_0_compat; [exact Hf0|]. apply (nonneg_in_value _ _ _ Nr). }
  assert (E1 : (inject_Z F * to_Q r
                == inject_Z (F * i) + inject_Z F * to_Q rho)%Q).
  { rewrite HR, inject_Z_mult. ring. }
  assert (EN : (inject_Z n == inject_Z k - inject_Z (F * i))%Q).
  { unfold n, Zminus. rewrite inject_Z_plus, inject_Z_opp. reflexivity. }
  unfold close, eps in CA, CB, CS.
  rewrite QF in CA. rewrite E1 in Hc.
  set (X1 := (inject_Z F * to_Q rho)%Q) in *.
  set (X2 := (to_Q f * to_Q r)%Q) in *.
  set (FI := inject_Z (F * i)) in *.
  set (K := inject_Z k) in *.
  set (R := to_Q r) in *. set (P := to_Q rho) in *.
  set (I := inject_Z i) in *. set (FQ := inject_Z F) in *.
  set (QA := to_Q A) in *. set (QB := to_Q B) in *. set (QS := to_Q S) in *.
  set (N := inject_Z n) in *.
  assert (Hn0 : 0 <= n).
  { assert (H : (inject_Z (-1) < N)%Q).
    { change (inject_Z (-1)) with (-1 # 1)%Q.
      clearbody X1 X2 FI K R P I FQ QA QB QS N. lra. }
    unfold N in H. rewrite <- Zlt_Qlt in H. lia. }
  assert (Hn1 : n < 2 ^ 50).
  { assert (H : (N < inject_Z (2 ^ 50))%Q).
    { change (inject_Z (2 ^ 50)) with (1125899906842624 # 1)%Q.
      clearbody X1 X2 FI K R P I FQ QA QB QS N. lra. }
    unfold N in H. rewrite <- Zlt_Qlt in H. exact H. }
  assert (Hll : fast_llround S = Value n).
  { apply llround_near; [exact NS|lia|]. fold QS N.
    clearbody X1 X2 FI K R P I FQ QA QB QS N. lra. }
  unfold to_ticks. rewrite Hi. cbn [bind].
  cbn [get_full_secs get_frac_secs _full_secs _frac_secs].
  fold rho. fold A B S.
  unfold Int64.mul, Int64.checked.
  rewrite (in_range_small (F * i)) by (unfold n in *; nia).
  cbn [bind]. rewrite Hll. cbn [bind].
  unfold Int64.add, Int64.checked.
  replace (F * i + n) with k by (unfold n; lia).
  now rewrite Rk.
Qed.

End GeneralToTicks.

Section GeneralFromTicks.

(** The fractional part of a double has an exponent at most 53 below the
    exponent of the double. *)
Lemma fraction_exponent (m : positive) (e z : Z) (mf : positive) (ef : Z) :
  Double.valid (S754_finite false mf ef) = true ->
  (inject_Z z + to_Q (S754_finite false mf ef)
   == to_Q (S754_finite false m e))%Q ->
  ef < 0 -> Z.min e 0 - 53 <= ef.
Proof.
  intros V F5 Hef.
  pose proof (valid_finite_bounds _ _ _ V) as (Hmf & _ & _).
  destruct (Z_le_gt_dec (Z.min e 0 - 53) ef) as [|Hsmall];
    [assumption|exfalso].
  destruct ef as [|q|q]; try lia.
  assert (HQ0 : 0 < 2 ^ Zpos q) by (apply Z.pow_pos_nonneg; lia).
  destruct e as [|p|p].
  - cbn [to_Q] in F5. unfold Qeq, Qplus, inject_Z in F5.
    cbn [Qnum Qden] in F5.
    rewrite ?Pos.mul_1_l, ?Pos.mul_1_r, ?Pos2Z.inj_mul, ?pow2_pos in F5.
    assert (HQ : 2 ^ 54 <= 2 ^ Zpos q) by (apply Z.pow_le_mono_r; lia).
    change (2 ^ 0) with 1 in F5.
    set (Q0 := 2 ^ Zpos q) in *.
    assert (Hc : Zpos mf = (Zpos m - z) * Q0) by lia.
    assert (1 <= Zpos m - z) by nia.
    clearbody Q0. nia.
  - cbn [to_Q] in F5. unfold Qeq, Qplus, inject_Z in F5.
    cbn [Qnum Qden] in F5.
    rewrite ?Pos.mul_1_l, ?Pos.mul_1_r, ?Pos2Z.inj_mul, ?pow2_pos in F5.
    assert (HQ : 2 ^ 54 <= 2 ^ Zpos q) by (apply Z.pow_le_mono_r; lia).
    set (E := 2 ^ Zpos p) in *.
    set (Q0 := 2 ^ Zpos q) in *.
    assert (Hc : Zpos mf = (Zpos m * E - z) * Q0) by lia.
    assert (1 <= Zpos m * E - z) by nia.
    clearbody Q0 E. nia.
  - cbn [to_Q] in F5. unfold Qeq, Qplus, inject_Z in F5.
    cbn [Qnum Qden] in F5.
    rewrite ?Pos.mul_1_l, ?Pos.mul_1_r, ?Pos2Z.inj_mul, ?pow2_pos in F5.
    assert (HP : 0 < 2 ^ Zpos p) by (apply Z.pow_pos_nonneg; lia).
    assert (HQ : 2 ^ Zpos q = 2 ^ (Zpos q - Zpos p) * 2 ^ Zpos p).
    { rewrite <- Z.pow_add_r by lia. f_equal. lia. }
    assert (HQ' : 2 ^ 54 <= 2 ^ (Zpos q - Zpos p))
      by (apply Z.pow_le_mono_r; lia).
    set (P := 2 ^ Zpos p) in *. set (Q0 := 2 ^ Zpos q) in *.
    set (G := 2 ^ (Zpos q - Zpos p)) in *.
    assert (Hc : Zpos mf * P = (Zpos m - z * P) * Q0) by lia.
    assert (1 <= Zpos m - z * P) by nia.
    clearbody P Q0 G. nia.
Qed.

(** The cast of a negative double whose integer part fits. *)
Lemma to_int_negative (m : positive) (e : Z) :
  Int64.in_range (- Qfloor (to_Q (S754_finite false m e))) = true ->
  Double.to_int (S754_finite true m e)
  = Value (- Qfloor (to_Q (S754_finite false m e))).
Proof.
  intros R. pose proof (truncate_floor m e) as H.
  unfold Double.to_int.
  assert (E : Double.truncate (S754_finite true m e)
              = Some (- Qfloor (to_Q (S754_finite false m e)))).
  { set (q := Qfloor _) in *. clearbody q.
    unfold Double.truncate in *. cbv beta iota zeta in *.
    injection H as H. now rewrite H. }
  rewrite E, R. reflexivity.
Qed.

Lemma set_from_zero (s0 : Z) (s : bool) :
  Int64.in_range s0 = true ->
  exists s', set_from s0 (S754_zero s) = Value (mk_time_spec s0 (S754_zero s')).
Proof.
  intros R. unfold set_from.
  change (Double.to_int (S754_zero s)) with (Value 0 : outcome Z).
  cbn [bind]. unfold Int64.add, Int64.checked. rewrite Z.add_0_r, R.
  cbn [bind]. destruct s; eexists; reflexivity.
Qed.

(** [set_from] on negative fractional seconds [r], whose integer part is
    [z]: the whole seconds are [s0 + z] or one less, and the value of the
    time is [s0 + r] up to 2^-52. *)
Lemma negative_seconds_any (s0 : Z) (m : positive) (e z : Z) :
  Double.valid (S754_finite true m e) = true ->
  Double.to_int (S754_finite true m e) = Value z ->
  Int64.in_range (s0 + z) = true -> Int64.in_range (s0 + z - 1) = true ->
  exists F f,
    set_from s0 (S754_finite true m e) = Value (mk_time_spec F f)
    /\ s0 + z - 1 <= F <= s0 + z
    /\ nonneg_in (Z.min e 0 - 105) (-52) f
    /\ (to_Q f <= 1 + (1 # 4503599627370496))%Q
    /\ (inject_Z s0 - to_Q (S754_finite false m e) - (1 # 4503599627370496)
        <= inject_Z F + to_Q f
        <= inject_Z s0 - to_Q (S754_finite false m e)
           + (1 # 4503599627370496))%Q.
Proof.
  intros V Hz R R1.
  assert (V' : Double.valid (S754_finite false m e) = true) by exact V.
  assert (Ht : exists a, Double.truncate (S754_finite false m e) = Some a
                         /\ 0 <= a /\ z = - a).
  { unfold Double.to_int in Hz. unfold Double.truncate in *.
    eexists. split; [reflexivity|].
    split.
    - destruct e as [|p|p]; try lia.
      + apply Z.shiftl_nonneg. lia.
      + apply Z.shiftr_nonneg. lia.
    - destruct (Int64.in_range _); congruence. }
  destruct Ht as (a & Ht & Ha & ->).
  pose proof (fractional_part_exact m e a V' Ht)
    as (F1 & F2 & F3 & F4 & F5).
  set (fr := Double.sub (S754_finite false m e) (Double.of_int a)) in *.
  assert (Es : (inject_Z (s0 + - a) == inject_Z s0 - inject_Z a)%Q).
  { rewrite inject_Z_plus, inject_Z_opp. reflexivity. }
  assert (Hzero : forall s,
             (to_Q (S754_finite false m e) == inject_Z a)%Q ->
             set_from s0 (S754_finite true m e)
             = Value (mk_time_spec (s0 + - a) (S754_zero s)) ->
             exists F f,
               set_from s0 (S754_finite true m e) = Value (mk_time_spec F f)
               /\ s0 + - a - 1 <= F <= s0 + - a
               /\ nonneg_in (Z.min e 0 - 105) (-52) f
               /\ (to_Q f <= 1 + (1 # 4503599627370496))%Q
               /\ (inject_Z s0 - to_Q (S754_finite false m e)
                   - (1 # 4503599627370496)
                   <= inject_Z F + to_Q f
                   <= inject_Z s0 - to_Q (S754_finite false m e)
                      + (1 # 4503599627370496))%Q).
  { intros s Hv Hs. exists (s0 + - a), (S754_zero s).
    split; [exact Hs|]. split; [lia|].
    split; [left; eauto|]. split; [easy|].
    change (to_Q (S754_zero s)) with 0%Q. rewrite Es, Hv.
    set (A := inject_Z a). set (S0 := inject_Z s0).
    clearbody A S0. split; lra. }
  assert (Hset : forall fr',
             Double.sub (S754_finite true m e) (Double.of_int (- a)) = fr' ->
             set_from s0 (S754_finite true m e)
             = if Double.ltb fr' Double.zero then
                 full' <- Int64.sub (s0 + - a) 1 ;;
                 Value (mk_time_spec full' (Double.add fr' Double.one))
               else Value (mk_time_spec (s0 + - a) fr')).
  { intros fr' E. unfold set_from. rewrite Hz. cbn [bind].
    unfold Int64.add, Int64.checked. rewrite R. cbn [bind].
    now rewrite E. }
  destruct (sub_negated m e a Ha) as [[E1 E2]|E1].
  - fold fr in E2. apply (Hzero false).
    + rewrite <- F5, E2. change (to_Q (S754_zero false)) with 0%Q. ring.
    + now rewrite (Hset _ E1).
  - fold fr in E1. rewrite (Hset _ E1). clearbody fr.
    destruct fr as [s|s| |s mf ef];
      [|exfalso; now destruct s|exfalso; easy|].
    + rewrite <- (Hset _ E1). apply (Hzero (negb s)).
      * rewrite <- F5. change (to_Q (S754_zero s)) with 0%Q. ring.
      * rewrite (Hset _ E1). now destruct s.
    + destruct s; [discriminate|]. cbn [SFopp negb].
      replace (Double.ltb (S754_finite true mf ef) Double.zero)
        with true by reflexivity.
      unfold Int64.sub, Int64.checked. rewrite R1. cbn [bind].
      pose proof (ltb_one_inv mf ef F4 F3) as Hef.
      pose proof (fraction_below_one mf ef F4 Hef) as Hq.
      pose proof (fraction_exponent m e a mf ef F4 F5 ltac:(lia)) as Hexp.
      assert (Es1 : (inject_Z (s0 + - a - 1)
                     == inject_Z s0 - inject_Z a - 1)%Q).
      { unfold Zminus. rewrite !inject_Z_plus, !inject_Z_opp. reflexivity. }
      destruct (one_minus_close mf ef F4 Hef)
        as (m' & e' & E' & Vr & He' & C').
      rewrite E'.
      exists (s0 + - a - 1), (S754_finite false m' e').
      split; [reflexivity|]. split; [lia|].
      split; [right; exists m', e'; repeat split; try assumption; lia|].
      unfold close, eps in C'. rewrite Es1, <- F5.
      set (Q0 := to_Q (S754_finite false mf ef)) in *.
      set (A := inject_Z a) in *. set (S0 := inject_Z s0) in *.
      set (F := to_Q (S754_finite false m' e')) in *.
      clearbody Q0 A S0 F. split; [lra|split; lra].
Qed.

(** The difference of two doubles that are not negative. *)
Lemma sub_nn (lo1 hi1 lo2 hi2 : Z) (x y : double) :
  nonneg_in lo1 hi1 x -> nonneg_in lo2 hi2 y ->
  -1000 <= lo1 -> hi1 <= 800 -> -1000 <= lo2 -> hi2 <= 800 ->
  ((exists s, Double.sub x y = S754_zero s) /\ to_Q x == to_Q y)%Q
  \/ exists s m e,
       Double.sub x y = S754_finite s m e
       /\ Double.valid (S754_finite false m e) = true
       /\ Z.min lo1 lo2 - 52 <= e <= Z.max hi1 hi2 + 1
       /\ close (to_Q (S754_finite false m e))
                (if s then to_Q y - to_Q x else to_Q x - to_Q y)%Q.
Proof.
  intros [[sx ->]|(mx & ex & -> & Vx & Bx)]
         [[sy ->]|(my & ey & -> & Vy & By)] L1 H1 L2 H2.
  - left. split; [destruct sx, sy; eexists; reflexivity|reflexivity].
  - right. exists true, my, ey.
    split; [reflexivity|]. split; [exact Vy|]. split; [lia|].
    change (to_Q (S754_zero sx)) with 0%Q.
    apply close_eq; [ring|]. unfold Qminus. rewrite Qplus_0_r.
    apply Qlt_le_weak, to_Q_finite_positive.
  - right. exists false, mx, ex.
    split; [reflexivity|]. split; [exact Vx|]. split; [lia|].
    change (to_Q (S754_zero sy)) with 0%Q.
    apply close_eq; [ring|]. unfold Qminus. rewrite Qplus_0_r.
    apply Qlt_le_weak, to_Q_finite_positive.
  - destruct (sub_close mx my ex ey Vx Vy ltac:(lia) ltac:(lia))
      as [[E HE]|(s & m & e & E & V & B & C)].
    + left. split; [exists false; exact E|exact HE].
    + right. exists s, m, e. split; [exact E|]. split; [exact V|].
      split; [lia|exact C].
Qed.

End GeneralFromTicks.

Section RoundTrip.

Lemma close_div_mul (q d R : Q) :
  (0 < R)%Q -> close q (d / R) -> close (q * R) d.
Proof.
  intros HR [C1 C2].
  assert (HM : (d / R * R == d)%Q).
  { field. intros E. rewrite E in HR. now apply Qlt_irrefl in HR. }
  unfold close. split.
  - rewrite <- HM at 1.
    setoid_replace (d / R * R * (1 - eps))%Q
      with (d / R * (1 - eps) * R)%Q by ring.
    apply Qmult_le_compat_r; [exact C1|]. now apply Qlt_le_weak.
  - rewrite <- HM at 1.
    setoid_replace (d / R * R * (1 + eps))%Q
      with (d / R * (1 + eps) * R)%Q by ring.
    apply Qmult_le_compat_r; [exact C2|]. now apply Qlt_le_weak.
Qed.

Lemma Qmult_lt_one (q R : Q) : (0 < R -> q * R < R -> q < 1)%Q.
Proof.
  intros HR H. destruct (Qlt_le_dec q 1) as [|Hq]; [assumption|exfalso].
  assert (H1 : (1 * R <= q * R)%Q).
  { apply Qmult_le_compat_r; [assumption|now apply Qlt_le_weak]. }
  rewrite Qmult_1_l in H1. exact (Qle_not_lt _ _ H1 H).
Qed.

Lemma Qmult_ge_one (q R : Q) : (0 <= q -> 1 <= R -> q <= q * R)%Q.
Proof.
  intros Hq HR. rewrite <- (Qmult_1_r q) at 1.
  rewrite (Qmult_comm q 1), (Qmult_comm q R).
  now apply Qmult_le_compat_r.
Qed.

(** [from_ticks] on a tick count that is not negative, at a rate from 1 up
    to 2^47 and with fewer than 2^47 whole seconds: the value of the time
    in ticks is within 9/64 of the tick count. *)
Lemma from_ticks_general (r : double) (i k : Z) :
  Double.valid r = true -> Double.to_int r = Value i -> 1 <= i < 2 ^ 47 ->
  0 <= k -> k < i * 2 ^ 47 -> Int64.in_range k = true ->
  exists F f,
    from_ticks k r = Value (mk_time_spec F f)
    /\ 0 <= F < 2 ^ 47 /\ nonneg_in (-400) (-52) f /\ (to_Q f <= 2)%Q
    /\ (inject_Z k - (9 # 64) <= inject_Z F * to_Q r + to_Q f * to_Q r
        <= inject_Z k + (9 # 64))%Q.
Proof.
  intros V Hi Bi Hk0 Hk1 Rk.
  destruct (rate_parts r i V Hi Bi)
    as ((mr & er & Er & Vr & Ber) & Hrho & HR & Hrho1).
  subst r.
  set (r := S754_finite false mr er) in *.
  set (rho := Double.sub r (Double.of_int i)) in *.
  pose proof (in_range_bounds k Rk) as Bk.
  set (s := k / i). set (te := k mod i).
  pose proof (Z.div_mod k i ltac:(lia)) as Hdm. fold s te in Hdm.
  pose proof (Z.mod_pos_bound k i ltac:(lia)) as Hmod. fold te in Hmod.
  assert (Hs : 0 <= s < 2 ^ 47).
  { split; [apply Z.div_pos; lia|apply Z.div_lt_upper_bound; lia]. }
  assert (Hquot : Z.quot k i = s) by (apply Z.quot_div_nonneg; lia).
  assert (Rs : Int64.in_range s = true) by (apply in_range_small; lia).
  assert (Hfrom : from_ticks k r
                  = time_spec s
                      (Double.div
                         (Double.sub (Double.of_int te)
                            (Double.mul (Double.of_int s) rho)) r)).
  { unfold from_ticks. rewrite Hi. cbn [bind].
    unfold Int64.div, Int64.mul, Int64.sub, Int64.checked.
    destruct (Z.eqb_spec i 0); [lia|]. rewrite Hquot, Rs. cbn [bind].
    rewrite (in_range_small (s * i)) by nia. cbn [bind].
    replace (k - s * i) with te by lia.
    rewrite (in_range_small te) by lia. cbn [bind]. reflexivity. }
  rewrite Hfrom. unfold time_spec. clear Hfrom.
  destruct (of_int_nn s ltac:(lia)) as [NS QS].
  destruct (of_int_nn te ltac:(lia)) as [NT QT].
  destruct (mul_nn (-52) 0 (-105) (-53) _ _ NS Hrho) as [NA CA]; try lia.
  set (A := Double.mul (Double.of_int s) rho) in *.
  pose proof (nonneg_in_value _ _ _ Hrho) as Hrho0.
  assert (HRpos : (0 < to_Q r)%Q) by apply to_Q_finite_positive.
  assert (HK : (inject_Z k == inject_Z (s * i) + inject_Z te)%Q).
  { rewrite <- inject_Z_plus. now replace (s * i + te) with k by lia. }
  assert (HsR : (inject_Z s * to_Q r
                 == inject_Z (s * i) + inject_Z s * to_Q rho)%Q).
  { rewrite HR, inject_Z_mult. ring. }
  assert (HSQ : (0 <= inject_Z s <= 140737488355328 # 1)%Q).
  { change (140737488355328 # 1)%Q with (inject_Z (2 ^ 47)).
    change 0%Q with (inject_Z 0). rewrite <- !Zle_Qle. lia. }
  assert (HIQ : (1 <= inject_Z i <= 140737488355328 # 1)%Q).
  { change (140737488355328 # 1)%Q with (inject_Z (2 ^ 47)).
    change 1%Q with (inject_Z 1). rewrite <- !Zle_Qle. lia. }
  assert (HTQ : (0 <= inject_Z te <= inject_Z i - 1)%Q).
  { split.
    - change 0%Q with (inject_Z 0). rewrite <- Zle_Qle. lia.
    - change 1%Q with (inject_Z 1). unfold Qminus.
      rewrite <- inject_Z_opp, <- inject_Z_plus, <- Zle_Qle. lia. }
  assert (HSP : (0 <= inject_Z s * to_Q rho <= inject_Z s)%Q).
  { split; [apply Qmult_le_0_compat; [apply HSQ|exact Hrho0]|].
    apply Qmult_le_one; [apply HSQ|now apply Qlt_le_weak]. }
  assert (HSI : s = 0 \/ (1 <= inject_Z (s * i))%Q).
  { destruct (Z.eq_dec s 0) as [|Hn]; [now left|right].
    rewrite <- (Zle_Qle 1). nia. }
  unfold close, eps in CA. rewrite QS in CA.
  destruct (sub_nn _ _ _ _ _ _ NT NA)
    as [[[sd Ed] HD]|(sd & mD & eD & Ed & VD & BD & CD)]; try lia.
  - (* the fraction of a second is zero *)
    rewrite Ed.
    change (Double.div (S754_zero sd) r) with (S754_zero (xorb sd false)).
    destruct (set_from_zero s (xorb sd false) Rs) as [s' Hs'].
    exists s, (S754_zero s'). split; [exact Hs'|]. split; [exact Hs|].
    split; [left; eauto|]. split; [easy|].
    change (to_Q (S754_zero s')) with 0%Q.
    rewrite QT in HD. rewrite HsR, HK.
    set (SP := (inject_Z s * to_Q rho)%Q) in *.
    set (SI := inject_Z (s * i)) in *. set (T := inject_Z te) in *.
    set (QA := to_Q A) in *. set (SQ := inject_Z s) in *.
    set (R := to_Q r) in *. set (I := inject_Z i) in *.
    clearbody SP SI T QA SQ R I. split; lra.
  - assert (ND : 2 ^ 52 <= Zpos mD < 2 ^ 53).
    { apply (normal_mantissa mD eD VD). lia. }
    assert (Nr : 2 ^ 52 <= Zpos mr < 2 ^ 53).
    { apply (normal_mantissa mr er Vr). lia. }
    destruct (div_close mD mr eD er ND Nr ltac:(lia))
      as (mq & eq & Eq & Vq & Bq & Cq).
    fold r in Eq, Cq.
    apply close_div_mul in Cq; [|exact HRpos].
    unfold close, eps in Cq, CD.
    pose proof (to_Q_finite_positive mD eD) as HDpos.
    pose proof (to_Q_finite_positive mq eq) as Hqpos.
    destruct sd.
    + (* the fraction of a second is negative *)
      rewrite Ed. fold r.
      change (Double.div (S754_finite true mD eD) r)
        with (Double.div (S754_finite true mD eD) (S754_finite false mr er)).
      rewrite div_opp_l. fold r. rewrite Eq. cbn [SFopp negb].
      rewrite QT in CD.
      pose proof (Qfloor_le (to_Q (S754_finite false mq eq))) as Hfl.
      pose proof (Qlt_floor (to_Q (S754_finite false mq eq))) as Hfu.
      set (a := Qfloor (to_Q (S754_finite false mq eq))) in *.
      assert (HqR : (to_Q (S754_finite false mq eq)
                     <= to_Q (S754_finite false mq eq) * to_Q r)%Q).
      { apply Qmult_ge_one; [now apply Qlt_le_weak|].
        rewrite HR.
        set (P := to_Q rho) in *. set (I := inject_Z i) in *.
        clearbody P I. lra. }
      assert (Ha : 0 <= a < 2 ^ 48).
      { split.
        - assert (H : (inject_Z (-1) < inject_Z a)%Q).
          { rewrite inject_Z_plus in Hfu.
            change (inject_Z 1) with 1%Q in Hfu.
            change (inject_Z (-1)) with (-1 # 1)%Q.
            set (Q0 := to_Q (S754_finite false mq eq)) in *.
            set (AQ := inject_Z a) in *. clearbody Q0 AQ. lra. }
          rewrite <- Zlt_Qlt in H. lia.
        - assert (H : (inject_Z a < inject_Z (2 ^ 48))%Q).
          { change (inject_Z (2 ^ 48)) with (281474976710656 # 1)%Q.
            set (Q0 := to_Q (S754_finite false mq eq)) in *.
            set (QR := (Q0 * to_Q r)%Q) in *.
            set (SP := (inject_Z s * to_Q rho)%Q) in *.
            set (T := inject_Z te) in *. set (QA := to_Q A) in *.
            set (SQ := inject_Z s) in *. set (I := inject_Z i) in *.
            set (QD := to_Q (S754_finite false mD eD)) in *.
            set (AQ := inject_Z a) in *.
            set (P := to_Q rho) in *. set (R := to_Q r) in *.
            clearbody Q0 QR SP T QA SQ I QD AQ P R. lra. }
          rewrite <- Zlt_Qlt in H. exact H. }
      assert (Hz : Double.to_int (S754_finite true mq eq) = Value (- a)).
      { apply to_int_negative. fold a. apply in_range_small. lia. }
      destruct (negative_seconds_any s mq eq (- a) Vq Hz)
        as (F & f & Hset & BF & Nf & Hf1 & Hval).
      { apply in_range_small. lia. }
      { apply in_range_small. lia. }
      assert (Hs1 : s <> 0).
      { intros Es. 
        assert (E0 : (inject_Z s * to_Q rho == 0)%Q)
          by (rewrite Es; apply Qmult_0_l).
        rewrite E0 in CA.
        set (T := inject_Z te) in *. set (QA := to_Q A) in *.
        set (QD := to_Q (S754_finite false mD eD)) in *.
        clearbody T QA QD. lra. }
      destruct HSI as [|HSI]; [contradiction|].
      pose proof (nonneg_in_value _ _ _ Nf) as Hf0.
      assert (HL : ((inject_Z s - to_Q (S754_finite false mq eq)
                     - (1 # 4503599627370496)) * to_Q r
                    <= (inject_Z F + to_Q f) * to_Q r)%Q).
      { apply Qmult_le_compat_r; [apply Hval|now apply Qlt_le_weak]. }
      assert (HU : ((inject_Z F + to_Q f) * to_Q r
                    <= (inject_Z s - to_Q (S754_finite false mq eq)
                        + (1 # 4503599627370496)) * to_Q r)%Q).
      { apply Qmult_le_compat_r; [apply Hval|now apply Qlt_le_weak]. }
      assert (HfR : (to_Q f * to_Q r
                     <= (1 + (1 # 4503599627370496)) * to_Q r)%Q).
      { apply Qmult_le_compat_r; [exact Hf1|now apply Qlt_le_weak]. }
      assert (HL' : ((inject_Z s - to_Q (S754_finite false mq eq)
                      - (1 # 4503599627370496)) * to_Q r
                     == inject_Z s * to_Q r
                        - to_Q (S754_finite false mq eq) * to_Q r
                        - (1 # 4503599627370496) * to_Q r)%Q) by ring.
      assert (HU' : ((inject_Z s - to_Q (S754_finite false mq eq)
                      + (1 # 4503599627370496)) * to_Q r
                     == inject_Z s * to_Q r
                        - to_Q (S754_finite false mq eq) * to_Q r
                        + (1 # 4503599627370496) * to_Q r)%Q) by ring.
      assert (HM' : ((inject_Z F + to_Q f) * to_Q r
                     == inject_Z F * to_Q r + to_Q f * to_Q r)%Q) by ring.
      assert (HfR' : ((1 + (1 # 4503599627370496)) * to_Q r
                      == to_Q r + (1 # 4503599627370496) * to_Q r)%Q) by ring.
      rewrite HL', HM' in HL. rewrite HU', HM' in HU. rewrite HfR' in HfR.
      rewrite HsR in HL, HU.
      assert (HF0 : 0 <= F).
      { destruct (Z_le_gt_dec 0 F) as [|Hneg]; [assumption|exfalso].
        assert (HFQ : (inject_Z F <= inject_Z (-1))%Q)
          by (rewrite <- Zle_Qle; lia).
        assert (HFR : (inject_Z F * to_Q r <= inject_Z (-1) * to_Q r)%Q).
        { apply Qmult_le_compat_r; [exact HFQ|now apply Qlt_le_weak]. }
        change (inject_Z (-1)) with (-1 # 1)%Q in HFR.
        set (Q0 := to_Q (S754_finite false mq eq)) in *.
        set (QR := (Q0 * to_Q r)%Q) in *.
        set (FR := (inject_Z F * to_Q r)%Q) in *.
        set (fR := (to_Q f * to_Q r)%Q) in *.
        set (SP := (inject_Z s * to_Q rho)%Q) in *.
        set (SI := inject_Z (s * i)) in *.
        set (T := inject_Z te) in *. set (QA := to_Q A) in *.
        set (SQ := inject_Z s) in *. set (I := inject_Z i) in *.
        set (QD := to_Q (S754_finite false mD eD)) in *.
        set (P := to_Q rho) in *. set (R := to_Q r) in *.
        clearbody Q0 QR FR fR SP SI T QA SQ I QD P R. lra. }
      exists F, f. split; [exact Hset|]. split; [lia|].
      split; [apply (nonneg_in_weaken _ _ _ _ _ Nf); lia|].
      split.
      { set (X := to_Q f) in *. clearbody X. lra. }
      rewrite HK.
      set (Q0 := to_Q (S754_finite false mq eq)) in *.
      set (QR := (Q0 * to_Q r)%Q) in *.
      set (FR := (inject_Z F * to_Q r)%Q) in *.
      set (fR := (to_Q f * to_Q r)%Q) in *.
      set (SP := (inject_Z s * to_Q rho)%Q) in *.
      set (SI := inject_Z (s * i)) in *.
      set (T := inject_Z te) in *. set (QA := to_Q A) in *.
      set (SQ := inject_Z s) in *. set (I := inject_Z i) in *.
      set (QD := to_Q (S754_finite false mD eD)) in *.
      set (P := to_Q rho) in *. set (R := to_Q r) in *.
      clearbody Q0 QR FR fR SP SI T QA SQ I QD P R. split; lra.
    + (* the fraction of a second is positive *)
      rewrite Ed. fold r. rewrite Eq.
      rewrite QT in CD.
      assert (Hq1 : (to_Q (S754_finite false mq eq) < 1)%Q).
      { apply (Qmult_lt_one _ (to_Q r) HRpos).
        set (Q0 := to_Q (S754_finite false mq eq)) in *.
        set (QR := (Q0 * to_Q r)%Q) in *.
        set (SP := (inject_Z s * to_Q rho)%Q) in *.
        set (T := inject_Z te) in *. set (QA := to_Q A) in *.
        set (SQ := inject_Z s) in *. set (I := inject_Z i) in *.
        set (QD := to_Q (S754_finite false mD eD)) in *.
        set (P := to_Q rho) in *. set (R := to_Q r) in *.
        clearbody Q0 QR SP T QA SQ I QD P R. lra. }
      pose proof (ltb_one_of_value mq eq Vq Hq1) as Hlt.
      pose proof (ltb_one_inv mq eq Vq Hlt) as Heq.
      exists s, (S754_finite false mq eq).
      split.
      { apply set_from_normalized.
        - unfold well_formed.
          cbn [get_full_secs get_frac_secs _full_secs _frac_secs].
          now rewrite Rs, Vq.
        - unfold normalized. cbn [get_frac_secs _frac_secs].
          now rewrite Hlt. }
      split; [exact Hs|].
      split; [right; exists mq, eq; repeat split; try assumption; lia|].
      split.
      { set (Q0 := to_Q (S754_finite false mq eq)) in *. clearbody Q0. lra. }
      rewrite HsR, HK.
      set (Q0 := to_Q (S754_finite false mq eq)) in *.
      set (QR := (Q0 * to_Q r)%Q) in *.
      set (SP := (inject_Z s * to_Q rho)%Q) in *.
      set (SI := inject_Z (s * i)) in *.
      set (T := inject_Z te) in *. set (QA := to_Q A) in *.
      set (SQ := inject_Z s) in *. set (I := inject_Z i) in *.
      set (QD := to_Q (S754_finite false mD eD)) in *.
      set (P := to_Q rho) in *. set (R := to_Q r) in *.
      clearbody Q0 QR SP SI T QA SQ I QD P R. split; lra.
Qed.

(** The round trip of a tick count that is not negative, at a rate from 1
    up to 2^47 and with fewer than 2^47 whole seconds. *)
Lemma round_trip_general (r : double) (i k : Z) :
  Double.valid r = true -> Double.to_int r = Value i -> 1 <= i < 2 ^ 47 ->
  0 <= k -> k < i * 2 ^ 47 -> Int64.in_range k = true ->
  round_trip k r = Value k.
Proof.
  intros V Hi Bi Hk0 Hk1 Rk.
  destruct (from_ticks_general r i k V Hi Bi Hk0 Hk1 Rk)
    as (F & f & Hfrom & BF & Nf & Hf2 & Hval).
  unfold round_trip. rewrite Hfrom. cbn [bind].
  now apply (to_ticks_general r i F k f).
Qed.

End RoundTrip.

(** C1, as the code has it. At a tick rate from 1 up to 2^47, whose integer
    part is [i], the round trip is exact for every tick count [k] that is
    not negative and has fewer than 2^47 whole seconds, [k < i * 2^47]. At
    a tick rate that is an integer of at most 48 bits it is exact for every
    tick count, negative ones included, whose whole seconds in ticks fit an
    [int64_t]. In particular, at the rates 200e6 and 61.44e6/27 it is exact
    for every tick count from 0 to 2^63 - 1. *)
Theorem round_trip_exact :
  (forall (r : double) (i k : Z),
      Double.valid r = true -> Double.to_int r = Value i ->
      1 <= i < 2 ^ 47 ->
      0 <= k -> k < i * 2 ^ 47 -> Int64.in_range k = true ->
      round_trip k r = Value k)
  /\ (forall i k : Z,
        1 <= i <= 2 ^ 48 ->
        Int64.in_range k = true -> Int64.in_range (k / i * i) = true ->
        round_trip k (Double.of_int i) = Value k)
  /\ (forall k : Z,
        0 <= k -> Int64.in_range k = true ->
        round_trip k rate_200e6 = Value k
        /\ round_trip k rate_61_44e6_27 = Value k).
Proof.
  split; [exact round_trip_general|]. split.
  - intros i k Hi Rk Rf.
    destruct (integer_rate_ticks k i Hi Rk Rf) as (t & H). apply H.
  - intros k Hk Rk. pose proof (in_range_bounds k Rk) as Bk. split.
    + apply (round_trip_general rate_200e6 200000000 k); try reflexivity;
        try assumption; lia.
    + apply (round_trip_general rate_61_44e6_27 2275555 k); try reflexivity;
        try assumption; lia.
Qed.

(** 2^62 + 1 ticks at 61.44e6/27 ticks per second, and -1e9 ticks at 200e6
    ticks per second. *)
Lemma round_trip_exact_witness :
  round_trip (2 ^ 62 + 1) rate_61_44e6_27 = Value (2 ^ 62 + 1)
  /\ round_trip (- 10 ^ 9) rate_200e6 = Value (- 10 ^ 9).
Proof.
  split.
  - apply (proj1 round_trip_exact rate_61_44e6_27 2275555 (2 ^ 62 + 1));
      try reflexivity; lia.
  - apply (proj1 (proj2 round_trip_exact) 200000000 (- 10 ^ 9));
      try reflexivity; lia.
Defined.
